(** * The ray-marched login cube: fragment-shader cores over the reals

    The repository renders its 3D object with a GLSL fragment shader that
    exists twice: embedded as [fragmentShaderSource] in [src/main.mjs] and
    as a standalone fragment shader file.  Both are embedded here, function
    by function, as pure functions over [R]:

    - GLSL [float] is idealised as a real number (no rounding, no NaN);
    - the uniforms ([u_resolution], [u_pitch_angle], [u_yaw_angle],
      [u_led_color]) are threaded explicitly as a record;
    - [vec2]/[vec3]/[vec4]/[mat3] are records, [mat3] keeping GLSL's
      column-major layout;
    - the material id stays a float, as in [vec2(distance, materialId)];
    - the bounded [for] loop of [rayMarch] is a structural recursion on the
      number of remaining iterations.

    The page script that feeds the shader (pointer input, form, timers,
    screensaver) is embedded after the shader, in module [Host]. *)

From Stdlib Require Import Reals Lra Psatz Bool List RNsatz ZArith Lia String.
Local Open Scope R_scope.

(** ** GLSL built-ins used by the shader *)

Module GLSL.

Record vec2 := mkvec2 { x2 : R; y2 : R }.
Record vec3 := mkvec3 { x3 : R; y3 : R; z3 : R }.
Record vec4 := mkvec4 { x4 : R; y4 : R; z4 : R; w4 : R }.

(** A [mat3] is stored by columns; the nine-float constructor fills it in
    column-major order, and [m * v] is the linear combination of the
    columns. *)
Record mat3 := mkcols { col0 : vec3; col1 : vec3; col2 : vec3 }.

Definition mat3_of (a0 a1 a2 b0 b1 b2 c0 c1 c2 : R) : mat3 :=
  mkcols (mkvec3 a0 a1 a2) (mkvec3 b0 b1 b2) (mkvec3 c0 c1 c2).

Definition vec3_splat (s : R) : vec3 := mkvec3 s s s.

Definition add3 (a b : vec3) : vec3 :=
  mkvec3 (x3 a + x3 b) (y3 a + y3 b) (z3 a + z3 b).
Definition sub3 (a b : vec3) : vec3 :=
  mkvec3 (x3 a - x3 b) (y3 a - y3 b) (z3 a - z3 b).
Definition mul3 (a b : vec3) : vec3 :=
  mkvec3 (x3 a * x3 b) (y3 a * y3 b) (z3 a * z3 b).
Definition neg3 (a : vec3) : vec3 := mkvec3 (- x3 a) (- y3 a) (- z3 a).
Definition scale3 (s : R) (a : vec3) : vec3 :=
  mkvec3 (s * x3 a) (s * y3 a) (s * z3 a).
Definition addf3 (a : vec3) (s : R) : vec3 :=
  mkvec3 (x3 a + s) (y3 a + s) (z3 a + s).

Definition sub2 (a b : vec2) : vec2 := mkvec2 (x2 a - x2 b) (y2 a - y2 b).
Definition subf2 (a : vec2) (s : R) : vec2 := mkvec2 (x2 a - s) (y2 a - s).
Definition scalef2 (a : vec2) (s : R) : vec2 := mkvec2 (x2 a * s) (y2 a * s).

Definition abs3 (a : vec3) : vec3 :=
  mkvec3 (Rabs (x3 a)) (Rabs (y3 a)) (Rabs (z3 a)).
Definition abs2 (a : vec2) : vec2 := mkvec2 (Rabs (x2 a)) (Rabs (y2 a)).
Definition maxf3 (a : vec3) (s : R) : vec3 :=
  mkvec3 (Rmax (x3 a) s) (Rmax (y3 a) s) (Rmax (z3 a) s).
Definition maxf2 (a : vec2) (s : R) : vec2 :=
  mkvec2 (Rmax (x2 a) s) (Rmax (y2 a) s).

Definition dot3 (a b : vec3) : R := x3 a * x3 b + y3 a * y3 b + z3 a * z3 b.
Definition length3 (a : vec3) : R :=
  sqrt (x3 a * x3 a + y3 a * y3 a + z3 a * z3 a).
Definition length2 (a : vec2) : R := sqrt (x2 a * x2 a + y2 a * y2 a).

(** [normalize(v) = v / length(v)].  GLSL leaves the zero vector undefined;
    with the reals' total division the model yields the zero vector there. *)
Definition normalize3 (a : vec3) : vec3 :=
  mkvec3 (x3 a / length3 a) (y3 a / length3 a) (z3 a / length3 a).

(** [reflect(I, N) = I - 2 * dot(N, I) * N]. *)
Definition reflect3 (i n : vec3) : vec3 := sub3 i (scale3 (2 * dot3 n i) n).

(** [mix(x, y, a) = x * (1 - a) + y * a], componentwise. *)
Definition mix3 (a b : vec3) (t : R) : vec3 :=
  add3 (scale3 (1 - t) a) (scale3 t b).

(** [pow(x, y)] is [x] to the power [y] for [x > 0] and [0] at [x = 0]
    (all exponents of the shader are positive).  GLSL leaves [x < 0]
    undefined; the model returns [0] there. *)
Definition pow (b e : R) : R :=
  if Rlt_dec 0 b then Rpower b e else 0.
Definition pow3 (a e : vec3) : vec3 :=
  mkvec3 (pow (x3 a) (x3 e)) (pow (y3 a) (y3 e)) (pow (z3 a) (z3 e)).

Definition mulMV (m : mat3) (v : vec3) : vec3 :=
  add3 (add3 (scale3 (x3 v) (col0 m)) (scale3 (y3 v) (col1 m)))
       (scale3 (z3 v) (col2 m)).
Definition mulMM (a b : mat3) : mat3 :=
  mkcols (mulMV a (col0 b)) (mulMV a (col1 b)) (mulMV a (col2 b)).

(** Float comparisons as booleans. *)
Definition ltb (a b : R) : bool := if Rlt_dec a b then true else false.
Definition eqb (a b : R) : bool := if Req_dec_T a b then true else false.

(** The uniforms of the fragment shader. *)
Record Uniforms := mkUniforms {
  u_resolution : vec2;
  u_pitch_angle : R;
  u_yaw_angle : R;
  u_led_color : vec3
}.

(** Which arm of the material [if]/[else if] chain of [main] runs. *)
Inductive ShadeBranch := GlassBranch | PlasticBranch | LedBranch | DefaultBranch.

End GLSL.
Export GLSL.

(** ** The standalone fragment shader *)

Module Standalone.

Definition PI : R := 3.14159265358979323846.

Definition MATERIAL_PLASTIC : R := 0.0.
Definition MATERIAL_GLASS : R := 1.0.
Definition MATERIAL_LED : R := 2.0.

Definition sdBox (p b : vec3) : R :=
  let q := sub3 (abs3 p) b in
  length3 (maxf3 q 0.0) + Rmin (Rmax (x3 q) (Rmax (y3 q) (z3 q))) 0.0.

Definition sdOctahedron (p : vec3) (s : R) : R :=
  let p := abs3 p in
  (x3 p + y3 p + z3 p - s) * 0.57735027.

Definition sdCappedCylinder (p : vec3) (h r : R) : R :=
  let d := sub2 (abs2 (mkvec2 (length2 (mkvec2 (x3 p) (z3 p))) (y3 p)))
                (mkvec2 r h) in
  Rmin (Rmax (x2 d) (y2 d)) 0.0 + length2 (maxf2 d 0.0).

Definition sdSphere (p : vec3) (s : R) : R := length3 p - s.

Definition pitchMatrix (angle : R) : mat3 :=
  mat3_of 1.0 0.0 0.0
          0.0 (cos angle) (- sin angle)
          0.0 (sin angle) (cos angle).

Definition yawMatrix (angle : R) : mat3 :=
  mat3_of (cos angle) 0.0 (sin angle)
          0.0 1.0 0.0
          (- sin angle) 0.0 (cos angle).

Definition rollMatrix (angle : R) : mat3 :=
  mat3_of (cos angle) (- sin angle) 0.0
          (sin angle) (cos angle) 0.0
          0.0 0.0 1.0.

(** The local variables of [map], one definition each, in source order. *)

Definition rotation (u : Uniforms) : mat3 :=
  let pitchAngle := u_pitch_angle u in
  let yawAngle := u_yaw_angle u in
  let rollAngle := 0.0 in
  let pitch := pitchMatrix pitchAngle in
  let yaw := yawMatrix yawAngle in
  let roll := rollMatrix rollAngle in
  mulMM (mulMM roll pitch) yaw.

Definition rotatedP (u : Uniforms) (p : vec3) : vec3 := mulMV (rotation u) p.

Definition cube (u : Uniforms) (p : vec3) : R :=
  sdBox (rotatedP u p) (mkvec3 1.2 1.0 1.0).

Definition octahedron (u : Uniforms) (p : vec3) : R :=
  let octahedronPosBase := sub3 (rotatedP u p) (mkvec3 0.0 0.0 (-1.0)) in
  let octahedronPosBase :=
    mkvec3 (x3 octahedronPosBase / 1.2) (y3 octahedronPosBase)
           (z3 octahedronPosBase) in
  let octahedronPos := mulMV (rollMatrix (PI / 4.0)) octahedronPosBase in
  sdOctahedron octahedronPos 1.2.

Definition cylinderPos (u : Uniforms) (p : vec3) : vec3 :=
  let cylinderPos := rotatedP u p in
  let cylinderPos :=
    mkvec3 (x3 cylinderPos) (y3 cylinderPos) (z3 cylinderPos + 0.75) in
  mul3 cylinderPos (mkvec3 0.125 1.0 1.0).

Definition cylinder (u : Uniforms) (p : vec3) : R :=
  sdCappedCylinder (cylinderPos u p) 1.0 0.2.

Definition cubeWithHole (u : Uniforms) (p : vec3) : R :=
  Rmax (cube u p) (- octahedron u p).

Definition ledSphere (u : Uniforms) (p : vec3) : R :=
  let ledPos := sub3 (rotatedP u p) (mkvec3 1.1 (-0.9) (-1.0)) in
  sdSphere ledPos 0.02.

Definition cylinderInCube (u : Uniforms) (p : vec3) : R :=
  Rmax (cylinder u p) (cube u p).

Definition map (u : Uniforms) (p : vec3) : vec2 :=
  let minDist := cubeWithHole u p in
  let material := MATERIAL_PLASTIC in
  let '(minDist, material) :=
    if ltb (cylinderInCube u p) minDist
    then (cylinderInCube u p, MATERIAL_GLASS)
    else (minDist, material) in
  let '(minDist, material) :=
    if ltb (ledSphere u p) minDist
    then (ledSphere u p, MATERIAL_LED)
    else (minDist, material) in
  mkvec2 minDist material.

Definition glassMaterial (u : Uniforms) (normal viewDir lightDir : vec3)
    (diff : R) : vec3 :=
  let baseColor := vec3_splat 0.0 in
  let reflectDir := reflect3 (neg3 viewDir) normal in
  let fresnel := pow (1.0 - Rmax 0.0 (dot3 viewDir normal)) 3.0 in
  let halfDir := normalize3 (add3 lightDir viewDir) in
  let spec := pow (Rmax 0.0 (dot3 normal halfDir)) 64.0 in
  let litColor := addf3 (addf3 baseColor (fresnel * 0.3)) (spec * 0.8) in
  let litColor := mix3 litColor (vec3_splat 0.1) 0.7 in
  litColor.

Definition plasticMaterial (u : Uniforms) (normal viewDir lightDir : vec3)
    (diff : R) : vec3 :=
  let materialColor := mkvec3 0.9 0.85 0.7 in
  let softDiff := 0.4 + 0.6 * diff in
  let halfDir := normalize3 (add3 lightDir viewDir) in
  let spec := pow (Rmax 0.0 (dot3 normal halfDir)) 16.0 * 0.2 in
  addf3 (scale3 softDiff materialColor) spec.

Definition ledMaterial (u : Uniforms) (normal viewDir lightDir : vec3)
    (diff : R) : vec3 :=
  u_led_color u.

(** One-sided difference against the sample at [p] itself. *)
Definition calcNormal (u : Uniforms) (p : vec3) : vec3 :=
  let eps := 0.001 in
  let h := mkvec2 eps 0.0 in
  let reference := x2 (map u p) in
  normalize3 (mkvec3
    (reference - x2 (map u (sub3 p (mkvec3 (x2 h) (y2 h) (y2 h)))))
    (reference - x2 (map u (sub3 p (mkvec3 (y2 h) (x2 h) (y2 h)))))
    (reference - x2 (map u (sub3 p (mkvec3 (y2 h) (y2 h) (x2 h)))))).

Definition maxSteps : nat := 100.
Definition maxDist : R := 100.0.
Definition eps : R := 0.001.

(** The [for] loop of [rayMarch]: [steps] iterations remain, [t] and
    [materialId] are the loop-carried variables; [break] returns them. *)
Fixpoint marchLoop (u : Uniforms) (ro rd : vec3) (steps : nat)
    (t materialId : R) : vec2 :=
  match steps with
  | O => mkvec2 t materialId
  | S steps' =>
      let p := add3 ro (scale3 t rd) in
      let result := map u p in
      let d := x2 result in
      let materialId := y2 result in
      if ltb d eps || ltb maxDist t then mkvec2 t materialId
      else marchLoop u ro rd steps' (t + d) materialId
  end.

Definition rayMarch (u : Uniforms) (ro rd : vec3) : vec2 :=
  marchLoop u ro rd maxSteps 0.0 (-1.0).

(** The arm of the material dispatch of [main] taken for a material id. *)
Definition materialBranch (materialId : R) : ShadeBranch :=
  if eqb materialId MATERIAL_GLASS then GlassBranch
  else if eqb materialId MATERIAL_PLASTIC then PlasticBranch
  else if eqb materialId MATERIAL_LED then LedBranch
  else DefaultBranch.

(** [main] from the ray march on: everything after the camera setup, as a
    function of the camera ray. *)
Definition shadeRay (u : Uniforms) (ro rd : vec3) : vec4 :=
  let marchResult := rayMarch u ro rd in
  let t := x2 marchResult in
  let materialId := y2 marchResult in
  let color := mkvec4 0.0 0.0 0.0 0.0 in
  if ltb t 100.0 then
    let p := add3 ro (scale3 t rd) in
    let normal := calcNormal u p in
    let lightDir := normalize3 (mkvec3 0.5 0.5 (-1.0)) in
    let viewDir := normalize3 (neg3 rd) in
    let diff := Rmax 0.0 (dot3 normal lightDir) in
    let litColor :=
      match materialBranch materialId with
      | GlassBranch => glassMaterial u normal viewDir lightDir diff
      | PlasticBranch => plasticMaterial u normal viewDir lightDir diff
      | LedBranch => ledMaterial u normal viewDir lightDir diff
      | DefaultBranch => mkvec3 1.0 0.0 1.0
      end in
    let litColor := pow3 litColor (vec3_splat (1.0 / 2.2)) in
    mkvec4 (x3 litColor) (y3 litColor) (z3 litColor) 1.0
  else color.

Definition cameraPos : vec3 := mkvec3 0.0 0.0 (-2.35).

(** The head of [main]: the camera ray direction for the interpolated
    coordinate [v_uv]. *)
Definition cameraRay (u : Uniforms) (v_uv : vec2) : vec3 :=
  let uv := scalef2 (subf2 v_uv 0.5) 2.0 in
  let uv := mkvec2 (x2 uv * (x2 (u_resolution u) / y2 (u_resolution u)))
                   (y2 uv) in
  normalize3 (mkvec3 (x2 uv) (y2 uv) 1.0).

(** [main]: the fragment colour [fragColor] for [v_uv]. *)
Definition main (u : Uniforms) (v_uv : vec2) : vec4 :=
  let ro := cameraPos in
  let rd := cameraRay u v_uv in
  shadeRay u ro rd.

End Standalone.

(** ** The fragment shader embedded in [main.mjs] ([fragmentShaderSource]) *)

Module Embedded.

Definition PI : R := 3.14159265358979323846.

Definition MATERIAL_PLASTIC : R := 0.0.
Definition MATERIAL_GLASS : R := 1.0.
Definition MATERIAL_LED : R := 2.0.

Definition sdBox (p b : vec3) : R :=
  let q := sub3 (abs3 p) b in
  length3 (maxf3 q 0.0) + Rmin (Rmax (x3 q) (Rmax (y3 q) (z3 q))) 0.0.

Definition sdOctahedron (p : vec3) (s : R) : R :=
  let p := abs3 p in
  (x3 p + y3 p + z3 p - s) * 0.57735027.

Definition sdCappedCylinder (p : vec3) (h r : R) : R :=
  let d := sub2 (abs2 (mkvec2 (length2 (mkvec2 (x3 p) (z3 p))) (y3 p)))
                (mkvec2 r h) in
  Rmin (Rmax (x2 d) (y2 d)) 0.0 + length2 (maxf2 d 0.0).

Definition sdSphere (p : vec3) (s : R) : R := length3 p - s.

Definition pitchMatrix (angle : R) : mat3 :=
  mat3_of 1.0 0.0 0.0
          0.0 (cos angle) (- sin angle)
          0.0 (sin angle) (cos angle).

Definition yawMatrix (angle : R) : mat3 :=
  mat3_of (cos angle) 0.0 (sin angle)
          0.0 1.0 0.0
          (- sin angle) 0.0 (cos angle).

Definition rollMatrix (angle : R) : mat3 :=
  mat3_of (cos angle) (- sin angle) 0.0
          (sin angle) (cos angle) 0.0
          0.0 0.0 1.0.

(** The local variables of [map], one definition each, in source order. *)

Definition rotation (u : Uniforms) : mat3 :=
  let pitchAngle := u_pitch_angle u in
  let yawAngle := u_yaw_angle u in
  let rollAngle := 0.0 in
  let pitch := pitchMatrix pitchAngle in
  let yaw := yawMatrix yawAngle in
  let roll := rollMatrix rollAngle in
  mulMM (mulMM roll pitch) yaw.

Definition rotatedP (u : Uniforms) (p : vec3) : vec3 := mulMV (rotation u) p.

Definition cube (u : Uniforms) (p : vec3) : R :=
  sdBox (rotatedP u p) (mkvec3 1.2 1.0 1.0).

Definition octahedron (u : Uniforms) (p : vec3) : R :=
  let octahedronPosBase := sub3 (rotatedP u p) (mkvec3 0.0 0.0 (-1.0)) in
  let octahedronPosBase :=
    mkvec3 (x3 octahedronPosBase / 1.2) (y3 octahedronPosBase)
           (z3 octahedronPosBase) in
  let octahedronPos := mulMV (rollMatrix (PI / 4.0)) octahedronPosBase in
  sdOctahedron octahedronPos 1.2.

Definition cylinderPos (u : Uniforms) (p : vec3) : vec3 :=
  let cylinderPos := rotatedP u p in
  let cylinderPos :=
    mkvec3 (x3 cylinderPos) (y3 cylinderPos) (z3 cylinderPos + 0.75) in
  mul3 cylinderPos (mkvec3 0.125 1.0 1.0).

Definition cylinder (u : Uniforms) (p : vec3) : R :=
  sdCappedCylinder (cylinderPos u p) 1.0 0.2.

Definition cubeWithHole (u : Uniforms) (p : vec3) : R :=
  Rmax (cube u p) (- octahedron u p).

Definition ledSphere (u : Uniforms) (p : vec3) : R :=
  let ledPos := sub3 (rotatedP u p) (mkvec3 1.1 (-0.9) (-1.0)) in
  sdSphere ledPos 0.02.

Definition cylinderInCube (u : Uniforms) (p : vec3) : R :=
  Rmax (cylinder u p) (cube u p).

Definition map (u : Uniforms) (p : vec3) : vec2 :=
  let minDist := cubeWithHole u p in
  let material := MATERIAL_PLASTIC in
  let '(minDist, material) :=
    if ltb (cylinderInCube u p) minDist
    then (cylinderInCube u p, MATERIAL_GLASS)
    else (minDist, material) in
  let '(minDist, material) :=
    if ltb (ledSphere u p) minDist
    then (ledSphere u p, MATERIAL_LED)
    else (minDist, material) in
  mkvec2 minDist material.

Definition glassMaterial (u : Uniforms) (normal viewDir lightDir : vec3)
    (diff : R) : vec3 :=
  let baseColor := vec3_splat 0.0 in
  let reflectDir := reflect3 (neg3 viewDir) normal in
  let fresnel := pow (1.0 - Rmax 0.0 (dot3 viewDir normal)) 3.0 in
  let halfDir := normalize3 (add3 lightDir viewDir) in
  let spec := pow (Rmax 0.0 (dot3 normal halfDir)) 64.0 in
  let litColor := addf3 (addf3 baseColor (fresnel * 0.3)) (spec * 0.8) in
  let litColor := mix3 litColor (vec3_splat 0.1) 0.7 in
  litColor.

Definition plasticMaterial (u : Uniforms) (normal viewDir lightDir : vec3)
    (diff : R) : vec3 :=
  let materialColor := mkvec3 0.9 0.85 0.7 in
  let softDiff := 0.4 + 0.6 * diff in
  let halfDir := normalize3 (add3 lightDir viewDir) in
  let spec := pow (Rmax 0.0 (dot3 normal halfDir)) 16.0 * 0.2 in
  addf3 (scale3 softDiff materialColor) spec.

Definition ledMaterial (u : Uniforms) (normal viewDir lightDir : vec3)
    (diff : R) : vec3 :=
  u_led_color u.

(** Central difference around [p]. *)
Definition calcNormal (u : Uniforms) (p : vec3) : vec3 :=
  let eps := 0.001 in
  let h := mkvec2 eps 0.0 in
  normalize3 (mkvec3
    (x2 (map u (add3 p (mkvec3 (x2 h) (y2 h) (y2 h))))
     - x2 (map u (sub3 p (mkvec3 (x2 h) (y2 h) (y2 h)))))
    (x2 (map u (add3 p (mkvec3 (y2 h) (x2 h) (y2 h))))
     - x2 (map u (sub3 p (mkvec3 (y2 h) (x2 h) (y2 h)))))
    (x2 (map u (add3 p (mkvec3 (y2 h) (y2 h) (x2 h))))
     - x2 (map u (sub3 p (mkvec3 (y2 h) (y2 h) (x2 h)))))).

Definition maxSteps : nat := 100.
Definition maxDist : R := 100.0.
Definition eps : R := 0.001.

(** The [for] loop of [rayMarch]: [steps] iterations remain, [t] and
    [materialId] are the loop-carried variables; [break] returns them. *)
Fixpoint marchLoop (u : Uniforms) (ro rd : vec3) (steps : nat)
    (t materialId : R) : vec2 :=
  match steps with
  | O => mkvec2 t materialId
  | S steps' =>
      let p := add3 ro (scale3 t rd) in
      let result := map u p in
      let d := x2 result in
      let materialId := y2 result in
      if ltb d eps || ltb maxDist t then mkvec2 t materialId
      else marchLoop u ro rd steps' (t + d) materialId
  end.

Definition rayMarch (u : Uniforms) (ro rd : vec3) : vec2 :=
  marchLoop u ro rd maxSteps 0.0 (-1.0).

(** The arm of the material dispatch of [main] taken for a material id. *)
Definition materialBranch (materialId : R) : ShadeBranch :=
  if eqb materialId MATERIAL_GLASS then GlassBranch
  else if eqb materialId MATERIAL_PLASTIC then PlasticBranch
  else if eqb materialId MATERIAL_LED then LedBranch
  else DefaultBranch.

(** [main] from the ray march on: everything after the camera setup, as a
    function of the camera ray. *)
Definition shadeRay (u : Uniforms) (ro rd : vec3) : vec4 :=
  let marchResult := rayMarch u ro rd in
  let t := x2 marchResult in
  let materialId := y2 marchResult in
  let color := mkvec4 0.0 0.0 0.0 0.0 in
  if ltb t 100.0 then
    let p := add3 ro (scale3 t rd) in
    let normal := calcNormal u p in
    let lightDir := normalize3 (mkvec3 0.5 0.5 (-1.0)) in
    let viewDir := normalize3 (neg3 rd) in
    let diff := Rmax 0.0 (dot3 normal lightDir) in
    let litColor :=
      match materialBranch materialId with
      | GlassBranch => glassMaterial u normal viewDir lightDir diff
      | PlasticBranch => plasticMaterial u normal viewDir lightDir diff
      | LedBranch => ledMaterial u normal viewDir lightDir diff
      | DefaultBranch => mkvec3 1.0 0.0 1.0
      end in
    let litColor := pow3 litColor (vec3_splat (1.0 / 2.2)) in
    mkvec4 (x3 litColor) (y3 litColor) (z3 litColor) 1.0
  else color.

Definition cameraPos : vec3 := mkvec3 0.0 0.0 (-2.75).

(** The head of [main]: the camera ray direction for the interpolated
    coordinate [v_uv]. *)
Definition cameraRay (u : Uniforms) (v_uv : vec2) : vec3 :=
  let uv := scalef2 (subf2 v_uv 0.5) 2.0 in
  let uv := mkvec2 (x2 uv * (x2 (u_resolution u) / y2 (u_resolution u)))
                   (y2 uv) in
  normalize3 (mkvec3 (x2 uv) (y2 uv) 1.0).

(** [main]: the fragment colour [fragColor] for [v_uv]. *)
Definition main (u : Uniforms) (v_uv : vec2) : vec4 :=
  let ro := cameraPos in
  let rd := cameraRay u v_uv in
  shadeRay u ro rd.

End Embedded.

(** ** Sample inputs and specification-side terms *)

(** No rotation, an 800 x 600 viewport, LED off. *)
Definition still : Uniforms :=
  mkUniforms (mkvec2 800 600) 0 0 (mkvec3 0 0 0).

Definition origin : vec3 := mkvec3 0 0 0.

(** A point right of the cube, level with its centre: the cube is nearest
    and the cylinder term is clipped to it. *)
Definition besideCube : vec3 := mkvec3 2 0 0.

(** A yaw of [atan (12/35)] (about 0.33 rad), no pitch; and the point on
    the world Z axis that this yaw carries to depth [-0.75] in cube space. *)
Definition yawed : Uniforms :=
  mkUniforms (mkvec2 800 600) 0 (atan (12 / 35)) (mkvec3 0 0 0).

Definition onAxis : vec3 := mkvec3 0 0 (- 111 / 140).

(** The cylinder term as the specification describes it: built from the
    unrotated query point, Z offset by +0.75, X scaled by 0.125, then
    [sdCappedCylinder(., 1.0, 0.2)]. *)
Definition cylinder_unrotated (p : vec3) : R :=
  Standalone.sdCappedCylinder
    (mkvec3 (x3 p * 0.125) (y3 p) (z3 p + 0.75)) 1.0 0.2.

Definition unitX : vec3 := mkvec3 1 0 0.

(** The ray of the miss scenario: from the standalone camera position,
    pointing away from the scene. *)
Definition awayOrigin : vec3 := mkvec3 0 0 (-2.35).
Definition awayDir : vec3 := mkvec3 0 0 (-1).

(** A lower bound on the march parameter after [n] more steps from [t]
    along the away ray: every step at least adds half of [t] plus 0.15. *)
Fixpoint growN (n : nat) (t : R) : R :=
  match n with
  | O => t
  | S k => growN k (1.5 * t + 0.15)
  end.

(** The two difference vectors of the normal estimators, with the fixed
    step 0.001: the central difference of the specification's formula, and
    the one-sided difference against the sample at the point itself. *)
Definition centralGradient (u : Uniforms) (p : vec3) : vec3 :=
  mkvec3
    (x2 (Standalone.map u (add3 p (mkvec3 0.001 0 0)))
     - x2 (Standalone.map u (sub3 p (mkvec3 0.001 0 0))))
    (x2 (Standalone.map u (add3 p (mkvec3 0 0.001 0)))
     - x2 (Standalone.map u (sub3 p (mkvec3 0 0.001 0))))
    (x2 (Standalone.map u (add3 p (mkvec3 0 0 0.001)))
     - x2 (Standalone.map u (sub3 p (mkvec3 0 0 0.001)))).

Definition backwardGradient (u : Uniforms) (p : vec3) : vec3 :=
  mkvec3
    (x2 (Standalone.map u p) - x2 (Standalone.map u (sub3 p (mkvec3 0.001 0 0))))
    (x2 (Standalone.map u p) - x2 (Standalone.map u (sub3 p (mkvec3 0 0.001 0))))
    (x2 (Standalone.map u p) - x2 (Standalone.map u (sub3 p (mkvec3 0 0 0.001)))).

(** A point right of the cube at the height of its top face, where the
    box distance has a crease. *)
Definition creasePoint : vec3 := mkvec3 2 1 0.

(** The centre of the cylinder in cube space. *)
Definition cylinderCentre : vec3 := mkvec3 0 0 (- 0.75).


Definition centrePixel : vec2 := mkvec2 0.5 0.5.

(** A tilted view: pitch [atan (12/35)] and yaw [- atan (12/35)] (about
    0.33 rad each, so that cosine and sine are 35/37 and 12/37), a square
    viewport, LED off; and the pixel whose camera ray is
    [normalize (-16/21, -4/7, 1) = (-16/29, -12/29, 21/29)]. *)
Definition tilted : Uniforms :=
  mkUniforms (mkvec2 800 800) (atan (12 / 35)) (- atan (12 / 35))
             (mkvec3 0 0 0).

Definition brightPixel : vec2 := mkvec2 (5 / 42) (3 / 14).

Definition brightRay : vec3 := mkvec3 (- 16 / 29) (- 12 / 29) (21 / 29).

(** The world-space outward normal of the cube's front face under
    [tilted]. *)
Definition tiltedNormal : vec3 :=
  mkvec3 (420 / 1369) (12 / 37) (- 1225 / 1369).

(** A lower bound on the march parameter after [n] more steps from [t]
    along a ray that stays at least 0.1 from the scene and, far out, moves
    away from it: every step adds at least 0.1 and at least [t - 4.61]. *)
Fixpoint farN (n : nat) (t : R) : R :=
  match n with
  | O => t
  | S k => farN k (Rmax (t + 0.1) (2 * t - 4.61))
  end.

(** A wide viewport and the middle of its right edge. *)
Definition wideView : Uniforms :=
  mkUniforms (mkvec2 1600 800) 0 0 (mkvec3 0 0 0).

Definition rightEdge : vec2 := mkvec2 1 0.5.

(** The march parameter with which the loop of [rayMarch] enters iteration
    [k] when no earlier iteration left it: 0 at first, then increased by
    the distance [map] returns at each sampled point. *)
Fixpoint marchT (u : Uniforms) (ro rd : vec3) (k : nat) : R :=
  match k with
  | O => 0.0
  | S j =>
      marchT u ro rd j
      + x2 (Standalone.map u (add3 ro (scale3 (marchT u ro rd j) rd)))
  end.

(** What [map] returns at the point sampled in iteration [k]. *)
Definition marchSample (u : Uniforms) (ro rd : vec3) (k : nat) : vec2 :=
  Standalone.map u (add3 ro (scale3 (marchT u ro rd k) rd)).

(** Iteration [k] takes the [break]. *)
Definition marchBreaks (u : Uniforms) (ro rd : vec3) (k : nat) : Prop :=
  x2 (marchSample u ro rd k) < 0.001 \/ 100 < marchT u ro rd k.

(** * The page script of [src/main.mjs]

    The second (current) script of [src/main.mjs] is embedded here as a
    state machine.  Its [let] variables, the properties of the document it
    writes, and the browser's tables of pending timers and animation-frame
    requests form the state; every event listener and every function is a
    state transformer with the source's name; a [throw] or a [TypeError]
    ends the listener with the state reached so far.

    - Numbers are reals, as in the shader ([Math.PI] is [PI], [Math.floor]
      is [Zfloor]); loop counters and grid indices are integers.
    - The browser supplies, with each event, the values the listeners read
      from it: the canvas rectangle, the touch list, the display size, the
      outcome of [getContext], the successive results of [Math.random].
    - WebGL and 2D-canvas calls are recorded as far as they carry values
      computed by the script: the uniforms of the last draw call ([frame])
      and the circles of the last screensaver picture ([arcs]).
    - Nothing is assumed about time: a pending timer may fire at any moment,
      whatever its delay. *)

Module Host.
Import ListNotations.

(** ** The browser's side *)

(** Handles returned by [setTimeout], [setInterval] and
    [requestAnimationFrame]. *)
Definition Handle := nat.

(** The closures the script hands to the browser's timers. *)
Inductive Callback :=
| InputLedOff   (* onInputChange: ledColor = LED_OFF; scheduleRender() *)
| SubmitDone    (* the submit listener's timeout *)
| Inactivity    (* resetInactivityTimer: showScreensaver() *)
| Animate       (* startGameOfLife: animate *)
| ResetGrid.    (* startGameOfLife: setInterval(resetGameGrid, 30000) *)

Definition Callback_eqb (a b : Callback) : bool :=
  match a, b with
  | InputLedOff, InputLedOff | SubmitDone, SubmitDone
  | Inactivity, Inactivity | Animate, Animate | ResetGrid, ResetGrid => true
  | _, _ => false
  end.

Record Timer := mkTimer {
  handle : Handle;
  callback : Callback;
  delay : R;
  repeats : bool
}.

(** A [DOMRect] of an element's bounding box: [right] and [bottom] are
    derived from the origin and the (non-negative) size. *)
Record Rect := mkRect {
  rect_left : R;
  rect_top : R;
  rect_width : R;
  rect_height : R
}.
Definition rect_right (rect : Rect) : R := rect_left rect + rect_width rect.
Definition rect_bottom (rect : Rect) : R := rect_top rect + rect_height rect.

(** A mouse event or one entry of [event.touches]. *)
Record Touch := mkTouch { clientX : R; clientY : R }.

(** What [resizeCanvas] reads: [canvas.clientWidth], [canvas.clientHeight]
    and [window.devicePixelRatio]. *)
Record Display := mkDisplay {
  clientWidth : R;
  clientHeight : R;
  devicePixelRatio : R
}.

(** What the screensaver reads when it starts or resets its grid: whether
    [getContext("2d")] returns a context, the bounding box of the
    screensaver canvas, the pixel ratio, and the [k]-th result of
    [Math.random] during the event. *)
Record Screen := mkScreen {
  context : bool;
  screenRect : Rect;
  pixelRatio : R;
  random : nat -> R
}.

(** ** The document *)

(** An [<input>]: its text and its [classList] (an ordered set of
    tokens). *)
Record Input := mkInput { value : string; classList : list string }.

(** The heading of the message layer. *)
Record Heading := mkHeading {
  textContent : string;
  headingClassList : list string
}.

Definition classList_add (token : string) (l : list string) : list string :=
  if existsb (String.eqb token) l then l else l ++ [token].

Definition classList_remove (token : string) (l : list string)
  : list string :=
  filter (fun c => negb (String.eqb c token)) l.

(** [classList.toggle(token, force)]. *)
Definition classList_toggle (token : string) (force : bool)
  (l : list string) : list string :=
  if force then classList_add token l else classList_remove token l.

(** ** The script's data *)

Record Angles := mkAngles { pitch : R; yaw : R }.

(** [boolean[][]]. *)
Definition Grid := list (list bool).

(** One [ctx.arc(centerX, centerY, radius, 0, 2 * Math.PI)] that is
    filled. *)
Record Arc := mkArc { centerX : R; centerY : R; radius : R }.

Record Document := mkDocument {
  canvasSize : vec2;
  username : Input;
  password : Input;
  formDisplay : string;
  messageDisplay : string;
  screenSaverDisplay : string;
  h1 : Heading;
  screenSaverSize : vec2;
  transform : option (R * R)
}.

Record State := mkState {
  renderingContext : bool;
  mousePos : vec2;
  lastTouchPos : option vec2;
  touchAngles : Angles;
  isDragging : bool;
  inputTimeout : option Handle;
  submitTimeout : option Handle;
  ledColor : vec3;
  pendingAnimationFrame : option Handle;
  inactivityTimer : option Handle;
  screensaverActive : bool;
  gameOfLifeTimeout : option Handle;
  gameOfLifeInterval : option Handle;
  gameGrid : Grid;
  document : Document;
  timers : list Timer;
  frames : list Handle;
  nextTimer : Handle;
  nextFrame : Handle;
  frame : option Uniforms;
  arcs : list Arc
}.

(** Assignment to one variable (or one property of the document). *)
Definition set_renderingContext (v : bool) (s : State) : State :=
  mkState v (mousePos s) (lastTouchPos s) (touchAngles s) (isDragging s)
  (inputTimeout s) (submitTimeout s) (ledColor s) (pendingAnimationFrame s)
  (inactivityTimer s) (screensaverActive s) (gameOfLifeTimeout s)
  (gameOfLifeInterval s) (gameGrid s) (document s) (timers s) (frames s)
  (nextTimer s) (nextFrame s) (frame s) (arcs s).
Definition set_mousePos (v : vec2) (s : State) : State :=
  mkState (renderingContext s) v (lastTouchPos s) (touchAngles s)
  (isDragging s) (inputTimeout s) (submitTimeout s) (ledColor s)
  (pendingAnimationFrame s) (inactivityTimer s) (screensaverActive s)
  (gameOfLifeTimeout s) (gameOfLifeInterval s) (gameGrid s) (document s)
  (timers s) (frames s) (nextTimer s) (nextFrame s) (frame s) (arcs s).
Definition set_lastTouchPos (v : option vec2) (s : State) : State :=
  mkState (renderingContext s) (mousePos s) v (touchAngles s) (isDragging s)
  (inputTimeout s) (submitTimeout s) (ledColor s) (pendingAnimationFrame s)
  (inactivityTimer s) (screensaverActive s) (gameOfLifeTimeout s)
  (gameOfLifeInterval s) (gameGrid s) (document s) (timers s) (frames s)
  (nextTimer s) (nextFrame s) (frame s) (arcs s).
Definition set_touchAngles (v : Angles) (s : State) : State :=
  mkState (renderingContext s) (mousePos s) (lastTouchPos s) v (isDragging s)
  (inputTimeout s) (submitTimeout s) (ledColor s) (pendingAnimationFrame s)
  (inactivityTimer s) (screensaverActive s) (gameOfLifeTimeout s)
  (gameOfLifeInterval s) (gameGrid s) (document s) (timers s) (frames s)
  (nextTimer s) (nextFrame s) (frame s) (arcs s).
Definition set_isDragging (v : bool) (s : State) : State :=
  mkState (renderingContext s) (mousePos s) (lastTouchPos s) (touchAngles s)
  v (inputTimeout s) (submitTimeout s) (ledColor s) (pendingAnimationFrame s)
  (inactivityTimer s) (screensaverActive s) (gameOfLifeTimeout s)
  (gameOfLifeInterval s) (gameGrid s) (document s) (timers s) (frames s)
  (nextTimer s) (nextFrame s) (frame s) (arcs s).
Definition set_inputTimeout (v : option Handle) (s : State) : State :=
  mkState (renderingContext s) (mousePos s) (lastTouchPos s) (touchAngles s)
  (isDragging s) v (submitTimeout s) (ledColor s) (pendingAnimationFrame s)
  (inactivityTimer s) (screensaverActive s) (gameOfLifeTimeout s)
  (gameOfLifeInterval s) (gameGrid s) (document s) (timers s) (frames s)
  (nextTimer s) (nextFrame s) (frame s) (arcs s).
Definition set_submitTimeout (v : option Handle) (s : State) : State :=
  mkState (renderingContext s) (mousePos s) (lastTouchPos s) (touchAngles s)
  (isDragging s) (inputTimeout s) v (ledColor s) (pendingAnimationFrame s)
  (inactivityTimer s) (screensaverActive s) (gameOfLifeTimeout s)
  (gameOfLifeInterval s) (gameGrid s) (document s) (timers s) (frames s)
  (nextTimer s) (nextFrame s) (frame s) (arcs s).
Definition set_ledColor (v : vec3) (s : State) : State :=
  mkState (renderingContext s) (mousePos s) (lastTouchPos s) (touchAngles s)
  (isDragging s) (inputTimeout s) (submitTimeout s) v
  (pendingAnimationFrame s) (inactivityTimer s) (screensaverActive s)
  (gameOfLifeTimeout s) (gameOfLifeInterval s) (gameGrid s) (document s)
  (timers s) (frames s) (nextTimer s) (nextFrame s) (frame s) (arcs s).
Definition set_pendingAnimationFrame (v : option Handle) (s : State) : State :=
  mkState (renderingContext s) (mousePos s) (lastTouchPos s) (touchAngles s)
  (isDragging s) (inputTimeout s) (submitTimeout s) (ledColor s) v
  (inactivityTimer s) (screensaverActive s) (gameOfLifeTimeout s)
  (gameOfLifeInterval s) (gameGrid s) (document s) (timers s) (frames s)
  (nextTimer s) (nextFrame s) (frame s) (arcs s).
Definition set_inactivityTimer (v : option Handle) (s : State) : State :=
  mkState (renderingContext s) (mousePos s) (lastTouchPos s) (touchAngles s)
  (isDragging s) (inputTimeout s) (submitTimeout s) (ledColor s)
  (pendingAnimationFrame s) v (screensaverActive s) (gameOfLifeTimeout s)
  (gameOfLifeInterval s) (gameGrid s) (document s) (timers s) (frames s)
  (nextTimer s) (nextFrame s) (frame s) (arcs s).
Definition set_screensaverActive (v : bool) (s : State) : State :=
  mkState (renderingContext s) (mousePos s) (lastTouchPos s) (touchAngles s)
  (isDragging s) (inputTimeout s) (submitTimeout s) (ledColor s)
  (pendingAnimationFrame s) (inactivityTimer s) v (gameOfLifeTimeout s)
  (gameOfLifeInterval s) (gameGrid s) (document s) (timers s) (frames s)
  (nextTimer s) (nextFrame s) (frame s) (arcs s).
Definition set_gameOfLifeTimeout (v : option Handle) (s : State) : State :=
  mkState (renderingContext s) (mousePos s) (lastTouchPos s) (touchAngles s)
  (isDragging s) (inputTimeout s) (submitTimeout s) (ledColor s)
  (pendingAnimationFrame s) (inactivityTimer s) (screensaverActive s) v
  (gameOfLifeInterval s) (gameGrid s) (document s) (timers s) (frames s)
  (nextTimer s) (nextFrame s) (frame s) (arcs s).
Definition set_gameOfLifeInterval (v : option Handle) (s : State) : State :=
  mkState (renderingContext s) (mousePos s) (lastTouchPos s) (touchAngles s)
  (isDragging s) (inputTimeout s) (submitTimeout s) (ledColor s)
  (pendingAnimationFrame s) (inactivityTimer s) (screensaverActive s)
  (gameOfLifeTimeout s) v (gameGrid s) (document s) (timers s) (frames s)
  (nextTimer s) (nextFrame s) (frame s) (arcs s).
Definition set_gameGrid (v : Grid) (s : State) : State :=
  mkState (renderingContext s) (mousePos s) (lastTouchPos s) (touchAngles s)
  (isDragging s) (inputTimeout s) (submitTimeout s) (ledColor s)
  (pendingAnimationFrame s) (inactivityTimer s) (screensaverActive s)
  (gameOfLifeTimeout s) (gameOfLifeInterval s) v (document s) (timers s)
  (frames s) (nextTimer s) (nextFrame s) (frame s) (arcs s).
Definition set_document (v : Document) (s : State) : State :=
  mkState (renderingContext s) (mousePos s) (lastTouchPos s) (touchAngles s)
  (isDragging s) (inputTimeout s) (submitTimeout s) (ledColor s)
  (pendingAnimationFrame s) (inactivityTimer s) (screensaverActive s)
  (gameOfLifeTimeout s) (gameOfLifeInterval s) (gameGrid s) v (timers s)
  (frames s) (nextTimer s) (nextFrame s) (frame s) (arcs s).
Definition set_timers (v : list Timer) (s : State) : State :=
  mkState (renderingContext s) (mousePos s) (lastTouchPos s) (touchAngles s)
  (isDragging s) (inputTimeout s) (submitTimeout s) (ledColor s)
  (pendingAnimationFrame s) (inactivityTimer s) (screensaverActive s)
  (gameOfLifeTimeout s) (gameOfLifeInterval s) (gameGrid s) (document s) v
  (frames s) (nextTimer s) (nextFrame s) (frame s) (arcs s).
Definition set_frames (v : list Handle) (s : State) : State :=
  mkState (renderingContext s) (mousePos s) (lastTouchPos s) (touchAngles s)
  (isDragging s) (inputTimeout s) (submitTimeout s) (ledColor s)
  (pendingAnimationFrame s) (inactivityTimer s) (screensaverActive s)
  (gameOfLifeTimeout s) (gameOfLifeInterval s) (gameGrid s) (document s)
  (timers s) v (nextTimer s) (nextFrame s) (frame s) (arcs s).
Definition set_nextTimer (v : Handle) (s : State) : State :=
  mkState (renderingContext s) (mousePos s) (lastTouchPos s) (touchAngles s)
  (isDragging s) (inputTimeout s) (submitTimeout s) (ledColor s)
  (pendingAnimationFrame s) (inactivityTimer s) (screensaverActive s)
  (gameOfLifeTimeout s) (gameOfLifeInterval s) (gameGrid s) (document s)
  (timers s) (frames s) v (nextFrame s) (frame s) (arcs s).
Definition set_nextFrame (v : Handle) (s : State) : State :=
  mkState (renderingContext s) (mousePos s) (lastTouchPos s) (touchAngles s)
  (isDragging s) (inputTimeout s) (submitTimeout s) (ledColor s)
  (pendingAnimationFrame s) (inactivityTimer s) (screensaverActive s)
  (gameOfLifeTimeout s) (gameOfLifeInterval s) (gameGrid s) (document s)
  (timers s) (frames s) (nextTimer s) v (frame s) (arcs s).
Definition set_frame (v : option Uniforms) (s : State) : State :=
  mkState (renderingContext s) (mousePos s) (lastTouchPos s) (touchAngles s)
  (isDragging s) (inputTimeout s) (submitTimeout s) (ledColor s)
  (pendingAnimationFrame s) (inactivityTimer s) (screensaverActive s)
  (gameOfLifeTimeout s) (gameOfLifeInterval s) (gameGrid s) (document s)
  (timers s) (frames s) (nextTimer s) (nextFrame s) v (arcs s).
Definition set_arcs (v : list Arc) (s : State) : State :=
  mkState (renderingContext s) (mousePos s) (lastTouchPos s) (touchAngles s)
  (isDragging s) (inputTimeout s) (submitTimeout s) (ledColor s)
  (pendingAnimationFrame s) (inactivityTimer s) (screensaverActive s)
  (gameOfLifeTimeout s) (gameOfLifeInterval s) (gameGrid s) (document s)
  (timers s) (frames s) (nextTimer s) (nextFrame s) (frame s) v.

Definition with_canvasSize (v : vec2) (d : Document) : Document :=
  mkDocument v (username d) (password d) (formDisplay d) (messageDisplay d)
  (screenSaverDisplay d) (h1 d) (screenSaverSize d) (transform d).
Definition with_username (v : Input) (d : Document) : Document :=
  mkDocument (canvasSize d) v (password d) (formDisplay d) (messageDisplay d)
  (screenSaverDisplay d) (h1 d) (screenSaverSize d) (transform d).
Definition with_password (v : Input) (d : Document) : Document :=
  mkDocument (canvasSize d) (username d) v (formDisplay d) (messageDisplay d)
  (screenSaverDisplay d) (h1 d) (screenSaverSize d) (transform d).
Definition with_formDisplay (v : string) (d : Document) : Document :=
  mkDocument (canvasSize d) (username d) (password d) v (messageDisplay d)
  (screenSaverDisplay d) (h1 d) (screenSaverSize d) (transform d).
Definition with_messageDisplay (v : string) (d : Document) : Document :=
  mkDocument (canvasSize d) (username d) (password d) (formDisplay d) v
  (screenSaverDisplay d) (h1 d) (screenSaverSize d) (transform d).
Definition with_screenSaverDisplay (v : string) (d : Document) : Document :=
  mkDocument (canvasSize d) (username d) (password d) (formDisplay d)
  (messageDisplay d) v (h1 d) (screenSaverSize d) (transform d).
Definition with_h1 (v : Heading) (d : Document) : Document :=
  mkDocument (canvasSize d) (username d) (password d) (formDisplay d)
  (messageDisplay d) (screenSaverDisplay d) v (screenSaverSize d)
  (transform d).
Definition with_screenSaverSize (v : vec2) (d : Document) : Document :=
  mkDocument (canvasSize d) (username d) (password d) (formDisplay d)
  (messageDisplay d) (screenSaverDisplay d) (h1 d) v (transform d).
Definition with_transform (v : option (R * R)) (d : Document) : Document :=
  mkDocument (canvasSize d) (username d) (password d) (formDisplay d)
  (messageDisplay d) (screenSaverDisplay d) (h1 d) (screenSaverSize d) v.

Definition set_canvasSize (v : vec2) (s : State) : State :=
  set_document (with_canvasSize v (document s)) s.
Definition set_username (v : Input) (s : State) : State :=
  set_document (with_username v (document s)) s.
Definition set_password (v : Input) (s : State) : State :=
  set_document (with_password v (document s)) s.
Definition set_formDisplay (v : string) (s : State) : State :=
  set_document (with_formDisplay v (document s)) s.
Definition set_messageDisplay (v : string) (s : State) : State :=
  set_document (with_messageDisplay v (document s)) s.
Definition set_screenSaverDisplay (v : string) (s : State) : State :=
  set_document (with_screenSaverDisplay v (document s)) s.
Definition set_h1 (v : Heading) (s : State) : State :=
  set_document (with_h1 v (document s)) s.
Definition set_screenSaverSize (v : vec2) (s : State) : State :=
  set_document (with_screenSaverSize v (document s)) s.
Definition set_transform (v : option (R * R)) (s : State) : State :=
  set_document (with_transform v (document s)) s.
(** ** Outcomes of a listener *)

Inductive Exception :=
| TypeError                        (* a property of [undefined] was read *)
| ErrorObject (message : string).  (* [throw new Error(message)] *)

Inductive Outcome :=
| Done (s : State)
| Throw (e : Exception) (s : State).

Definition state_of (o : Outcome) : State :=
  match o with Done s => s | Throw _ s => s end.

(** ** Values and tests of JavaScript *)

(** [if (h)] on a [number | null]: [null] and [0] are falsy. *)
Definition truthy (h : option Handle) : bool :=
  match h with
  | Some (S _) => true
  | _ => false
  end.

(** [a[i]]: [None] is [undefined]. *)
Definition at_ {A : Type} (a : list A) (i : Z) : option A :=
  if (i <? 0)%Z then None else nth_error a (Z.to_nat i).

(** [if (v)] on a [boolean | undefined]. *)
Definition holds (v : option bool) : bool :=
  match v with
  | Some true => true
  | _ => false
  end.

(** The values of [i] in [for (let i = lo; i < lo + n; i++)]. *)
Definition range (lo : Z) (n : nat) : list Z :=
  map (fun k => (lo + Z.of_nat k)%Z) (seq 0 n).

(** [row[y] = v] on an array of booleans; a hole that the assignment
    leaves below [y] reads as [undefined], which is falsy. *)
Definition assign (row : list bool) (y : Z) (v : bool) : list bool :=
  if (y <? 0)%Z then row
  else firstn (Z.to_nat y) row
       ++ repeat false (Z.to_nat y - List.length row)
       ++ v :: skipn (S (Z.to_nat y)) row.

(** ** Timers and animation frames *)

Definition setTimer (cb : Callback) (ms : R) (again : bool) (s : State)
  : Handle * State :=
  (nextTimer s,
   set_nextTimer (S (nextTimer s))
     (set_timers (mkTimer (nextTimer s) cb ms again :: timers s) s)).

Definition setTimeout (cb : Callback) (ms : R) (s : State)
  : Handle * State := setTimer cb ms false s.

Definition setInterval (cb : Callback) (ms : R) (s : State)
  : Handle * State := setTimer cb ms true s.

(** [clearTimeout] and [clearInterval] share one table. *)
Definition clearTimeout (h : Handle) (s : State) : State :=
  set_timers (filter (fun t => negb (Nat.eqb (handle t) h)) (timers s)) s.

Definition clearInterval (h : Handle) (s : State) : State :=
  clearTimeout h s.

Definition requestAnimationFrame (s : State) : Handle * State :=
  (nextFrame s,
   set_nextFrame (S (nextFrame s)) (set_frames (nextFrame s :: frames s) s)).

Definition cancelAnimationFrame (h : Handle) (s : State) : State :=
  set_frames (filter (fun f => negb (Nat.eqb f h)) (frames s)) s.

(** ** Constants *)

Definition LED_OFF : vec3 := mkvec3 0.0 0.0 0.0.
Definition LED_RED : vec3 := mkvec3 1.0 0.0 0.0.
Definition LED_GREEN : vec3 := mkvec3 0.0 1.0 0.0.

Definition GRID_SIZE : Z := 50.

(** ** Rendering *)

Definition scheduleRender (s : State) : State :=
  let s :=
    match pendingAnimationFrame s with
    | Some h => if truthy (Some h) then cancelAnimationFrame h s else s
    | None => s
    end in
  let (h, s) := requestAnimationFrame s in
  set_pendingAnimationFrame (Some h) s.

(** The angles [render] uploads: from the accumulated touch angles while a
    drag is in progress or has left a rotation, from the mouse position
    otherwise. *)
Definition renderAngles (s : State) : R * R :=
  if isDragging s
     || (match lastTouchPos s with None => true | Some _ => false end
         && (negb (GLSL.eqb (pitch (touchAngles s)) 0)
             || negb (GLSL.eqb (yaw (touchAngles s)) 0)))
  then
    (Rmax (- PI / 8) (Rmin (PI / 8) (- pitch (touchAngles s) * 0.25)),
     Rmax (- PI / 2) (Rmin (PI / 2) (yaw (touchAngles s) * 0.25)))
  else
    let normalizedMouse :=
      mkvec2 ((x2 (mousePos s) - 0.5) * 2.0) ((y2 (mousePos s) - 0.5) * 2.0) in
    (Rmax (- PI / 8) (Rmin (PI / 8) (y2 normalizedMouse * 0.25)),
     Rmax (- PI / 8) (Rmin (PI / 8) (- x2 normalizedMouse * 0.25))).

Definition render (s : State) : State :=
  if negb (renderingContext s) then s
  else
    let (pitchAngle, yawAngle) := renderAngles s in
    let s := set_transform (Some (pitchAngle / 12, - yawAngle / 12)) s in
    let s :=
      set_frame
        (Some (mkUniforms (canvasSize (document s)) pitchAngle yawAngle
                 (ledColor s))) s in
    set_pendingAnimationFrame None s.

Definition resizeCanvas (d : Display) (s : State) : State :=
  let displayWidth := clientWidth d in
  let displayHeight := clientHeight d in
  let pixelRatio := devicePixelRatio d in
  let renderWidth := IZR (Zfloor (displayWidth * pixelRatio)) in
  let renderHeight := IZR (Zfloor (displayHeight * pixelRatio)) in
  let s :=
    if negb (GLSL.eqb (x2 (canvasSize (document s))) renderWidth)
       || negb (GLSL.eqb (y2 (canvasSize (document s))) renderHeight)
    then set_canvasSize (mkvec2 renderWidth renderHeight) s
    else s in
  scheduleRender s.

(** ** Pointer input *)

Definition outside (rect : Rect) (p : Touch) : bool :=
  ltb (clientX p) (rect_left rect) || ltb (rect_right rect) (clientX p)
  || ltb (clientY p) (rect_top rect) || ltb (rect_bottom rect) (clientY p).

Definition onMouseMove (rect : Rect) (event : Touch) (s : State) : State :=
  if outside rect event then s
  else
    let s :=
      set_mousePos
        (mkvec2 ((clientX event - rect_left rect) / rect_width rect)
           (y2 (mousePos s))) s in
    let s :=
      set_mousePos
        (mkvec2 (x2 (mousePos s))
           (1.0 - (clientY event - rect_top rect) / rect_height rect)) s in
    scheduleRender s.

Definition onTouchStart (rect : Rect) (touches : list Touch) (s : State)
  : State :=
  match at_ touches 0 with
  | None => s
  | Some touch =>
      if outside rect touch then s
      else
        let s := set_isDragging true s in
        set_lastTouchPos (Some (mkvec2 (clientX touch) (clientY touch))) s
  end.

Definition onTouchMove (touches : list Touch) (s : State) : State :=
  match lastTouchPos s with
  | None => s
  | Some last =>
      if negb (isDragging s) then s
      else
        match at_ touches 0 with
        | None => s
        | Some touch =>
            let deltaX := clientX touch - x2 last in
            let deltaY := clientY touch - y2 last in
            let sensitivity := 0.005 in
            let s :=
              set_touchAngles
                (mkAngles (pitch (touchAngles s))
                   (yaw (touchAngles s) - deltaX * sensitivity)) s in
            let s :=
              set_touchAngles
                (mkAngles (pitch (touchAngles s) + deltaY * sensitivity)
                   (yaw (touchAngles s))) s in
            let s :=
              set_touchAngles
                (mkAngles
                   (Rmax (- PI / 4) (Rmin (PI / 4) (pitch (touchAngles s))))
                   (yaw (touchAngles s))) s in
            let s :=
              set_touchAngles
                (mkAngles (pitch (touchAngles s))
                   (Rmax (- PI / 4) (Rmin (PI / 4) (yaw (touchAngles s)))))
                s in
            let s :=
              set_lastTouchPos
                (Some (mkvec2 (clientX touch) (clientY touch))) s in
            scheduleRender s
        end
  end.

Definition onTouchEnd (s : State) : State :=
  let s := set_isDragging false s in
  set_lastTouchPos None s.

(** ** The form *)

Definition onInputChange (s : State) : State :=
  let s :=
    match inputTimeout s with
    | Some h => if truthy (Some h) then clearTimeout h s else s
    | None => s
    end in
  let s := set_ledColor LED_GREEN s in
  let s := scheduleRender s in
  let (h, s) := setTimeout InputLedOff 100 s in
  set_inputTimeout (Some h) s.

(** The closure passed to [setTimeout] by [onInputChange]. *)
Definition inputLedOff (s : State) : State :=
  let s := set_ledColor LED_OFF s in
  scheduleRender s.

Definition validateForm (s : State) : bool * State :=
  let valid := true in
  let (valid, s) :=
    if String.eqb (value (username (document s))) ""
    then (false,
          set_username
            (mkInput (value (username (document s)))
               (classList_add "invalid" (classList (username (document s)))))
            s)
    else (valid,
          set_username
            (mkInput (value (username (document s)))
               (classList_remove "invalid"
                  (classList (username (document s))))) s) in
  let (valid, s) :=
    if String.eqb (value (password (document s))) ""
    then (false,
          set_password
            (mkInput (value (password (document s)))
               (classList_add "invalid" (classList (password (document s)))))
            s)
    else (valid,
          set_password
            (mkInput (value (password (document s)))
               (classList_remove "invalid"
                  (classList (password (document s))))) s) in
  (valid, s).

Definition showLayer (layer : string) (s : State) : State :=
  let s :=
    set_formDisplay (if String.eqb layer "form" then "flex" else "none") s in
  let s :=
    set_messageDisplay
      (if String.eqb layer "message" then "block" else "none") s in
  set_screenSaverDisplay
    (if String.eqb layer "screen-saver" then "block" else "none") s.

(** ** The screensaver *)

Definition resetInactivityTimer (s : State) : State :=
  let s :=
    match inactivityTimer s with
    | Some h => if truthy (Some h) then clearTimeout h s else s
    | None => s
    end in
  if screensaverActive s then s
  else
    let (h, s) := setTimeout Inactivity 10000 s in
    set_inactivityTimer (Some h) s.

Definition countNeighbors (gameGrid : Grid) (x y : Z) : option Z :=
  fold_left
    (fun count dx =>
       fold_left
         (fun count dy =>
            match count with
            | None => None
            | Some c =>
                if ((dx =? 0) && (dy =? 0))%Z then Some c
                else
                  let nx := Z.rem (x + dx + GRID_SIZE) GRID_SIZE in
                  let ny := Z.rem (y + dy + GRID_SIZE) GRID_SIZE in
                  match at_ gameGrid nx with
                  | None => None
                  | Some row =>
                      if holds (at_ row ny) then Some (c + 1)%Z else Some c
                  end
            end)
         (range (-1) 3) count)
    (range (-1) 3) (Some 0%Z).

(** [newGrid[x][y] = v]. *)
Definition setCell (newGrid : Grid) (x y : Z) (v : bool) : option Grid :=
  match at_ newGrid x with
  | None => None
  | Some row =>
      Some (firstn (Z.to_nat x) newGrid
            ++ assign row y v :: skipn (S (Z.to_nat x)) newGrid)
  end.

(** The grid that [updateGameOfLife] assigns to [gameGrid]; [None] when an
    access throws a [TypeError], in which case [gameGrid] keeps its
    value. *)
Definition updateGameOfLife (gameGrid : Grid) : option Grid :=
  let newGrid :=
    map (fun _ => repeat false (Z.to_nat GRID_SIZE))
      (repeat tt (Z.to_nat GRID_SIZE)) in
  fold_left
    (fun acc x =>
       fold_left
         (fun acc y =>
            match acc with
            | None => None
            | Some newGrid =>
                match countNeighbors gameGrid x y with
                | None => None
                | Some neighbors =>
                    match at_ gameGrid x with
                    | None => None
                    | Some row =>
                        let alive := holds (at_ row y) in
                        if alive && ((neighbors =? 2) || (neighbors =? 3))%Z
                        then setCell newGrid x y true
                        else if negb alive && (neighbors =? 3)%Z
                        then setCell newGrid x y true
                        else Some newGrid
                    end
                end
            end)
         (range 0 (Z.to_nat GRID_SIZE)) acc)
    (range 0 (Z.to_nat GRID_SIZE)) (Some newGrid).

(** The circles [renderGameOfLife] fills, in drawing order, and whether a
    [TypeError] interrupted the loops. *)
Definition drawCells (gameGrid : Grid) (cellWidth cellHeight radius : R)
  : list Arc * bool :=
  fold_left
    (fun acc x =>
       fold_left
         (fun acc y =>
            match acc with
            | (drawn, false) => (drawn, false)
            | (drawn, true) =>
                match at_ gameGrid x with
                | None => (drawn, false)
                | Some row =>
                    if holds (at_ row y)
                    then
                      let centerX := (IZR x + 0.5) * cellWidth in
                      let centerY := (IZR y + 0.5) * cellHeight in
                      (drawn ++ [mkArc centerX centerY radius], true)
                    else (drawn, true)
                end
            end)
         (range 0 (Z.to_nat GRID_SIZE)) acc)
    (range 0 (Z.to_nat GRID_SIZE)) ([], true).

Definition renderGameOfLife (s : State) : Outcome :=
  if negb (screensaverActive s) then Done s
  else
    let s := set_arcs [] s in
    let cellWidth := x2 (screenSaverSize (document s)) / IZR GRID_SIZE in
    let cellHeight := y2 (screenSaverSize (document s)) / IZR GRID_SIZE in
    let radius := Rmin cellWidth cellHeight * 0.4 in
    let (drawn, ok) := drawCells (gameGrid s) cellWidth cellHeight radius in
    let s := set_arcs drawn s in
    if ok then Done s else Throw TypeError s.

(** Row [x], column [y] takes the result of call number [50 x + y] of
    [Math.random]. *)
Definition resetGameGrid (random : nat -> R) (s : State) : State :=
  set_gameGrid
    (map
       (fun x =>
          map (fun y => ltb (random (x * Z.to_nat GRID_SIZE + y)%nat) 0.3)
            (seq 0 (Z.to_nat GRID_SIZE)))
       (seq 0 (Z.to_nat GRID_SIZE))) s.

(** [animate], the closure of [startGameOfLife]; the context it captured is
    not null. *)
Definition animate (s : State) : Outcome :=
  if negb (screensaverActive s) then Done s
  else
    match updateGameOfLife (gameGrid s) with
    | None => Throw TypeError s
    | Some newGrid =>
        let s := set_gameGrid newGrid s in
        match renderGameOfLife s with
        | Throw e s => Throw e s
        | Done s =>
            let (h, s) := setTimeout Animate 250 s in
            Done (set_gameOfLifeTimeout (Some h) s)
        end
    end.

Definition startGameOfLife (w : Screen) (s : State) : Outcome :=
  if negb (screensaverActive s) then Done s
  else if negb (context w)
  then Throw (ErrorObject "Failed to get screensaver canvas context") s
  else
    let s := resetGameGrid (random w) s in
    let rect := screenRect w in
    let s :=
      set_screenSaverSize
        (mkvec2 (rect_width rect * pixelRatio w)
           (y2 (screenSaverSize (document s)))) s in
    let s :=
      set_screenSaverSize
        (mkvec2 (x2 (screenSaverSize (document s)))
           (rect_height rect * pixelRatio w)) s in
    match animate s with
    | Throw e s => Throw e s
    | Done s =>
        let (h, s) := setInterval ResetGrid 30000 s in
        Done (set_gameOfLifeInterval (Some h) s)
    end.

Definition showScreensaver (w : Screen) (s : State) : Outcome :=
  let s := set_screensaverActive true s in
  let s := showLayer "screen-saver" s in
  let s :=
    match inactivityTimer s with
    | Some h =>
        if truthy (Some h)
        then set_inactivityTimer None (clearTimeout h s)
        else s
    | None => s
    end in
  startGameOfLife w s.

Definition hideScreensaver (s : State) : State :=
  let s := set_screensaverActive false s in
  let s := showLayer "form" s in
  let s :=
    match gameOfLifeTimeout s with
    | Some h =>
        if truthy (Some h)
        then set_gameOfLifeTimeout None (clearTimeout h s)
        else s
    | None => s
    end in
  let s :=
    match gameOfLifeInterval s with
    | Some h =>
        if truthy (Some h)
        then set_gameOfLifeInterval None (clearInterval h s)
        else s
    | None => s
    end in
  resetInactivityTimer s.

(** ** Submitting the form *)

Definition onSubmit (s : State) : State :=
  let s := resetInactivityTimer s in
  let s :=
    match submitTimeout s with
    | Some h => if truthy (Some h) then clearTimeout h s else s
    | None => s
    end in
  let (valid, s) := validateForm s in
  let s := set_ledColor (if valid then LED_GREEN else LED_RED) s in
  let s := scheduleRender s in
  let s := showLayer "message" s in
  let s :=
    set_h1
      (mkHeading (if valid then "Access Granted" else "Access Denied")
         (headingClassList (h1 (document s)))) s in
  let s :=
    set_h1
      (mkHeading (textContent (h1 (document s)))
         (classList_toggle "invalid" (negb valid)
            (headingClassList (h1 (document s))))) s in
  let (h, s) := setTimeout SubmitDone 3000 s in
  set_submitTimeout (Some h) s.

(** The closure passed to [setTimeout] by the submit listener. *)
Definition submitDone (s : State) : State :=
  let s := set_ledColor LED_OFF s in
  let s := scheduleRender s in
  let s := showLayer "form" s in
  let s := resetInactivityTimer s in
  set_submitTimeout None s.

(** ** Events *)

Inductive Event :=
| GLReady (d : Display)        (* [initGL()] resolved *)
| MouseMove (rect : Rect) (event : Touch)
| TouchStart (rect : Rect) (touches : list Touch)
| TouchMove (touches : list Touch)
| TouchEnd
| CanvasResize (d : Display)
| InputUsername (text : string)
| InputPassword (text : string)
| KeyDown
| Click
| Submit
| TimerFires (h : Handle) (w : Screen)
| AnimationFrame (h : Handle).

(** A timer that fires: a timeout leaves the table, an interval stays. *)
Definition fire (h : Handle) (w : Screen) (s : State) : Outcome :=
  match find (fun t => Nat.eqb (handle t) h) (timers s) with
  | None => Done s
  | Some t =>
      let s := if repeats t then s else clearTimeout h s in
      match callback t with
      | InputLedOff => Done (inputLedOff s)
      | SubmitDone => Done (submitDone s)
      | Inactivity => showScreensaver w s
      | Animate => animate s
      | ResetGrid => Done (resetGameGrid (random w) s)
      end
  end.

(** The listeners of an event run in the order of their registration. *)
Definition dispatch (e : Event) (s : State) : Outcome :=
  match e with
  | GLReady d =>
      let s := set_renderingContext true s in
      let s := resizeCanvas d s in
      let s := scheduleRender s in
      Done (resetInactivityTimer s)
  | MouseMove rect event => Done (onMouseMove rect event s)
  | TouchStart rect touches =>
      Done (resetInactivityTimer (onTouchStart rect touches s))
  | TouchMove touches => Done (resetInactivityTimer (onTouchMove touches s))
  | TouchEnd => Done (onTouchEnd s)
  | CanvasResize d => Done (scheduleRender (resizeCanvas d s))
  | InputUsername text =>
      Done (onInputChange
              (set_username
                 (mkInput text (classList (username (document s)))) s))
  | InputPassword text =>
      Done (onInputChange
              (set_password
                 (mkInput text (classList (password (document s)))) s))
  | KeyDown => Done (resetInactivityTimer s)
  | Click => Done (hideScreensaver (resetInactivityTimer s))
  | Submit => Done (onSubmit s)
  | TimerFires h w => fire h w s
  | AnimationFrame h =>
      if existsb (Nat.eqb h) (frames s)
      then Done (render (cancelAnimationFrame h s))
      else Done s
  end.

(** The page after loading a document: every variable has the value of
    its declaration, nothing is pending. *)
Definition initial (d : Document) : State :=
  mkState false (mkvec2 0.5 0.5) None (mkAngles 0 0) false None None LED_OFF
    None None false None None [] d [] [] 1%nat 1%nat None [].

Fixpoint run (events : list Event) (s : State) : State :=
  match events with
  | [] => s
  | e :: rest => run rest (state_of (dispatch e s))
  end.

End Host.

(** ** Specification-side terms for the page script *)

Module Life.
Import ListNotations.

(** Whether the cell in row [x], column [y] reads as alive. *)
Definition cell (g : Host.Grid) (x y : Z) : bool :=
  match Host.at_ g x with
  | Some row => Host.holds (Host.at_ row y)
  | None => false
  end.

Definition offsets : list (Z * Z) :=
  [(-1, -1); (-1, 0); (-1, 1); (0, -1); (0, 1); (1, -1); (1, 0); (1, 1)]%Z.

(** The number of living cells among the eight neighbours on the torus. *)
Definition liveNeighbours (g : Host.Grid) (x y : Z) : Z :=
  fold_right
    (fun d n =>
       ((if cell g ((x + fst d) mod Host.GRID_SIZE)
              ((y + snd d) mod Host.GRID_SIZE)
         then 1 else 0) + n)%Z)
    0%Z offsets.

(** Conway's rule. *)
Definition conway (alive : bool) (n : Z) : bool :=
  if alive then (n =? 2)%Z || (n =? 3)%Z else (n =? 3)%Z.

(** A grid of [GRID_SIZE] rows of [GRID_SIZE] cells. *)
Definition square (g : Host.Grid) : Prop :=
  List.length g = Z.to_nat Host.GRID_SIZE /\
  Forall (fun row => List.length row = Z.to_nat Host.GRID_SIZE) g.

(** The state of the new grid when the loops reach row [x], column [y]:
    the cells before that position hold their next value, the others are
    still [false]. *)
Definition filledUpTo (g : Host.Grid) (x y : Z) (ng : Host.Grid) : Prop :=
  square ng /\
  forall x' y',
    (0 <= x' < Host.GRID_SIZE)%Z -> (0 <= y' < Host.GRID_SIZE)%Z ->
    cell ng x' y'
    = ((x' <? x)%Z || ((x' =? x)%Z && (y' <? y)%Z))
      && conway (cell g x' y') (liveNeighbours g x' y').

(** The circle [renderGameOfLife] draws for the cell in row [x], column
    [y]. *)
Definition arcOf (cellWidth cellHeight radius : R) (x y : Z) : Host.Arc :=
  Host.mkArc ((IZR x + 0.5) * cellWidth) ((IZR y + 0.5) * cellHeight) radius.

(** The living cells before row [x], column [y] in the order of the
    loops. *)
Definition livingBefore (g : Host.Grid) (x y x' y' : Z) : Prop :=
  (0 <= x' < Host.GRID_SIZE)%Z /\ (0 <= y' < Host.GRID_SIZE)%Z /\
  (x' < x \/ (x' = x /\ y' < y))%Z /\ cell g x' y' = true.

(** The full grid whose living cells are the listed ones. *)
Definition ofCells (cells : list (Z * Z)) : Host.Grid :=
  map (fun x =>
         map (fun y =>
                existsb (fun c => (fst c =? x)%Z && (snd c =? y)%Z) cells)
             (Host.range 0 (Z.to_nat Host.GRID_SIZE)))
      (Host.range 0 (Z.to_nat Host.GRID_SIZE)).

(** Whether grid [h] is grid [g] moved by [(a, b)] on the torus, checked
    cell by cell. *)
Definition movedBy (g h : Host.Grid) (a b : Z) : bool :=
  forallb
    (fun x =>
       forallb
         (fun y =>
            Bool.eqb (cell h x y)
              (cell g ((x + a) mod Host.GRID_SIZE)
                 ((y + b) mod Host.GRID_SIZE)))
         (Host.range 0 (Z.to_nat Host.GRID_SIZE)))
    (Host.range 0 (Z.to_nat Host.GRID_SIZE)).

End Life.

(** The parts of the state on which the invariants of the page depend. *)
Module View.

(** The pointer state. *)
Definition pview (s : Host.State) :=
  (Host.mousePos s, Host.lastTouchPos s, Host.touchAngles s,
   Host.isDragging s).

(** The animation-frame requests. *)
Definition fview (s : Host.State) :=
  (Host.frames s, Host.pendingAnimationFrame s, Host.nextFrame s).

(** The timers, the variables that hold their handles, and what their
    callbacks depend on. *)
Definition tview (s : Host.State) :=
  (Host.timers s, Host.nextTimer s,
   (Host.inputTimeout s, Host.submitTimeout s, Host.inactivityTimer s,
    Host.gameOfLifeTimeout s, Host.gameOfLifeInterval s),
   Host.screensaverActive s, Host.gameGrid s).

End View.

(** Predicates on the states of the page. *)
Module Page.
Import ListNotations.

(** The three colours the script assigns to [ledColor]. *)
Definition palette (c : vec3) : Prop :=
  c = Host.LED_OFF \/ c = Host.LED_RED \/ c = Host.LED_GREEN.


(** A mouse event is handled while the canvas has a positive size. *)
Definition visibleCanvas (e : Host.Event) : Prop :=
  match e with
  | Host.MouseMove rect _ =>
      0 < Host.rect_width rect /\ 0 < Host.rect_height rect
  | _ => True
  end.

Definition pointerOk (s : Host.State) : Prop :=
  0 <= x2 (Host.mousePos s) <= 1 /\
  0 <= y2 (Host.mousePos s) <= 1 /\
  - PI / 4 <= Host.pitch (Host.touchAngles s) <= PI / 4 /\
  - PI / 4 <= Host.yaw (Host.touchAngles s) <= PI / 4 /\
  (Host.isDragging s = true <-> Host.lastTouchPos s <> None).

(** The angles [render] would upload if nothing were clamped and the test
    of [lastTouchPos] were left out. *)
Definition plainAngles (s : Host.State) : R * R :=
  if Host.isDragging s
     || negb (GLSL.eqb (Host.pitch (Host.touchAngles s)) 0)
     || negb (GLSL.eqb (Host.yaw (Host.touchAngles s)) 0)
  then (- Host.pitch (Host.touchAngles s) * 0.25,
        Host.yaw (Host.touchAngles s) * 0.25)
  else ((y2 (Host.mousePos s) - 0.5) * 2.0 * 0.25,
        - ((x2 (Host.mousePos s) - 0.5) * 2.0) * 0.25).

Definition smallAngles (u : Uniforms) : Prop :=
  - (1 / 4) <= u_pitch_angle u <= 1 / 4 /\
  - (1 / 4) <= u_yaw_angle u <= 1 / 4.

Definition drawnOk (s : Host.State) : Prop :=
  pointerOk s /\ forall u, Host.frame s = Some u -> smallAngles u.

(** At most one animation-frame request is pending, and it is the one
    whose handle [pendingAnimationFrame] holds. *)
Definition framesOk (s : Host.State) : Prop :=
  (Host.frames s = [] \/
   exists h,
     Host.frames s = [h] /\ Host.pendingAnimationFrame s = Some h) /\
  (forall h, Host.pendingAnimationFrame s = Some h -> (1 <= h)%nat) /\
  (1 <= Host.nextFrame s)%nat.

(** The variable that holds the handle of the timers of one kind. *)
Definition handleOf (k : Host.Callback) (s : Host.State)
  : option Host.Handle :=
  match k with
  | Host.InputLedOff => Host.inputTimeout s
  | Host.SubmitDone => Host.submitTimeout s
  | Host.Inactivity => Host.inactivityTimer s
  | Host.Animate => Host.gameOfLifeTimeout s
  | Host.ResetGrid => Host.gameOfLifeInterval s
  end.

(** The pending timers of one kind. *)
Definition pending (k : Host.Callback) (s : Host.State) : list Host.Timer :=
  filter (fun t => Host.Callback_eqb (Host.callback t) k) (Host.timers s).

(** No timer of kind [k] is pending. *)
Definition quiet (k : Host.Callback) (s : Host.State) : Prop :=
  forall t, In t (Host.timers s) -> Host.callback t <> k.

(** Handles are positive and below the next one to be issued; the pending
    timers have distinct handles; a pending timer is the one whose handle
    the variable of its kind holds; only the grid reset repeats; the grid
    is square while an animation step is pending. *)
Definition core (s : Host.State) : Prop :=
  (1 <= Host.nextTimer s)%nat /\
  (forall k h, handleOf k s = Some h -> (1 <= h < Host.nextTimer s)%nat) /\
  NoDup (map Host.handle (Host.timers s)) /\
  (forall t, In t (Host.timers s) ->
     handleOf (Host.callback t) s = Some (Host.handle t)) /\
  (forall t, In t (Host.timers s) ->
     Host.repeats t = true -> Host.callback t = Host.ResetGrid) /\
  (forall t, In t (Host.timers s) ->
     Host.callback t = Host.Animate -> Life.square (Host.gameGrid s)).

(** The inactivity countdown runs only while the screensaver is hidden,
    the animation and the grid reset only while it shows. *)
Definition modeOk (s : Host.State) : Prop :=
  (Host.screensaverActive s = true -> quiet Host.Inactivity s) /\
  (Host.screensaverActive s = false ->
   quiet Host.Animate s /\ quiet Host.ResetGrid s).

Definition timersOk (s : Host.State) : Prop := core s /\ modeOk s.

(** [core], the kinds in [q] quiet, and the screensaver flag equal to
    [b]: what is known between two statements of a listener. *)
Definition settled (q : Host.Callback -> bool) (b : bool) (s : Host.State)
  : Prop :=
  core s /\ (forall k, q k = true -> quiet k s) /\
  Host.screensaverActive s = b.

Definition none : Host.Callback -> bool := fun _ => false.

Definition also (k : Host.Callback) (q : Host.Callback -> bool)
  : Host.Callback -> bool :=
  fun k' => Host.Callback_eqb k' k || q k'.

Definition except (k : Host.Callback) (q : Host.Callback -> bool)
  : Host.Callback -> bool :=
  fun k' => negb (Host.Callback_eqb k' k) && q k'.

(** What [resetInactivityTimer] leaves quiet. *)
Definition afterReset (b : bool) (q : Host.Callback -> bool)
  : Host.Callback -> bool :=
  if b then also Host.Inactivity q
  else except Host.Inactivity (also Host.Inactivity q).

(** The kinds that are quiet in either mode of the screensaver. *)
Definition modeQuiet (b : bool) : Host.Callback -> bool :=
  if b then also Host.Inactivity none
  else also Host.Animate (also Host.ResetGrid none).

(** The field [validateForm] leaves: marked [invalid] when it is empty,
    cleared of the mark otherwise. *)
Definition marked (field : Host.Input) : Host.Input :=
  Host.mkInput (Host.value field)
    (if String.eqb (Host.value field) ""
     then Host.classList_add "invalid" (Host.classList field)
     else Host.classList_remove "invalid" (Host.classList field)).

(** The listener ended normally or with the [Error] it throws itself. *)
Definition noTypeError (o : Host.Outcome) : Prop :=
  match o with
  | Host.Throw Host.TypeError _ => False
  | _ => True
  end.

(** Assignment to the variable of kind [k]. *)
Definition setHandle (k : Host.Callback) (v : option Host.Handle)
  (s : Host.State) : Host.State :=
  match k with
  | Host.InputLedOff => Host.set_inputTimeout v s
  | Host.SubmitDone => Host.set_submitTimeout v s
  | Host.Inactivity => Host.set_inactivityTimer v s
  | Host.Animate => Host.set_gameOfLifeTimeout v s
  | Host.ResetGrid => Host.set_gameOfLifeInterval v s
  end.

(** [if (v) clearTimeout(v)] on the variable of kind [k]. *)
Definition clearVar (k : Host.Callback) (s : Host.State) : Host.State :=
  match handleOf k s with
  | Some h => if Host.truthy (Some h) then Host.clearTimeout h s else s
  | None => s
  end.

(** [if (v) { clearTimeout(v); v = null }]. *)
Definition dropVar (k : Host.Callback) (s : Host.State) : Host.State :=
  match handleOf k s with
  | Some h =>
      if Host.truthy (Some h)
      then setHandle k None (Host.clearTimeout h s)
      else s
  | None => s
  end.

(** [v = setTimeout(k, ms)] (or [setInterval]). *)
Definition arm (k : Host.Callback) (ms : R) (again : bool)
  (s : Host.State) : Host.State :=
  setHandle k (Some (Host.nextTimer s))
    (Host.set_nextTimer (S (Host.nextTimer s))
       (Host.set_timers
          (Host.mkTimer (Host.nextTimer s) k ms again :: Host.timers s) s)).

End Page.

(** Sample documents and event sequences. *)
Module Sample.
Import ListNotations.

Definition page : Host.Document :=
  Host.mkDocument (mkvec2 300 150) (Host.mkInput "" []) (Host.mkInput "" [])
    "flex" "none" "none" (Host.mkHeading "" []) (mkvec2 300 150) None.

Definition display : Host.Display := Host.mkDisplay 300 150 1.

Definition canvasRect : Host.Rect := Host.mkRect 0 0 800 600.

(** A glider lying across the corner of the array, so that its cells and
    their neighbours are found on both sides of both seams; and the same
    glider moved by [(1, 49)] on the torus. *)
Definition glider : Host.Grid :=
  Life.ofCells [(49, 0); (0, 1); (1, 49); (1, 0); (1, 1)]%Z.

Definition movedGlider : Host.Grid :=
  Life.ofCells [(48, 1); (49, 2); (0, 0); (0, 1); (0, 2)]%Z.

(** The screensaver showing the glider. *)
Definition saverGlider : Host.State :=
  Host.set_screensaverActive true
    (Host.set_gameGrid glider (Host.initial page)).

Definition firstFrame : list Host.Event :=
  [Host.GLReady display; Host.AnimationFrame 2%nat].

Definition mouseSession : list Host.Event :=
  [Host.GLReady display;
   Host.MouseMove canvasRect (Host.mkTouch 200 150);
   Host.AnimationFrame 3%nat].

End Sample.

(** * The first page script of [src/main.mjs]

    The first script of the file carries the embedded shader.  It draws
    synchronously (every listener ends by calling [render]), reads the
    pointer from mouse and touch alike, and keeps no handle of the timers
    that switch the LED off after an input.  It is embedded with the
    conventions of [Host]. *)

Module HostV1.
Import ListNotations.

Definition Handle := nat.

(** The closures passed to [setTimeout]. *)
Inductive Callback :=
| InputLedOff   (* onInputChange: LED_COLOR = LED_OFF; render() *)
| SubmitDone.   (* the submit listener's timeout *)

Definition Callback_eqb (a b : Callback) : bool :=
  match a, b with
  | InputLedOff, InputLedOff | SubmitDone, SubmitDone => true
  | _, _ => false
  end.

Record Timer := mkTimer {
  handle : Handle;
  callback : Callback;
  delay : R
}.

Record State := mkState {
  mousePos : vec2;
  LED_COLOR : vec3;
  submitTimeout : option Handle;
  canvasSize : vec2;
  timers : list Timer;
  nextTimer : Handle;
  frame : option Uniforms;
  transform : option (R * R)
}.

(** Assignment to one variable. *)
Definition set_mousePos (v : vec2) (s : State) : State :=
  mkState v (LED_COLOR s) (submitTimeout s) (canvasSize s) (timers s)
  (nextTimer s) (frame s) (transform s).
Definition set_LED_COLOR (v : vec3) (s : State) : State :=
  mkState (mousePos s) v (submitTimeout s) (canvasSize s) (timers s)
  (nextTimer s) (frame s) (transform s).
Definition set_submitTimeout (v : option Handle) (s : State) : State :=
  mkState (mousePos s) (LED_COLOR s) v (canvasSize s) (timers s)
  (nextTimer s) (frame s) (transform s).
Definition set_canvasSize (v : vec2) (s : State) : State :=
  mkState (mousePos s) (LED_COLOR s) (submitTimeout s) v (timers s)
  (nextTimer s) (frame s) (transform s).
Definition set_timers (v : list Timer) (s : State) : State :=
  mkState (mousePos s) (LED_COLOR s) (submitTimeout s) (canvasSize s) v
  (nextTimer s) (frame s) (transform s).
Definition set_nextTimer (v : Handle) (s : State) : State :=
  mkState (mousePos s) (LED_COLOR s) (submitTimeout s) (canvasSize s)
  (timers s) v (frame s) (transform s).
Definition set_frame (v : option Uniforms) (s : State) : State :=
  mkState (mousePos s) (LED_COLOR s) (submitTimeout s) (canvasSize s)
  (timers s) (nextTimer s) v (transform s).
Definition set_transform (v : option (R * R)) (s : State) : State :=
  mkState (mousePos s) (LED_COLOR s) (submitTimeout s) (canvasSize s)
  (timers s) (nextTimer s) (frame s) v.

Definition LED_OFF : vec3 := mkvec3 0.0 0.0 0.0.
Definition LED_RED : vec3 := mkvec3 1.0 0.0 0.0.
Definition LED_GREEN : vec3 := mkvec3 0.0 1.0 0.0.
Definition LED_BLUE : vec3 := mkvec3 0.0 0.0 1.0.

Definition setTimeout (cb : Callback) (ms : R) (s : State)
  : Handle * State :=
  (nextTimer s,
   set_nextTimer (S (nextTimer s))
     (set_timers (mkTimer (nextTimer s) cb ms :: timers s) s)).

Definition clearTimeout (h : Handle) (s : State) : State :=
  set_timers (filter (fun t => negb (Nat.eqb (handle t) h)) (timers s)) s.

Definition render (s : State) : State :=
  let normalizedMouse :=
    mkvec2 ((x2 (mousePos s) - 0.5) * 2.0) ((y2 (mousePos s) - 0.5) * 2.0) in
  let pitchAngle := y2 normalizedMouse * 0.25 in
  let yawAngle := - x2 normalizedMouse * 0.25 in
  let s := set_transform (Some (pitchAngle / 12, - yawAngle / 12)) s in
  set_frame
    (Some (mkUniforms (canvasSize s) pitchAngle yawAngle (LED_COLOR s))) s.

Definition onMouseMove (rect : Host.Rect) (event : Host.Touch) (s : State)
  : State :=
  if Host.outside rect event then s
  else
    let s :=
      set_mousePos
        (mkvec2
           ((Host.clientX event - Host.rect_left rect) / Host.rect_width rect)
           (y2 (mousePos s))) s in
    let s :=
      set_mousePos
        (mkvec2 (x2 (mousePos s))
           (1.0
            - (Host.clientY event - Host.rect_top rect)
              / Host.rect_height rect)) s in
    render s.

Definition onTouchMove (rect : Host.Rect) (touches : list Host.Touch)
  (s : State) : State :=
  match Host.at_ touches 0 with
  | None => s
  | Some touch =>
      let s :=
        set_mousePos
          (mkvec2
             ((Host.clientX touch - Host.rect_left rect)
              / Host.rect_width rect)
             (y2 (mousePos s))) s in
      let s :=
        set_mousePos
          (mkvec2 (x2 (mousePos s))
             (1.0
              - (Host.clientY touch - Host.rect_top rect)
                / Host.rect_height rect)) s in
      render s
  end.

Definition resizeCanvas (d : Host.Display) (s : State) : State :=
  let displayWidth := Host.clientWidth d in
  let displayHeight := Host.clientHeight d in
  let pixelRatio := Host.devicePixelRatio d in
  let renderWidth := IZR (Zfloor (displayWidth * pixelRatio)) in
  let renderHeight := IZR (Zfloor (displayHeight * pixelRatio)) in
  let s :=
    if negb (GLSL.eqb (x2 (canvasSize s)) renderWidth)
       || negb (GLSL.eqb (y2 (canvasSize s)) renderHeight)
    then set_canvasSize (mkvec2 renderWidth renderHeight) s
    else s in
  render s.

Definition onInputChange (s : State) : State :=
  let s := set_LED_COLOR LED_GREEN s in
  let s := render s in
  snd (setTimeout InputLedOff 200 s).

(** The closure passed to [setTimeout] by [onInputChange]. *)
Definition inputLedOff (s : State) : State :=
  let s := set_LED_COLOR LED_OFF s in
  render s.

Definition onSubmit (s : State) : State :=
  let s :=
    match submitTimeout s with
    | Some h => if Host.truthy (Some h) then clearTimeout h s else s
    | None => s
    end in
  let s := set_LED_COLOR LED_RED s in
  let s := render s in
  let (h, s) := setTimeout SubmitDone 1000 s in
  set_submitTimeout (Some h) s.

(** The closure passed to [setTimeout] by the submit listener. *)
Definition submitDone (s : State) : State :=
  let s := set_LED_COLOR LED_OFF s in
  let s := render s in
  set_submitTimeout None s.

Inductive Event :=
| Start (d : Host.Display)     (* the first animation frame *)
| MouseMove (rect : Host.Rect) (event : Host.Touch)
| TouchMove (rect : Host.Rect) (touches : list Host.Touch)
| CanvasResize (d : Host.Display)
| Input
| Submit
| TimerFires (h : Handle).

Definition fire (h : Handle) (s : State) : State :=
  match find (fun t => Nat.eqb (handle t) h) (timers s) with
  | None => s
  | Some t =>
      let s := clearTimeout h s in
      match callback t with
      | InputLedOff => inputLedOff s
      | SubmitDone => submitDone s
      end
  end.

Definition dispatch (e : Event) (s : State) : State :=
  match e with
  | Start d => render (resizeCanvas d s)
  | MouseMove rect event => onMouseMove rect event s
  | TouchMove rect touches => onTouchMove rect touches s
  | CanvasResize d => render (resizeCanvas d s)
  | Input => onInputChange s
  | Submit => onSubmit s
  | TimerFires h => fire h s
  end.

(** The page after the script ran: the canvas has the size the document
    gave it. *)
Definition initial (canvas : vec2) : State :=
  mkState (mkvec2 0.5 0.5) LED_OFF None canvas [] 1%nat None None.

Fixpoint run (events : list Event) (s : State) : State :=
  match events with
  | [] => s
  | e :: rest => run rest (dispatch e s)
  end.

(** The uniforms [render] uploads in state [s]. *)
Definition uniformsOf (s : State) : Uniforms :=
  mkUniforms (canvasSize s) ((y2 (mousePos s) - 0.5) * 2.0 * 0.25)
    (- ((x2 (mousePos s) - 0.5) * 2.0) * 0.25) (LED_COLOR s).

(** The last draw call, if any, shows the present state. *)
Definition fresh (s : State) : Prop :=
  frame s = None \/ frame s = Some (uniformsOf s).

(** A pointer event is handled while the canvas has a positive size;
    [mouseOnly] also rules out touch events. *)
Definition visibleCanvas (e : Event) : Prop :=
  match e with
  | MouseMove rect _ | TouchMove rect _ =>
      0 < Host.rect_width rect /\ 0 < Host.rect_height rect
  | _ => True
  end.

Definition mouseOnly (e : Event) : Prop :=
  match e with
  | MouseMove rect _ =>
      0 < Host.rect_width rect /\ 0 < Host.rect_height rect
  | TouchMove _ _ => False
  | _ => True
  end.

Definition palette (c : vec3) : Prop :=
  c = LED_OFF \/ c = LED_RED \/ c = LED_GREEN.

(** The pending timers that switch the LED off after an input. *)
Definition pendingInput (s : State) : list Timer :=
  filter (fun t => Callback_eqb (callback t) InputLedOff) (timers s).

(** Only inputs, no timer fires: [n] keystrokes in a row. *)
Definition typing (n : nat) : list Event := repeat Input n.

End HostV1.

(** * The vertex shader of [src/main.mjs] *)

Module Vertex.

(** [main]: the position is passed on, and [v_uv] maps clip space
    [[-1,1]^2] to [[0,1]^2]. *)
Definition main (a_position : vec4) : vec4 * vec2 :=
  (a_position,
   mkvec2 (x4 a_position * 0.5 + 0.5) (y4 a_position * 0.5 + 0.5)).

End Vertex.

(** Sample runs of the first script. *)
Module SampleV1.
Import ListNotations.

Definition mouseSession : list HostV1.Event :=
  [HostV1.Start Sample.display;
   HostV1.MouseMove Sample.canvasRect (Host.mkTouch 200 150);
   HostV1.Input].

End SampleV1.

(** ** Tactics *)

(** Unfolds the vector operations together with the record projections,
    so that no intermediate vector is duplicated. *)
Ltac vec_eval :=
  cbv [mat3_of mulMM mulMV add3 sub3 mul3 neg3 scale3 addf3 sub2 subf2
       scalef2 abs3 abs2 maxf3 maxf2 dot3 length3 length2 normalize3
       reflect3 mix3 pow3 vec3_splat
       x2 y2 x3 y3 z3 x4 y4 z4 w4 col0 col1 col2].

(** Evaluates [Rabs], [Rmax] and [Rmin] wherever linear arithmetic settles
    the order of their arguments. *)
Ltac eval_order :=
  repeat match goal with
         | |- context [Rabs ?a] =>
             first [ rewrite (Rabs_pos_eq a) by lra
                   | rewrite (Rabs_left1 a) by lra ]
         | |- context [Rmax ?a ?b] =>
             first [ rewrite (Rmax_left a b) by lra
                   | rewrite (Rmax_right a b) by lra ]
         | |- context [Rmin ?a ?b] =>
             first [ rewrite (Rmin_left a b) by lra
                   | rewrite (Rmin_right a b) by lra ]
         end.

(** *** Symbolic execution of the listeners *)

(** Names the state bound by the outermost [let]. *)
Ltac let_step :=
  match goal with
  | |- context C [let x := ?a in @?b x] =>
      let y := fresh "st" in
      pose (y := a);
      let G := context C [b y] in
      change G; cbv beta
  end.

Ltac host_case :=
  match goal with
  | |- context [match ?x with _ => _ end] =>
      lazymatch x with
      | context [match _ with _ => _ end] => fail
      | (_, _) => fail
      | _ => destruct x eqn:?
      end
  end.

Ltac host_prims :=
  cbv delta [Host.setInterval Host.setTimeout Host.setTimer
             Host.requestAnimationFrame Host.clearInterval];
  cbv beta.

Ltac is_setter f :=
  lazymatch f with
  | Host.set_renderingContext => idtac
  | Host.set_mousePos => idtac
  | Host.set_lastTouchPos => idtac
  | Host.set_touchAngles => idtac
  | Host.set_isDragging => idtac
  | Host.set_inputTimeout => idtac
  | Host.set_submitTimeout => idtac
  | Host.set_ledColor => idtac
  | Host.set_pendingAnimationFrame => idtac
  | Host.set_inactivityTimer => idtac
  | Host.set_screensaverActive => idtac
  | Host.set_gameOfLifeTimeout => idtac
  | Host.set_gameOfLifeInterval => idtac
  | Host.set_gameGrid => idtac
  | Host.set_document => idtac
  | Host.set_timers => idtac
  | Host.set_frames => idtac
  | Host.set_nextTimer => idtac
  | Host.set_nextFrame => idtac
  | Host.set_frame => idtac
  | Host.set_arcs => idtac
  | Host.set_canvasSize => idtac
  | Host.set_username => idtac
  | Host.set_password => idtac
  | Host.set_formDisplay => idtac
  | Host.set_messageDisplay => idtac
  | Host.set_screenSaverDisplay => idtac
  | Host.set_h1 => idtac
  | Host.set_screenSaverSize => idtac
  | Host.set_transform => idtac
  | Host.cancelAnimationFrame => idtac
  | Host.clearTimeout => idtac
  end.

(** Turns the equation left by a case distinction on a call into an
    equation between views. *)
Ltac view_of_call V :=
  match goal with
  | E : _ = Host.Done _ |- _ =>
      apply (f_equal (fun o => V (Host.state_of o))) in E;
      cbn [Host.state_of] in E; symmetry in E
  | E : _ = Host.Throw _ _ |- _ =>
      apply (f_equal (fun o => V (Host.state_of o))) in E;
      cbn [Host.state_of] in E; symmetry in E
  | E : _ = (_, _) |- _ =>
      apply (f_equal (fun p => V (snd p))) in E;
      cbn [snd] in E; symmetry in E
  end.

(** Computes the view [V] of the state a function returns; [rw] rewrites
    with the same fact for the functions it calls. *)
Ltac view_solve V rw :=
  host_prims;
  repeat first
    [ match goal with |- ?a = ?a => reflexivity end
    | let_step
    | progress cbv iota beta
    | match goal with
      | |- context [snd (?a, ?b)] => change (snd (a, b)) with b
      | |- context [fst (?a, ?b)] => change (fst (a, b)) with a
      end
    | progress rw
    | match goal with
      | |- context [V (?f ?v ?s)] =>
          is_setter f;
          first [ change (V (f v s)) with (V s) | change (V (f v s)) with v ]
      end
    | match goal with
      | |- context [Host.state_of (Host.Done ?s)] =>
          change (Host.state_of (Host.Done s)) with s
      | |- context [Host.state_of (Host.Throw ?e ?s)] =>
          change (Host.state_of (Host.Throw e s)) with s
      end
    | match goal with
      | E : V ?s = _ |- context [V ?s] => rewrite E
      end
    | match goal with x := _ |- context [V ?y] => constr_eq x y; subst x end
    | match goal with x := _ : bool |- _ => subst x end
    | host_case; try view_of_call V ].

(** Proves [I e] for the state [e] a listener returns, peeling it from the
    outside: an assignment or a call that leaves the view [V] of [I] alone
    is skipped ([Iview], with [rw] rewriting the frame lemmas of the calls);
    [step] handles the calls that change the view. *)
Ltac inv_solve I V Iview rw step :=
  host_prims;
  repeat first
    [ assumption
    | let_step
    | progress cbv iota beta
    | match goal with
      | |- context [snd (?a, ?b)] => change (snd (a, b)) with b
      | |- context [fst (?a, ?b)] => change (fst (a, b)) with a
      end
    | match goal with
      | |- I (Host.state_of (Host.Done ?s)) =>
          change (I s)
      | |- I (Host.state_of (Host.Throw ?e ?s)) =>
          change (I s)
      end
    | match goal with
      | |- I (?f ?v ?s) => is_setter f; apply (Iview (f v s) s eq_refl)
      end
    | match goal with
      | |- I (?g ?x) =>
          apply (Iview (g x) x); [solve [rw; reflexivity] |]
      | |- I (Host.state_of (?g ?x)) =>
          apply (Iview (Host.state_of (g x)) x); [solve [rw; reflexivity] |]
      | |- I (snd (?g ?x)) =>
          apply (Iview (snd (g x)) x); [solve [rw; reflexivity] |]
      end
    | match goal with
      | E : V ?s = V ?e |- I ?s => apply (Iview s e E)
      end
    | step
    | match goal with x := _ |- I ?y => constr_eq x y; subst x end
    | match goal with x := _ : bool |- _ => subst x end
    | host_case; try view_of_call V ].

(** ** Real-number toolkit *)

Lemma sqrt_lower (a b : R) : 0 <= a -> a * a <= b -> a <= sqrt b.
Proof.
  intros Ha Hab.
  rewrite <- (sqrt_square a Ha).
  apply sqrt_le_1_alt; exact Hab.
Qed.

Lemma sqrt_upper (a b : R) : 0 <= a -> b <= a * a -> sqrt b <= a.
Proof.
  intros Ha Hab.
  rewrite <- (sqrt_square a Ha).
  apply sqrt_le_1_alt; exact Hab.
Qed.

Lemma sqrt_of_square (a b : R) : 0 <= a -> b = a * a -> sqrt b = a.
Proof. intros Ha ->. apply sqrt_square; exact Ha. Qed.

Lemma ltb_true (a b : R) : a < b -> ltb a b = true.
Proof. intros H; unfold ltb; destruct (Rlt_dec a b); [reflexivity | lra]. Qed.

Lemma ltb_false (a b : R) : b <= a -> ltb a b = false.
Proof. intros H; unfold ltb; destruct (Rlt_dec a b); [lra | reflexivity]. Qed.

Lemma eqb_true (a b : R) : a = b -> eqb a b = true.
Proof.
  intros H; unfold eqb; destruct (Req_dec_T a b); [reflexivity | contradiction].
Qed.

Lemma eqb_false (a b : R) : a <> b -> eqb a b = false.
Proof.
  intros H; unfold eqb; destruct (Req_dec_T a b); [contradiction | reflexivity].
Qed.

(** ** The cores share [map] and everything below it

    Agreement is proved definition by definition, each step rewriting with
    the agreement of the functions it calls. *)

Lemma MATERIAL_PLASTIC_agree : Embedded.MATERIAL_PLASTIC = Standalone.MATERIAL_PLASTIC.
Proof. reflexivity. Qed.
Lemma MATERIAL_GLASS_agree : Embedded.MATERIAL_GLASS = Standalone.MATERIAL_GLASS.
Proof. reflexivity. Qed.
Lemma MATERIAL_LED_agree : Embedded.MATERIAL_LED = Standalone.MATERIAL_LED.
Proof. reflexivity. Qed.
Lemma PI_agree : Embedded.PI = Standalone.PI.
Proof. reflexivity. Qed.
Lemma sdBox_agree : Embedded.sdBox = Standalone.sdBox.
Proof. reflexivity. Qed.
Lemma sdOctahedron_agree : Embedded.sdOctahedron = Standalone.sdOctahedron.
Proof. reflexivity. Qed.
Lemma sdCappedCylinder_agree :
  Embedded.sdCappedCylinder = Standalone.sdCappedCylinder.
Proof. reflexivity. Qed.
Lemma sdSphere_agree : Embedded.sdSphere = Standalone.sdSphere.
Proof. reflexivity. Qed.
Lemma pitchMatrix_agree : Embedded.pitchMatrix = Standalone.pitchMatrix.
Proof. reflexivity. Qed.
Lemma yawMatrix_agree : Embedded.yawMatrix = Standalone.yawMatrix.
Proof. reflexivity. Qed.
Lemma rollMatrix_agree : Embedded.rollMatrix = Standalone.rollMatrix.
Proof. reflexivity. Qed.

Lemma rotation_agree : Embedded.rotation = Standalone.rotation.
Proof.
  unfold Embedded.rotation, Standalone.rotation.
  rewrite pitchMatrix_agree, yawMatrix_agree, rollMatrix_agree; reflexivity.
Qed.

Lemma rotatedP_agree : Embedded.rotatedP = Standalone.rotatedP.
Proof.
  unfold Embedded.rotatedP, Standalone.rotatedP.
  rewrite rotation_agree; reflexivity.
Qed.

Lemma cube_agree : Embedded.cube = Standalone.cube.
Proof.
  unfold Embedded.cube, Standalone.cube.
  rewrite rotatedP_agree, sdBox_agree; reflexivity.
Qed.

Lemma octahedron_agree : Embedded.octahedron = Standalone.octahedron.
Proof.
  unfold Embedded.octahedron, Standalone.octahedron.
  rewrite rotatedP_agree, rollMatrix_agree, PI_agree, sdOctahedron_agree.
  reflexivity.
Qed.

Lemma cylinder_agree : Embedded.cylinder = Standalone.cylinder.
Proof.
  unfold Embedded.cylinder, Standalone.cylinder,
    Embedded.cylinderPos, Standalone.cylinderPos.
  rewrite rotatedP_agree, sdCappedCylinder_agree; reflexivity.
Qed.

Lemma cubeWithHole_agree : Embedded.cubeWithHole = Standalone.cubeWithHole.
Proof.
  unfold Embedded.cubeWithHole, Standalone.cubeWithHole.
  rewrite cube_agree, octahedron_agree; reflexivity.
Qed.

Lemma ledSphere_agree : Embedded.ledSphere = Standalone.ledSphere.
Proof.
  unfold Embedded.ledSphere, Standalone.ledSphere.
  rewrite rotatedP_agree, sdSphere_agree; reflexivity.
Qed.

Lemma cylinderInCube_agree :
  Embedded.cylinderInCube = Standalone.cylinderInCube.
Proof.
  unfold Embedded.cylinderInCube, Standalone.cylinderInCube.
  rewrite cylinder_agree, cube_agree; reflexivity.
Qed.

Lemma map_agree : Embedded.map = Standalone.map.
Proof.
  unfold Embedded.map, Standalone.map.
  rewrite cubeWithHole_agree, cylinderInCube_agree, ledSphere_agree,
    MATERIAL_PLASTIC_agree, MATERIAL_GLASS_agree, MATERIAL_LED_agree.
  reflexivity.
Qed.

Lemma glassMaterial_agree : Embedded.glassMaterial = Standalone.glassMaterial.
Proof. reflexivity. Qed.
Lemma plasticMaterial_agree :
  Embedded.plasticMaterial = Standalone.plasticMaterial.
Proof. reflexivity. Qed.
Lemma ledMaterial_agree : Embedded.ledMaterial = Standalone.ledMaterial.
Proof. reflexivity. Qed.

Lemma marchLoop_agree : Embedded.marchLoop = Standalone.marchLoop.
Proof.
  unfold Embedded.marchLoop, Standalone.marchLoop.
  rewrite map_agree; reflexivity.
Qed.

Lemma rayMarch_agree : Embedded.rayMarch = Standalone.rayMarch.
Proof.
  unfold Embedded.rayMarch, Standalone.rayMarch.
  rewrite marchLoop_agree; reflexivity.
Qed.

Lemma materialBranch_agree :
  Embedded.materialBranch = Standalone.materialBranch.
Proof. reflexivity. Qed.

(** ** The rotation applied by [map] *)

Lemma rotatedP_components (u : Uniforms) (p : vec3) :
  Standalone.rotatedP u p =
  mkvec3
    (cos (u_yaw_angle u) * x3 p - sin (u_yaw_angle u) * z3 p)
    (cos (u_pitch_angle u) * y3 p
     + sin (u_pitch_angle u)
       * (sin (u_yaw_angle u) * x3 p + cos (u_yaw_angle u) * z3 p))
    (- sin (u_pitch_angle u) * y3 p
     + cos (u_pitch_angle u)
       * (sin (u_yaw_angle u) * x3 p + cos (u_yaw_angle u) * z3 p)).
Proof.
  cbv [Standalone.rotatedP Standalone.rotation Standalone.rollMatrix
       Standalone.pitchMatrix Standalone.yawMatrix].
  vec_eval.
  replace 0.0 with 0 by lra.
  replace 1.0 with 1 by lra.
  rewrite cos_0, sin_0.
  f_equal; ring.
Qed.

Lemma rotatedP_still (u : Uniforms) (p : vec3) :
  u_pitch_angle u = 0 -> u_yaw_angle u = 0 -> Standalone.rotatedP u p = p.
Proof.
  intros Hp Hy.
  rewrite rotatedP_components, Hp, Hy, cos_0, sin_0.
  destruct p as [px py pz]; cbv [x3 y3 z3]; f_equal; ring.
Qed.

(** The rotation is orthonormal: it preserves the squared length. *)
Lemma rotatedP_norm (u : Uniforms) (p : vec3) :
  dot3 (Standalone.rotatedP u p) (Standalone.rotatedP u p) = dot3 p p.
Proof.
  rewrite rotatedP_components.
  destruct p as [px py pz]; vec_eval.
  pose proof (sin2_cos2 (u_pitch_angle u)) as Ha.
  pose proof (sin2_cos2 (u_yaw_angle u)) as Hb.
  unfold Rsqr in Ha, Hb.
  set (ca := cos (u_pitch_angle u)) in *.
  set (sa := sin (u_pitch_angle u)) in *.
  set (cb := cos (u_yaw_angle u)) in *.
  set (sb := sin (u_yaw_angle u)) in *.
  clearbody ca sa cb sb.
  nsatz.
Qed.
(** ** Structure of [map]: the order-dependent selection *)

Lemma map_select (u : Uniforms) (p : vec3) :
  Standalone.map u p =
  let cwh := Standalone.cubeWithHole u p in
  let cyl := Standalone.cylinderInCube u p in
  let led := Standalone.ledSphere u p in
  if ltb cyl cwh
  then if ltb led cyl
       then mkvec2 led Standalone.MATERIAL_LED
       else mkvec2 cyl Standalone.MATERIAL_GLASS
  else if ltb led cwh
       then mkvec2 led Standalone.MATERIAL_LED
       else mkvec2 cwh Standalone.MATERIAL_PLASTIC.
Proof.
  unfold Standalone.map; cbv zeta.
  destruct (ltb (Standalone.cylinderInCube u p) (Standalone.cubeWithHole u p));
    destruct (ltb (Standalone.ledSphere u p) _); reflexivity.
Qed.

Lemma material_ids_distinct :
  Standalone.MATERIAL_PLASTIC <> Standalone.MATERIAL_GLASS /\
  Standalone.MATERIAL_PLASTIC <> Standalone.MATERIAL_LED /\
  Standalone.MATERIAL_GLASS <> Standalone.MATERIAL_LED.
Proof.
  unfold Standalone.MATERIAL_PLASTIC, Standalone.MATERIAL_GLASS,
    Standalone.MATERIAL_LED; repeat split; lra.
Qed.

Lemma map_material_cases (u : Uniforms) (p : vec3) :
  y2 (Standalone.map u p) = Standalone.MATERIAL_PLASTIC \/
  y2 (Standalone.map u p) = Standalone.MATERIAL_GLASS \/
  y2 (Standalone.map u p) = Standalone.MATERIAL_LED.
Proof.
  rewrite map_select; cbv zeta.
  destruct (ltb _ _); destruct (ltb _ _); cbv [y2]; auto.
Qed.

(** When neither later object is strictly closer, the body is kept. *)
Lemma map_plastic (u : Uniforms) (p : vec3) :
  Standalone.cubeWithHole u p <= Standalone.cylinderInCube u p ->
  Standalone.cubeWithHole u p <= Standalone.ledSphere u p ->
  Standalone.map u p =
  mkvec2 (Standalone.cubeWithHole u p) Standalone.MATERIAL_PLASTIC.
Proof.
  intros H1 H2. rewrite map_select; cbv zeta.
  rewrite (ltb_false _ _ H1), (ltb_false _ _ H2); reflexivity.
Qed.

Lemma map_distance_min (u : Uniforms) (p : vec3) :
  x2 (Standalone.map u p) =
  Rmin (Rmin (Standalone.cubeWithHole u p) (Standalone.cylinderInCube u p))
       (Standalone.ledSphere u p).
Proof.
  rewrite map_select; cbv zeta. unfold ltb.
  destruct (Rlt_dec _ _); destruct (Rlt_dec _ _); cbv [x2];
    unfold Rmin; repeat destruct (Rle_dec _ _); lra.
Qed.

(** Both candidates built from the cube are at least the cube distance, so
    a common lower bound of the cube and the LED bounds the scene. *)
Lemma map_distance_lower (u : Uniforms) (p : vec3) (m : R) :
  m <= Standalone.cube u p -> m <= Standalone.ledSphere u p ->
  m <= x2 (Standalone.map u p).
Proof.
  intros Hc Hl. rewrite map_distance_min.
  unfold Standalone.cubeWithHole, Standalone.cylinderInCube.
  unfold Rmin, Rmax; repeat destruct (Rle_dec _ _); lra.
Qed.

(** ** Bounds on the primitives *)

Lemma length3_nonneg (v : vec3) : 0 <= length3 v.
Proof. apply sqrt_pos. Qed.

Lemma length3_ge_x (v : vec3) : Rabs (x3 v) <= length3 v.
Proof.
  unfold length3. apply sqrt_lower; [apply Rabs_pos|].
  rewrite <- Rabs_mult, Rabs_pos_eq by nra. nra.
Qed.

Lemma length3_ge_y (v : vec3) : Rabs (y3 v) <= length3 v.
Proof.
  unfold length3. apply sqrt_lower; [apply Rabs_pos|].
  rewrite <- Rabs_mult, Rabs_pos_eq by nra. nra.
Qed.

Lemma length3_ge_z (v : vec3) : Rabs (z3 v) <= length3 v.
Proof.
  unfold length3. apply sqrt_lower; [apply Rabs_pos|].
  rewrite <- Rabs_mult, Rabs_pos_eq by nra. nra.
Qed.

(** The box distance dominates the signed slab distance of every axis. *)
Lemma sdBox_ge_axes_core (qx qy qz : R) :
  let len := sqrt (Rmax qx 0 * Rmax qx 0 + Rmax qy 0 * Rmax qy 0
                   + Rmax qz 0 * Rmax qz 0) in
  let d := len + Rmin (Rmax qx (Rmax qy qz)) 0 in
  qx <= d /\ qy <= d /\ qz <= d.
Proof.
  intros len d.
  assert (Hx : Rmax qx 0 <= len).
  { apply sqrt_lower; [apply Rmax_r|].
    pose proof (Rle_0_sqr (Rmax qy 0)); pose proof (Rle_0_sqr (Rmax qz 0)).
    unfold Rsqr in *; lra. }
  assert (Hy : Rmax qy 0 <= len).
  { apply sqrt_lower; [apply Rmax_r|].
    pose proof (Rle_0_sqr (Rmax qx 0)); pose proof (Rle_0_sqr (Rmax qz 0)).
    unfold Rsqr in *; lra. }
  assert (Hz : Rmax qz 0 <= len).
  { apply sqrt_lower; [apply Rmax_r|].
    pose proof (Rle_0_sqr (Rmax qx 0)); pose proof (Rle_0_sqr (Rmax qy 0)).
    unfold Rsqr in *; lra. }
  subst d. clearbody len. revert Hx Hy Hz.
  unfold Rmin, Rmax; repeat (destruct (Rle_dec _ _)); lra.
Qed.

Lemma sdBox_ge_axes (p b : vec3) :
  Rabs (x3 p) - x3 b <= Standalone.sdBox p b /\
  Rabs (y3 p) - y3 b <= Standalone.sdBox p b /\
  Rabs (z3 p) - z3 b <= Standalone.sdBox p b.
Proof.
  unfold Standalone.sdBox; vec_eval.
  replace 0.0 with 0 by lra.
  apply sdBox_ge_axes_core.
Qed.
(** ** The marching loop *)

(** Once the loop body has run, the material id is one tagged by [map]. *)
Lemma marchLoop_material (u : Uniforms) (ro rd : vec3) (steps : nat) :
  forall t m,
    (m = Standalone.MATERIAL_PLASTIC \/ m = Standalone.MATERIAL_GLASS \/
     m = Standalone.MATERIAL_LED) \/ (0 < steps)%nat ->
    let r := y2 (Standalone.marchLoop u ro rd steps t m) in
    r = Standalone.MATERIAL_PLASTIC \/ r = Standalone.MATERIAL_GLASS \/
    r = Standalone.MATERIAL_LED.
Proof.
  induction steps as [|k IH]; intros t m H; cbn [Standalone.marchLoop].
  - destruct H as [H | H]; [exact H | inversion H].
  - cbv zeta.
    destruct (ltb _ _ || ltb _ _).
    + cbv [y2]. apply map_material_cases.
    + apply IH. left. apply map_material_cases.
Qed.

Lemma rayMarch_material (u : Uniforms) (ro rd : vec3) :
  let r := y2 (Standalone.rayMarch u ro rd) in
  r = Standalone.MATERIAL_PLASTIC \/ r = Standalone.MATERIAL_GLASS \/
  r = Standalone.MATERIAL_LED.
Proof.
  unfold Standalone.rayMarch. apply marchLoop_material.
  right. unfold Standalone.maxSteps. apply Nat.lt_0_succ.
Qed.

Lemma materialBranch_tagged (m : R) :
  m = Standalone.MATERIAL_PLASTIC \/ m = Standalone.MATERIAL_GLASS \/
  m = Standalone.MATERIAL_LED ->
  Standalone.materialBranch m <> DefaultBranch.
Proof.
  destruct material_ids_distinct as (Hpg & Hpl & Hgl).
  unfold Standalone.materialBranch.
  intros [-> | [-> | ->]].
  - rewrite (eqb_false _ _ Hpg), (eqb_true _ _ eq_refl). discriminate.
  - rewrite (eqb_true _ _ eq_refl). discriminate.
  - rewrite eqb_false by (intro E; apply Hgl; symmetry; exact E).
    rewrite eqb_false by (intro E; apply Hpl; symmetry; exact E).
    rewrite (eqb_true _ _ eq_refl). discriminate.
Qed.

(** C7: for every ray and all uniforms, in both cores, [rayMarch] returns a
    material id among Plastic, Glass and Led (the loop body runs at least
    once and [map] tags nothing else), so the material dispatch of [main]
    never takes its default (magenta) arm. *)
Theorem rayMarch_material_tagged :
  forall (u : Uniforms) (ro rd : vec3),
    (let m := y2 (Standalone.rayMarch u ro rd) in
     (m = Standalone.MATERIAL_PLASTIC \/ m = Standalone.MATERIAL_GLASS \/
      m = Standalone.MATERIAL_LED) /\
     Standalone.materialBranch m <> DefaultBranch) /\
    (let m := y2 (Embedded.rayMarch u ro rd) in
     (m = Embedded.MATERIAL_PLASTIC \/ m = Embedded.MATERIAL_GLASS \/
      m = Embedded.MATERIAL_LED) /\
     Embedded.materialBranch m <> DefaultBranch).
Proof.
  intros u ro rd.
  rewrite rayMarch_agree, materialBranch_agree, MATERIAL_PLASTIC_agree,
    MATERIAL_GLASS_agree, MATERIAL_LED_agree.
  pose proof (rayMarch_material u ro rd) as H; cbv zeta in H.
  cbv zeta; repeat split;
    try exact H; apply materialBranch_tagged; exact H.
Qed.
(** ** Evaluating the primitives at known points *)

Lemma rotatedP_origin (u : Uniforms) : Standalone.rotatedP u origin = origin.
Proof.
  rewrite rotatedP_components. unfold origin; cbv [x3 y3 z3].
  f_equal; ring.
Qed.

Lemma cube_origin (u : Uniforms) : Standalone.cube u origin = -1.
Proof.
  unfold Standalone.cube. rewrite rotatedP_origin.
  unfold Standalone.sdBox, origin; vec_eval.
  eval_order.
  replace (0.0 * 0.0 + 0.0 * 0.0 + 0.0 * 0.0) with 0 by lra.
  rewrite sqrt_0. lra.
Qed.

Lemma octahedron_origin (u : Uniforms) :
  Standalone.octahedron u origin = - 0.115470054.
Proof.
  unfold Standalone.octahedron. rewrite rotatedP_origin.
  unfold Standalone.sdOctahedron, Standalone.rollMatrix, origin; vec_eval.
  set (c := cos _). set (s := sin _).
  replace (0 / 1.2 * c + 0 * s + (0 - -1.0) * 0.0) with 0 by lra.
  replace (0 / 1.2 * - s + 0 * c + (0 - -1.0) * 0.0) with 0 by lra.
  replace (0 / 1.2 * 0.0 + 0 * 0.0 + (0 - -1.0) * 1.0) with 1 by lra.
  eval_order. lra.
Qed.

Lemma cylinder_origin (u : Uniforms) : Standalone.cylinder u origin = 0.55.
Proof.
  unfold Standalone.cylinder, Standalone.cylinderPos.
  rewrite rotatedP_origin.
  unfold Standalone.sdCappedCylinder, origin; vec_eval.
  rewrite (sqrt_of_square 0.75) by lra.
  eval_order.
  rewrite (sqrt_of_square 0.55) by lra.
  lra.
Qed.

Lemma ledSphere_origin (u : Uniforms) : 1 <= Standalone.ledSphere u origin.
Proof.
  unfold Standalone.ledSphere. rewrite rotatedP_origin.
  unfold Standalone.sdSphere, origin; vec_eval.
  assert (1.02 <= sqrt ((0 - 1.1) * (0 - 1.1) + (0 - -0.9) * (0 - -0.9)
                        + (0 - -1.0) * (0 - -1.0))).
  { apply sqrt_lower; lra. }
  lra.
Qed.

Lemma map_origin (u : Uniforms) :
  Standalone.map u origin = mkvec2 0.115470054 Standalone.MATERIAL_PLASTIC.
Proof.
  pose proof (ledSphere_origin u) as Hl.
  assert (Hw : Standalone.cubeWithHole u origin = 0.115470054).
  { unfold Standalone.cubeWithHole.
    rewrite cube_origin, octahedron_origin. eval_order. lra. }
  assert (Hc : Standalone.cylinderInCube u origin = 0.55).
  { unfold Standalone.cylinderInCube.
    rewrite cube_origin, cylinder_origin. eval_order. lra. }
  rewrite map_plastic; rewrite Hw; try rewrite Hc; try reflexivity; lra.
Qed.

(** C1, as amended: with zero pitch and yaw, in both cores, [map] at the
    origin selects material Plastic and returns the strictly positive
    distance [0.2 * 0.57735027 = 0.115470054]: the origin lies inside the
    octahedral cut-out, which reaches [0.2] behind it, so the carved body is
    what is nearest (the cylinder is at [0.55], the LED beyond [1]). *)
Theorem map_origin_plastic_positive :
  forall u : Uniforms,
    u_pitch_angle u = 0 -> u_yaw_angle u = 0 ->
    (y2 (Standalone.map u origin) = Standalone.MATERIAL_PLASTIC /\
     x2 (Standalone.map u origin) = 0.115470054 /\
     0 < x2 (Standalone.map u origin)) /\
    (y2 (Embedded.map u origin) = Embedded.MATERIAL_PLASTIC /\
     x2 (Embedded.map u origin) = 0.115470054 /\
     0 < x2 (Embedded.map u origin)).
Proof.
  intros u _ _.
  rewrite map_agree, MATERIAL_PLASTIC_agree, map_origin; cbv [x2 y2].
  repeat split; lra.
Qed.

Lemma map_origin_plastic_positive_witness :
  (y2 (Standalone.map still origin) = Standalone.MATERIAL_PLASTIC /\
   x2 (Standalone.map still origin) = 0.115470054 /\
   0 < x2 (Standalone.map still origin)) /\
  (y2 (Embedded.map still origin) = Embedded.MATERIAL_PLASTIC /\
   x2 (Embedded.map still origin) = 0.115470054 /\
   0 < x2 (Embedded.map still origin)).
Proof.
  apply (map_origin_plastic_positive still); reflexivity.
Defined.

(** C1 as stated fails: at the origin with zero rotation the distance is
    not negative. *)
Lemma map_origin_not_negative :
  u_pitch_angle still = 0 /\ u_yaw_angle still = 0 /\
  ~ (y2 (Standalone.map still origin) = Standalone.MATERIAL_PLASTIC /\
     x2 (Standalone.map still origin) < 0).
Proof.
  split; [reflexivity | split; [reflexivity |]].
  rewrite map_origin; cbv [x2 y2]. intros [_ H]. lra.
Qed.
(** ** Points outside the bounding box *)

Lemma cube_still_lower (u : Uniforms) (p : vec3) :
  u_pitch_angle u = 0 -> u_yaw_angle u = 0 ->
  Rabs (x3 p) - 1.2 <= Standalone.cube u p /\
  Rabs (y3 p) - 1.0 <= Standalone.cube u p /\
  Rabs (z3 p) - 1.0 <= Standalone.cube u p.
Proof.
  intros Hp Hy. unfold Standalone.cube. rewrite (rotatedP_still u p Hp Hy).
  apply (sdBox_ge_axes p (mkvec3 1.2 1.0 1.0)).
Qed.

Lemma ledSphere_still_lower (u : Uniforms) (p : vec3) :
  u_pitch_angle u = 0 -> u_yaw_angle u = 0 ->
  Rabs (x3 p - 1.1) - 0.02 <= Standalone.ledSphere u p /\
  Rabs (y3 p + 0.9) - 0.02 <= Standalone.ledSphere u p /\
  Rabs (z3 p + 1.0) - 0.02 <= Standalone.ledSphere u p.
Proof.
  intros Hp Hy. unfold Standalone.ledSphere, Standalone.sdSphere; cbv zeta.
  rewrite (rotatedP_still u p Hp Hy).
  set (v := sub3 p (mkvec3 1.1 (-0.9) (-1.0))).
  pose proof (length3_ge_x v) as Hx.
  pose proof (length3_ge_y v) as Hyy.
  pose proof (length3_ge_z v) as Hz.
  replace (y3 p + 0.9) with (y3 v) by (subst v; cbv [sub3 y3]; lra).
  replace (z3 p + 1.0) with (z3 v) by (subst v; cbv [sub3 z3]; lra).
  change (x3 p - 1.1) with (x3 v).
  lra.
Qed.

(** C9: with zero rotation, in both cores, every point with some coordinate
    of absolute value beyond 1.3 has a strictly positive [map] distance. *)
Theorem map_positive_outside_box :
  forall (u : Uniforms) (p : vec3),
    u_pitch_angle u = 0 -> u_yaw_angle u = 0 ->
    1.3 < Rabs (x3 p) \/ 1.3 < Rabs (y3 p) \/ 1.3 < Rabs (z3 p) ->
    0 < x2 (Standalone.map u p) /\ 0 < x2 (Embedded.map u p).
Proof.
  intros u p Hp Hy Hout. rewrite map_agree.
  assert (H : 0.1 <= x2 (Standalone.map u p)); [| lra].
  destruct (cube_still_lower u p Hp Hy) as (Cx & Cy & Cz).
  destruct (ledSphere_still_lower u p Hp Hy) as (Lx & Ly & Lz).
  apply map_distance_lower.
  - destruct Hout as [H | [H | H]]; lra.
  - revert Lx Ly Lz.
    destruct Hout as [H | [H | H]]; revert H;
      unfold Rabs; repeat destruct (Rcase_abs _); lra.
Qed.

Lemma map_positive_outside_box_witness :
  0 < x2 (Standalone.map still besideCube) /\
  0 < x2 (Embedded.map still besideCube).
Proof.
  apply (map_positive_outside_box still besideCube);
    [reflexivity | reflexivity |].
  left. unfold besideCube; cbv [x3]. rewrite Rabs_pos_eq; lra.
Defined.
(** ** Ties in the selection *)

Lemma map_selection_rule (u : Uniforms) (p : vec3) :
  let cwh := Standalone.cubeWithHole u p in
  let cyl := Standalone.cylinderInCube u p in
  let led := Standalone.ledSphere u p in
  let m := y2 (Standalone.map u p) in
  (m = Standalone.MATERIAL_LED <-> led < Rmin cwh cyl) /\
  (m = Standalone.MATERIAL_GLASS <-> cyl < cwh /\ cyl <= led) /\
  (m = Standalone.MATERIAL_PLASTIC <-> cwh <= cyl /\ cwh <= led).
Proof.
  cbv zeta. rewrite map_select; cbv zeta.
  destruct material_ids_distinct as (Hpg & Hpl & Hgl).
  unfold ltb, Rmin.
  destruct (Rlt_dec (Standalone.cylinderInCube u p) _);
    destruct (Rlt_dec (Standalone.ledSphere u p) _);
    destruct (Rle_dec _ _); cbv [y2];
    repeat split; intros; try lra; try congruence;
    try (exfalso; lra).
Qed.

(** C3, as amended: for every point, in both cores, [map] replaces the
    running minimum only on a strictly smaller distance, in the order
    body-with-hole, cylinder-in-cube, LED sphere.  So the distance is the
    minimum of the three, Led is selected exactly when the LED is strictly
    closer than both others, Glass exactly when the cylinder is strictly
    closer than the body and the LED is not strictly closer than the
    cylinder, Plastic otherwise; at a tie the earlier object is kept: a
    cylinder that ties with the body is not selected, and an LED that ties
    with the cylinder is not selected. *)
Theorem map_selection_keeps_earlier_on_ties :
  forall (u : Uniforms) (p : vec3),
    (let cwh := Standalone.cubeWithHole u p in
     let cyl := Standalone.cylinderInCube u p in
     let led := Standalone.ledSphere u p in
     let m := y2 (Standalone.map u p) in
     x2 (Standalone.map u p) = Rmin (Rmin cwh cyl) led /\
     (m = Standalone.MATERIAL_LED <-> led < Rmin cwh cyl) /\
     (m = Standalone.MATERIAL_GLASS <-> cyl < cwh /\ cyl <= led) /\
     (m = Standalone.MATERIAL_PLASTIC <-> cwh <= cyl /\ cwh <= led) /\
     (cyl = cwh -> m <> Standalone.MATERIAL_GLASS) /\
     (led = cyl -> m <> Standalone.MATERIAL_LED)) /\
    (let cwh := Embedded.cubeWithHole u p in
     let cyl := Embedded.cylinderInCube u p in
     let led := Embedded.ledSphere u p in
     let m := y2 (Embedded.map u p) in
     x2 (Embedded.map u p) = Rmin (Rmin cwh cyl) led /\
     (m = Embedded.MATERIAL_LED <-> led < Rmin cwh cyl) /\
     (m = Embedded.MATERIAL_GLASS <-> cyl < cwh /\ cyl <= led) /\
     (m = Embedded.MATERIAL_PLASTIC <-> cwh <= cyl /\ cwh <= led) /\
     (cyl = cwh -> m <> Embedded.MATERIAL_GLASS) /\
     (led = cyl -> m <> Embedded.MATERIAL_LED)).
Proof.
  intros u p.
  rewrite map_agree, cubeWithHole_agree, cylinderInCube_agree,
    ledSphere_agree, MATERIAL_PLASTIC_agree, MATERIAL_GLASS_agree,
    MATERIAL_LED_agree.
  pose proof (map_selection_rule u p) as (Hl & Hg & Hp); cbv zeta in Hl, Hg, Hp.
  pose proof (map_distance_min u p) as Hd.
  assert (Htie1 : Standalone.cylinderInCube u p = Standalone.cubeWithHole u p ->
                  y2 (Standalone.map u p) <> Standalone.MATERIAL_GLASS).
  { intros E G. apply Hg in G. lra. }
  assert (Htie2 : Standalone.ledSphere u p = Standalone.cylinderInCube u p ->
                  y2 (Standalone.map u p) <> Standalone.MATERIAL_LED).
  { intros E G. apply Hl in G. revert G. rewrite E.
    unfold Rmin; destruct (Rle_dec _ _); lra. }
  cbv zeta; split;
    (split; [exact Hd | split; [exact Hl | split; [exact Hg | split;
       [exact Hp | split; [exact Htie1 | exact Htie2]]]]]).
Qed.

Lemma neg_octahedron_upper (u : Uniforms) (p : vec3) :
  - Standalone.octahedron u p <= 0.692820324.
Proof.
  unfold Standalone.octahedron, Standalone.sdOctahedron; cbv zeta.
  set (v := mulMV _ _).
  cbv [abs3 x3 y3 z3]; fold (x3 v) (y3 v) (z3 v).
  pose proof (Rabs_pos (x3 v)); pose proof (Rabs_pos (y3 v));
    pose proof (Rabs_pos (z3 v)).
  lra.
Qed.

Lemma cube_besideCube : Standalone.cube still besideCube = 0.8.
Proof.
  unfold Standalone.cube. rewrite rotatedP_still by reflexivity.
  unfold Standalone.sdBox, besideCube; vec_eval.
  eval_order.
  rewrite (sqrt_of_square 0.8) by lra. lra.
Qed.

Lemma cylinder_besideCube : Standalone.cylinder still besideCube <= 0.6.
Proof.
  unfold Standalone.cylinder, Standalone.cylinderPos.
  rewrite rotatedP_still by reflexivity.
  unfold Standalone.sdCappedCylinder, besideCube; vec_eval.
  set (r := sqrt _).
  assert (Hr : 0.7 <= r <= 0.8).
  { subst r; split; [apply sqrt_lower | apply sqrt_upper]; lra. }
  eval_order.
  rewrite (sqrt_of_square (r - 0.2)) by lra. lra.
Qed.

Lemma ledSphere_besideCube : 0.8 <= Standalone.ledSphere still besideCube.
Proof.
  destruct (ledSphere_still_lower still besideCube eq_refl eq_refl)
    as (Lx & Ly & Lz).
  revert Lz. unfold besideCube; cbv [z3]. rewrite Rabs_pos_eq; lra.
Qed.

Lemma besideCube_values :
  Standalone.cubeWithHole still besideCube = 0.8 /\
  Standalone.cylinderInCube still besideCube = 0.8 /\
  0.8 <= Standalone.ledSphere still besideCube.
Proof.
  pose proof cube_besideCube as Hc.
  pose proof cylinder_besideCube as Hy.
  pose proof (neg_octahedron_upper still besideCube) as Ho.
  split; [| split; [| exact ledSphere_besideCube]].
  - unfold Standalone.cubeWithHole. rewrite Hc. apply Rmax_left; lra.
  - unfold Standalone.cylinderInCube. rewrite Hc. apply Rmax_right; lra.
Qed.

Lemma map_selection_keeps_earlier_on_ties_witness :
  Standalone.cylinderInCube still besideCube
  = Standalone.cubeWithHole still besideCube /\
  y2 (Standalone.map still besideCube) <> Standalone.MATERIAL_GLASS.
Proof.
  destruct besideCube_values as (Hw & Hi & _).
  assert (E : Standalone.cylinderInCube still besideCube
              = Standalone.cubeWithHole still besideCube)
    by (rewrite Hw, Hi; reflexivity).
  split; [exact E |].
  destruct (map_selection_keeps_earlier_on_ties still besideCube)
    as ((_ & _ & _ & _ & Htie & _) & _).
  exact (Htie E).
Defined.

(** C3 as stated fails: beside the cube the cylinder term is clipped to
    the cube and ties with the body, and the selected material is Plastic,
    not Glass. *)
Lemma tie_does_not_select_glass :
  Standalone.cylinderInCube still besideCube
  = Standalone.cubeWithHole still besideCube /\
  y2 (Standalone.map still besideCube) = Standalone.MATERIAL_PLASTIC /\
  y2 (Standalone.map still besideCube) <> Standalone.MATERIAL_GLASS.
Proof.
  destruct besideCube_values as (Hw & Hi & Hl).
  split; [rewrite Hw, Hi; reflexivity |].
  rewrite map_plastic by (rewrite Hw; try rewrite Hi; lra).
  cbv [y2]. split; [reflexivity |].
  apply (proj1 material_ids_distinct).
Qed.

(** ** The cylinder term *)

Lemma cylinder_of_rotatedP (u : Uniforms) (p : vec3) :
  Standalone.cylinder u p = cylinder_unrotated (Standalone.rotatedP u p).
Proof.
  unfold Standalone.cylinder, Standalone.cylinderPos, cylinder_unrotated.
  cbv zeta. f_equal.
  destruct (Standalone.rotatedP u p) as [qx qy qz]; vec_eval.
  f_equal; lra.
Qed.

Lemma cos_atan_12_35 : cos (atan (12 / 35)) = 35 / 37.
Proof.
  rewrite cos_atan.
  rewrite (sqrt_of_square (37 / 35)); [lra | lra | unfold Rsqr; lra].
Qed.

Lemma sin_atan_12_35 : sin (atan (12 / 35)) = 12 / 37.
Proof.
  rewrite sin_atan.
  rewrite (sqrt_of_square (37 / 35)); [lra | lra | unfold Rsqr; lra].
Qed.

Lemma rotatedP_yawed_onAxis :
  Standalone.rotatedP yawed onAxis = mkvec3 (9 / 35) 0 (- 3 / 4).
Proof.
  rewrite rotatedP_components.
  unfold yawed, onAxis; cbv [u_pitch_angle u_yaw_angle x3 y3 z3].
  rewrite cos_atan_12_35, sin_atan_12_35, cos_0, sin_0. f_equal; lra.
Qed.

Lemma cylinder_unrotated_carried :
  cylinder_unrotated (mkvec3 (9 / 35) 0 (- 3 / 4)) = - 47 / 280.
Proof.
  unfold cylinder_unrotated, Standalone.sdCappedCylinder; vec_eval.
  rewrite (sqrt_of_square (9 / 280)) by lra.
  eval_order.
  replace (0.0 * 0.0 + 0.0 * 0.0) with 0 by lra.
  rewrite sqrt_0. lra.
Qed.

Lemma cylinder_unrotated_onAxis : cylinder_unrotated onAxis = - 11 / 70.
Proof.
  unfold cylinder_unrotated, Standalone.sdCappedCylinder, onAxis; vec_eval.
  rewrite (sqrt_of_square (3 / 70)) by lra.
  eval_order.
  replace (0.0 * 0.0 + 0.0 * 0.0) with 0 by lra.
  rewrite sqrt_0. lra.
Qed.

(** C2, the code at a rotated input: in both cores the cylinder term is
    [sdCappedCylinder] of the *rotated* point (offset and scaled), so it
    follows the rotation angles.  With a yaw of [atan (12/35)] and the
    query point [(0, 0, -111/140)] the code's cylinder term is [-47/280],
    while the term built from the unrotated point, as the comment in [map]
    and the specification describe it, is [-11/70]. *)
Theorem cylinder_follows_rotation :
  (forall (u : Uniforms) (p : vec3),
      Standalone.cylinder u p = cylinder_unrotated (Standalone.rotatedP u p) /\
      Embedded.cylinder u p = cylinder_unrotated (Embedded.rotatedP u p)) /\
  Standalone.cylinder yawed onAxis = - 47 / 280 /\
  Embedded.cylinder yawed onAxis = - 47 / 280 /\
  cylinder_unrotated onAxis = - 11 / 70 /\
  Standalone.cylinder yawed onAxis <> cylinder_unrotated onAxis.
Proof.
  assert (H : Standalone.cylinder yawed onAxis = - 47 / 280).
  { rewrite cylinder_of_rotatedP, rotatedP_yawed_onAxis.
    apply cylinder_unrotated_carried. }
  split.
  - intros u p. rewrite cylinder_agree, rotatedP_agree.
    split; apply cylinder_of_rotatedP.
  - rewrite cylinder_agree, H, cylinder_unrotated_onAxis.
    repeat split; lra.
Qed.

(** ** The plastic shader is not clamped *)

Lemma pow_one (e : R) : pow 1 e = 1.
Proof.
  unfold pow. destruct (Rlt_dec 0 1) as [_ | H]; [| lra].
  unfold Rpower. rewrite ln_1, Rmult_0_r. apply exp_0.
Qed.

Lemma length3_unit_dot (n : vec3) : length3 n = 1 -> dot3 n n = 1.
Proof.
  unfold length3, dot3. intros H.
  assert (Hs : 0 <= x3 n * x3 n + y3 n * y3 n + z3 n * z3 n) by nra.
  rewrite <- (sqrt_sqrt _ Hs), H. ring.
Qed.

Lemma normalize3_double_unit (n : vec3) :
  length3 n = 1 -> normalize3 (add3 n n) = n.
Proof.
  intros H. pose proof (length3_unit_dot n H) as Hd.
  unfold dot3 in Hd. destruct n as [a b c]; cbv [x3 y3 z3] in Hd.
  vec_eval.
  rewrite (sqrt_of_square 2) by nra.
  f_equal; lra.
Qed.

(** C10: in both cores, for every unit vector taken as normal, view and
    light direction at once, with diffuse term 1, [plasticMaterial] returns
    [(1.1, 1.05, 0.9)]: the half vector is the normal, the softened diffuse
    factor is 1 and the specular term is [1^16 * 0.2], and nothing clamps
    the sum, so the red (and the green) component exceeds 1. *)
Theorem plasticMaterial_exceeds_one :
  forall (u : Uniforms) (n : vec3),
    length3 n = 1 ->
    Standalone.plasticMaterial u n n n 1 = mkvec3 1.1 1.05 0.9 /\
    Embedded.plasticMaterial u n n n 1 = mkvec3 1.1 1.05 0.9 /\
    1 < x3 (Standalone.plasticMaterial u n n n 1).
Proof.
  intros u n H.
  rewrite plasticMaterial_agree.
  assert (E : Standalone.plasticMaterial u n n n 1 = mkvec3 1.1 1.05 0.9).
  { unfold Standalone.plasticMaterial; cbv zeta.
    rewrite (normalize3_double_unit n H), (length3_unit_dot n H).
    rewrite Rmax_right by lra. rewrite pow_one.
    vec_eval. f_equal; lra. }
  rewrite E; cbv [x3]. repeat split; lra.
Qed.

Lemma plasticMaterial_exceeds_one_witness :
  length3 unitX = 1 /\
  Standalone.plasticMaterial still unitX unitX unitX 1 = mkvec3 1.1 1.05 0.9 /\
  Embedded.plasticMaterial still unitX unitX unitX 1 = mkvec3 1.1 1.05 0.9 /\
  1 < x3 (Standalone.plasticMaterial still unitX unitX unitX 1).
Proof.
  assert (H : length3 unitX = 1).
  { unfold length3, unitX; cbv [x3 y3 z3]. apply sqrt_of_square; lra. }
  split; [exact H | apply (plasticMaterial_exceeds_one still unitX H)].
Defined.
(** ** Lower bounds that hold under every rotation *)

Lemma cube_lower (u : Uniforms) (p : vec3) :
  let q := Standalone.rotatedP u p in
  Rabs (x3 q) - 1.2 <= Standalone.cube u p /\
  Rabs (y3 q) - 1.0 <= Standalone.cube u p /\
  Rabs (z3 q) - 1.0 <= Standalone.cube u p.
Proof.
  cbv zeta. unfold Standalone.cube.
  apply (sdBox_ge_axes (Standalone.rotatedP u p) (mkvec3 1.2 1.0 1.0)).
Qed.

Lemma ledSphere_lower (u : Uniforms) (p : vec3) :
  let q := Standalone.rotatedP u p in
  Rabs (x3 q - 1.1) - 0.02 <= Standalone.ledSphere u p /\
  Rabs (y3 q + 0.9) - 0.02 <= Standalone.ledSphere u p /\
  Rabs (z3 q + 1.0) - 0.02 <= Standalone.ledSphere u p.
Proof.
  cbv zeta. unfold Standalone.ledSphere, Standalone.sdSphere; cbv zeta.
  set (q := Standalone.rotatedP u p).
  set (v := sub3 q (mkvec3 1.1 (-0.9) (-1.0))).
  pose proof (length3_ge_x v) as Hx.
  pose proof (length3_ge_y v) as Hyy.
  pose proof (length3_ge_z v) as Hz.
  replace (y3 q + 0.9) with (y3 v) by (subst v; cbv [sub3 y3]; lra).
  replace (z3 q + 1.0) with (z3 v) by (subst v; cbv [sub3 z3]; lra).
  change (x3 q - 1.1) with (x3 v).
  lra.
Qed.

(** Some coordinate carries at least [0.577] of the Euclidean length. *)
Lemma largest_axis (qx qy qz r : R) :
  0 <= r -> qx * qx + qy * qy + qz * qz = r * r ->
  0.577 * r <= Rabs qx \/ 0.577 * r <= Rabs qy \/ 0.577 * r <= Rabs qz.
Proof.
  intros Hr E.
  destruct (Rle_dec (0.577 * r) (Rabs qx)) as [|Hx]; [auto|].
  destruct (Rle_dec (0.577 * r) (Rabs qy)) as [|Hy]; [auto|].
  destruct (Rle_dec (0.577 * r) (Rabs qz)) as [|Hz]; [auto|].
  exfalso.
  pose proof (Rabs_pos qx); pose proof (Rabs_pos qy); pose proof (Rabs_pos qz).
  assert (Ex : qx * qx = Rabs qx * Rabs qx)
    by (unfold Rabs; destruct (Rcase_abs qx); ring).
  assert (Ey : qy * qy = Rabs qy * Rabs qy)
    by (unfold Rabs; destruct (Rcase_abs qy); ring).
  assert (Ez : qz * qz = Rabs qz * Rabs qz)
    by (unfold Rabs; destruct (Rcase_abs qz); ring).
  rewrite Ex, Ey, Ez in E.
  generalize dependent (Rabs qx). generalize dependent (Rabs qy).
  generalize dependent (Rabs qz). intros. nra.
Qed.

(** At distance [r] from the centre the scene is at least
    [0.577 r - 1.2] away, whatever the rotation. *)
Lemma map_distance_far (u : Uniforms) (p : vec3) (r : R) :
  0 <= r -> dot3 p p = r * r ->
  0.577 * r - 1.2 <= x2 (Standalone.map u p).
Proof.
  intros Hr E. rewrite <- (rotatedP_norm u p) in E.
  destruct (cube_lower u p) as (Cx & Cy & Cz).
  destruct (ledSphere_lower u p) as (Lx & Ly & Lz).
  cbv zeta in *.
  destruct (Standalone.rotatedP u p) as [qx qy qz].
  cbv [dot3 x3 y3 z3] in *.
  destruct (largest_axis qx qy qz r Hr E) as [H | [H | H]];
    apply map_distance_lower; try lra;
    revert H Lx Ly Lz; unfold Rabs; repeat destruct (Rcase_abs _); lra.
Qed.
(** ** The miss scenario: marching away from the scene *)

Lemma growN_mono (n : nat) : forall a b, a <= b -> growN n a <= growN n b.
Proof.
  induction n as [|k IH]; intros a b H; cbn [growN]; [exact H|].
  apply IH; lra.
Qed.

Lemma growN_ge (n : nat) : forall t, 0 <= t -> t <= growN n t.
Proof.
  induction n as [|k IH]; intros t H; cbn [growN]; [lra|].
  apply Rle_trans with (1.5 * t + 0.15); [lra | apply IH; lra].
Qed.

Lemma growN_add (a b : nat) (t : R) :
  growN (a + b) t = growN b (growN a t).
Proof.
  revert t; induction a as [|k IH]; intros t; cbn [growN Nat.add];
    [reflexivity | apply IH].
Qed.

Lemma growN_100 : 100 < growN 100 0.
Proof.
  change 100%nat with (20 + 80)%nat. rewrite growN_add.
  apply Rlt_le_trans with (growN 20 0).
  - cbn [growN]. lra.
  - apply growN_ge. cbn [growN]. lra.
Qed.

Lemma away_step (u : Uniforms) (t : R) :
  0 <= t ->
  0.155 + 0.577 * t
  <= x2 (Standalone.map u (add3 awayOrigin (scale3 t awayDir))).
Proof.
  intros Ht.
  apply Rle_trans with (0.577 * (2.35 + t) - 1.2); [lra|].
  apply map_distance_far; [lra|].
  unfold awayOrigin, awayDir; vec_eval. nra.
Qed.

Lemma marchLoop_away (u : Uniforms) (n : nat) :
  forall t m, 0 <= t ->
    let r := x2 (Standalone.marchLoop u awayOrigin awayDir n t m) in
    100 < r \/ growN n t <= r.
Proof.
  induction n as [|k IH]; intros t m Ht; cbn [Standalone.marchLoop growN].
  - right. cbv [x2]. lra.
  - cbv zeta. pose proof (away_step u t Ht) as Hd.
    set (d := x2 (Standalone.map u _)) in *.
    rewrite ltb_false by (unfold Standalone.eps; lra).
    rewrite orb_false_l. unfold ltb.
    destruct (Rlt_dec Standalone.maxDist t) as [Hesc | Hin].
    + left. cbv [x2]. unfold Standalone.maxDist in Hesc. lra.
    + assert (Ht' : 0 <= t + d) by lra.
      match goal with
      | |- context [Standalone.marchLoop u awayOrigin awayDir k (t + d) ?m'] =>
          destruct (IH (t + d) m' Ht') as [H | H]; [left; exact H | right]
      end.
      apply Rle_trans with (growN k (t + d)); [| exact H].
      apply growN_mono. lra.
Qed.

Lemma rayMarch_away (u : Uniforms) :
  100 < x2 (Standalone.rayMarch u awayOrigin awayDir).
Proof.
  unfold Standalone.rayMarch, Standalone.maxSteps.
  replace 0.0 with 0 by lra.
  destruct (marchLoop_away u 100 0 (-1.0) (Rle_refl 0)) as [H | H];
    [exact H |].
  pose proof growN_100. lra.
Qed.

(** ** Hit and miss in the pixel pipeline *)

Lemma shadeRay_miss (u : Uniforms) (ro rd : vec3) :
  100 <= x2 (Standalone.rayMarch u ro rd) ->
  Standalone.shadeRay u ro rd = mkvec4 0 0 0 0.
Proof.
  intros H. unfold Standalone.shadeRay; cbv zeta.
  rewrite ltb_false by lra. f_equal; lra.
Qed.

Lemma shadeRay_hit_alpha (u : Uniforms) (ro rd : vec3) :
  x2 (Standalone.rayMarch u ro rd) < 100 ->
  w4 (Standalone.shadeRay u ro rd) = 1.
Proof.
  intros H. unfold Standalone.shadeRay; cbv zeta.
  rewrite ltb_true by lra. cbv [w4]. lra.
Qed.

Lemma embedded_shadeRay_miss (u : Uniforms) (ro rd : vec3) :
  100 <= x2 (Embedded.rayMarch u ro rd) ->
  Embedded.shadeRay u ro rd = mkvec4 0 0 0 0.
Proof.
  intros H. unfold Embedded.shadeRay; cbv zeta.
  rewrite ltb_false by lra. f_equal; lra.
Qed.

Lemma embedded_shadeRay_hit_alpha (u : Uniforms) (ro rd : vec3) :
  x2 (Embedded.rayMarch u ro rd) < 100 ->
  w4 (Embedded.shadeRay u ro rd) = 1.
Proof.
  intros H. unfold Embedded.shadeRay; cbv zeta.
  rewrite ltb_true by lra. cbv [w4]. lra.
Qed.

(** C8: in both cores, for every pixel (uniforms and interpolated
    coordinate), if [rayMarch] on the camera ray returns [t >= 100] the
    output is [(0,0,0,0)], and if it returns [t < 100] the output alpha is
    exactly 1; the same holds for the shading of any ray.  In particular the
    ray from [(0,0,-2.35)] with direction [(0,0,-1)] is marched beyond
    [maxDist = 100] under every rotation and LED colour and is shaded fully
    transparent. *)
Theorem miss_is_transparent_hit_is_opaque :
  (forall (u : Uniforms) (v_uv : vec2),
      let t := x2 (Standalone.rayMarch u Standalone.cameraPos
                     (Standalone.cameraRay u v_uv)) in
      (100 <= t -> Standalone.main u v_uv = mkvec4 0 0 0 0) /\
      (t < 100 -> w4 (Standalone.main u v_uv) = 1)) /\
  (forall (u : Uniforms) (v_uv : vec2),
      let t := x2 (Embedded.rayMarch u Embedded.cameraPos
                     (Embedded.cameraRay u v_uv)) in
      (100 <= t -> Embedded.main u v_uv = mkvec4 0 0 0 0) /\
      (t < 100 -> w4 (Embedded.main u v_uv) = 1)) /\
  (forall (u : Uniforms) (ro rd : vec3),
      (100 <= x2 (Standalone.rayMarch u ro rd) ->
       Standalone.shadeRay u ro rd = mkvec4 0 0 0 0) /\
      (x2 (Standalone.rayMarch u ro rd) < 100 ->
       w4 (Standalone.shadeRay u ro rd) = 1) /\
      (100 <= x2 (Embedded.rayMarch u ro rd) ->
       Embedded.shadeRay u ro rd = mkvec4 0 0 0 0) /\
      (x2 (Embedded.rayMarch u ro rd) < 100 ->
       w4 (Embedded.shadeRay u ro rd) = 1)) /\
  (forall u : Uniforms,
      100 < x2 (Standalone.rayMarch u awayOrigin awayDir) /\
      Standalone.shadeRay u awayOrigin awayDir = mkvec4 0 0 0 0 /\
      w4 (Standalone.shadeRay u awayOrigin awayDir) = 0 /\
      100 < x2 (Embedded.rayMarch u awayOrigin awayDir) /\
      Embedded.shadeRay u awayOrigin awayDir = mkvec4 0 0 0 0 /\
      w4 (Embedded.shadeRay u awayOrigin awayDir) = 0).
Proof.
  split; [| split; [| split]].
  - intros u v_uv; cbv zeta; unfold Standalone.main; cbv zeta.
    split; [apply shadeRay_miss | apply shadeRay_hit_alpha].
  - intros u v_uv; cbv zeta; unfold Embedded.main; cbv zeta.
    split; [apply embedded_shadeRay_miss | apply embedded_shadeRay_hit_alpha].
  - intros u ro rd.
    split; [apply shadeRay_miss |].
    split; [apply shadeRay_hit_alpha |].
    split; [apply embedded_shadeRay_miss | apply embedded_shadeRay_hit_alpha].
  - intros u. pose proof (rayMarch_away u) as H.
    assert (Hs : Standalone.shadeRay u awayOrigin awayDir = mkvec4 0 0 0 0)
      by (apply shadeRay_miss; lra).
    assert (He : Embedded.shadeRay u awayOrigin awayDir = mkvec4 0 0 0 0)
      by (apply embedded_shadeRay_miss; rewrite rayMarch_agree; lra).
    rewrite rayMarch_agree, Hs, He; cbv [w4].
    repeat split; try reflexivity; exact H.
Qed.
(** ** The two normal estimators *)

Lemma calcNormal_backward (u : Uniforms) (p : vec3) :
  Standalone.calcNormal u p = normalize3 (backwardGradient u p).
Proof.
  unfold Standalone.calcNormal, backwardGradient; cbv zeta; cbv [x2 y2].
  replace 0.0 with 0 by lra. reflexivity.
Qed.

Lemma calcNormal_central (u : Uniforms) (p : vec3) :
  Embedded.calcNormal u p = normalize3 (centralGradient u p).
Proof.
  unfold Embedded.calcNormal, centralGradient; cbv zeta; cbv [x2 y2].
  rewrite map_agree. replace 0.0 with 0 by lra. reflexivity.
Qed.

Lemma normalize3_unit (v : vec3) :
  v <> mkvec3 0 0 0 -> length3 (normalize3 v) = 1.
Proof.
  intros Hv. destruct v as [a b c].
  assert (Hs : 0 < a * a + b * b + c * c).
  { destruct (Req_dec a 0) as [Ea | Ea];
      [destruct (Req_dec b 0) as [Eb | Eb];
       [destruct (Req_dec c 0) as [Ec | Ec]|]|]; try nra.
    exfalso; apply Hv; subst; reflexivity. }
  vec_eval.
  set (L := sqrt (a * a + b * b + c * c)).
  assert (HL : 0 < L) by (apply sqrt_lt_R0; exact Hs).
  assert (HLL : L * L = a * a + b * b + c * c)
    by (apply sqrt_sqrt; lra).
  apply sqrt_of_square; [lra|].
  replace (a / L * (a / L) + b / L * (b / L) + c / L * (c / L))
    with ((a * a + b * b + c * c) / (L * L)) by (field; lra).
  rewrite <- HLL. field. lra.
Qed.

(** Far enough outside the cube, the cube itself is what [map] returns. *)
Lemma map_outer (u : Uniforms) (p : vec3) :
  0.692820324 <= Standalone.cube u p ->
  Standalone.cube u p <= Standalone.ledSphere u p ->
  Standalone.map u p = mkvec2 (Standalone.cube u p) Standalone.MATERIAL_PLASTIC.
Proof.
  intros Hc Hl. pose proof (neg_octahedron_upper u p) as Ho.
  assert (Hw : Standalone.cubeWithHole u p = Standalone.cube u p)
    by (unfold Standalone.cubeWithHole; apply Rmax_left; lra).
  rewrite map_plastic; rewrite Hw; try reflexivity; try lra.
  unfold Standalone.cylinderInCube. apply Rmax_r.
Qed.

Lemma cube_still_eq (p : vec3) :
  Standalone.cube still p = Standalone.sdBox p (mkvec3 1.2 1.0 1.0).
Proof. unfold Standalone.cube. rewrite rotatedP_still; reflexivity. Qed.

Lemma map_crease_column (y : R) :
  0.9 <= y <= 1.1 ->
  x2 (Standalone.map still (mkvec3 2 y 0))
  = sqrt (0.8 * 0.8 + Rmax (y - 1) 0 * Rmax (y - 1) 0).
Proof.
  intros Hy.
  assert (Hc : Standalone.cube still (mkvec3 2 y 0)
               = sqrt (0.8 * 0.8 + Rmax (y - 1) 0 * Rmax (y - 1) 0)).
  { rewrite cube_still_eq. unfold Standalone.sdBox; vec_eval.
    replace (Rabs y) with y by (rewrite Rabs_pos_eq; lra).
    replace (Rmax (Rabs 2 - 1.2) 0.0) with 0.8
      by (rewrite (Rabs_pos_eq 2), Rmax_left; lra).
    replace (Rmax (Rabs 0 - 1.0) 0.0) with 0
      by (rewrite Rabs_R0, Rmax_right; lra).
    replace (Rmax (y - 1.0) 0.0) with (Rmax (y - 1) 0)
      by (f_equal; lra).
    replace (Rmin (Rmax (Rabs 2 - 1.2) (Rmax (y - 1.0) (Rabs 0 - 1.0))) 0.0)
      with 0.
    2:{ rewrite (Rabs_pos_eq 2), Rabs_R0 by lra.
        rewrite Rmin_right; [lra|].
        apply Rle_trans with (2 - 1.2); [lra | apply Rmax_l]. }
    rewrite Rplus_0_r. f_equal. lra. }
  assert (Hlo : 0.8 <= Standalone.cube still (mkvec3 2 y 0)).
  { rewrite Hc. apply sqrt_lower; [lra|].
    pose proof (Rle_0_sqr (Rmax (y - 1) 0)); unfold Rsqr in *; lra. }
  assert (Hhi : Standalone.cube still (mkvec3 2 y 0) <= 0.9).
  { rewrite Hc. apply sqrt_upper; [lra|].
    assert (0 <= Rmax (y - 1) 0 <= 0.1)
      by (unfold Rmax; destruct (Rle_dec _ _); lra).
    nra. }
  destruct (ledSphere_still_lower still (mkvec3 2 y 0) eq_refl eq_refl)
    as (_ & Ly & _).
  cbv [y3] in Ly. rewrite Rabs_pos_eq in Ly by lra.
  rewrite map_outer by lra. cbv [x2]. exact Hc.
Qed.

Lemma backwardGradient_crease_y : y3 (backwardGradient still creasePoint) = 0.
Proof.
  unfold backwardGradient, creasePoint; cbv [y3 sub3 x3 z3].
  replace (0 - 0) with 0 by lra. replace (2 - 0) with 2 by lra.
  rewrite (map_crease_column 1), (map_crease_column (1 - 0.001)) by lra.
  replace (Rmax (1 - 1) 0) with 0 by (rewrite Rmax_right; lra).
  replace (Rmax (1 - 0.001 - 1) 0) with 0 by (rewrite Rmax_right; lra).
  lra.
Qed.

Lemma centralGradient_crease_y : 0 < y3 (centralGradient still creasePoint).
Proof.
  unfold centralGradient, creasePoint; cbv [y3 add3 sub3 x3 z3].
  replace (0 - 0) with 0 by lra. replace (2 - 0) with 2 by lra.
  replace (0 + 0) with 0 by lra. replace (2 + 0) with 2 by lra.
  rewrite (map_crease_column (1 + 0.001)), (map_crease_column (1 - 0.001))
    by lra.
  replace (Rmax (1 + 0.001 - 1) 0) with 0.001 by (rewrite Rmax_left; lra).
  replace (Rmax (1 - 0.001 - 1) 0) with 0 by (rewrite Rmax_right; lra).
  assert (sqrt (0.8 * 0.8 + 0 * 0) < sqrt (0.8 * 0.8 + 0.001 * 0.001))
    by (apply sqrt_lt_1_alt; lra).
  lra.
Qed.

Lemma standalone_normal_crease_y :
  y3 (Standalone.calcNormal still creasePoint) = 0.
Proof.
  rewrite calcNormal_backward. cbv [normalize3 y3].
  fold (y3 (backwardGradient still creasePoint)).
  rewrite backwardGradient_crease_y. unfold Rdiv. apply Rmult_0_l.
Qed.

Lemma central_normal_crease_y :
  0 < y3 (normalize3 (centralGradient still creasePoint)).
Proof.
  pose proof centralGradient_crease_y as Hy.
  pose proof (length3_ge_y (centralGradient still creasePoint)) as Hl.
  rewrite Rabs_pos_eq in Hl by lra.
  cbv [normalize3 y3]. fold (y3 (centralGradient still creasePoint)).
  apply Rdiv_lt_0_compat; lra.
Qed.
Lemma map_crease_row (x : R) :
  1.95 <= x <= 2.05 ->
  x2 (Standalone.map still (mkvec3 x 1 0)) = x - 1.2.
Proof.
  intros Hx.
  assert (Hc : Standalone.cube still (mkvec3 x 1 0) = x - 1.2).
  { rewrite cube_still_eq. unfold Standalone.sdBox; vec_eval.
    rewrite (Rabs_pos_eq x), (Rabs_pos_eq 1), Rabs_R0 by lra.
    eval_order.
    rewrite (sqrt_of_square (x - 1.2)); [lra | lra | nra]. }
  destruct (ledSphere_still_lower still (mkvec3 x 1 0) eq_refl eq_refl)
    as (_ & Ly & _).
  cbv [y3] in Ly. rewrite Rabs_pos_eq in Ly by lra.
  rewrite map_outer by lra. cbv [x2]. exact Hc.
Qed.

Lemma backwardGradient_crease_x :
  x3 (backwardGradient still creasePoint) = 0.001.
Proof.
  unfold backwardGradient, creasePoint; cbv [x3 y3 z3 sub3].
  replace (0 - 0) with 0 by lra. replace (1 - 0) with 1 by lra.
  rewrite (map_crease_row 2), (map_crease_row (2 - 0.001)) by lra.
  lra.
Qed.

Lemma backwardGradient_crease_nonzero :
  backwardGradient still creasePoint <> mkvec3 0 0 0.
Proof.
  intros E. pose proof backwardGradient_crease_x as H.
  rewrite E in H; cbv [x3] in H. lra.
Qed.

Lemma centralGradient_crease_nonzero :
  centralGradient still creasePoint <> mkvec3 0 0 0.
Proof.
  intros E. pose proof centralGradient_crease_y as H.
  rewrite E in H; cbv [y3] in H. lra.
Qed.

(** C4, as amended: the core embedded in [main.mjs] computes the
    normalized central difference of [map]'s distance with step 0.001, as
    the specification's formula says; the standalone core computes the
    normalized one-sided difference [map(p) - map(p - 0.001 e)] instead.
    Either result has length 1 whenever its difference vector is not the
    zero vector. *)
Theorem calcNormal_difference_quotients :
  forall (u : Uniforms) (p : vec3),
    Embedded.calcNormal u p = normalize3 (centralGradient u p) /\
    Standalone.calcNormal u p = normalize3 (backwardGradient u p) /\
    (centralGradient u p <> mkvec3 0 0 0 ->
     length3 (Embedded.calcNormal u p) = 1) /\
    (backwardGradient u p <> mkvec3 0 0 0 ->
     length3 (Standalone.calcNormal u p) = 1).
Proof.
  intros u p.
  rewrite calcNormal_central, calcNormal_backward.
  repeat split; intros; apply normalize3_unit; assumption.
Qed.

Lemma calcNormal_difference_quotients_witness :
  length3 (Embedded.calcNormal still creasePoint) = 1 /\
  length3 (Standalone.calcNormal still creasePoint) = 1.
Proof.
  destruct (calcNormal_difference_quotients still creasePoint)
    as (_ & _ & Hc & Hb).
  split;
    [ apply Hc; exact centralGradient_crease_nonzero
    | apply Hb; exact backwardGradient_crease_nonzero ].
Defined.

(** One normal-estimation step away from the centre of the cylinder, along
    any axis and in either direction, the point is inside the cylinder and
    the cylinder is what [map] returns: its radial distance minus the
    radius 0.2. *)
Lemma map_beside_cylinderCentre (x y z : R) :
  - 0.001 <= x <= 0.001 -> - 0.001 <= y <= 0.001 ->
  - 0.001 <= z + 0.75 <= 0.001 ->
  x2 (Standalone.map still (mkvec3 x y z))
  = sqrt (x * 0.125 * (x * 0.125) + (z + 0.75) * (z + 0.75)) - 0.2.
Proof.
  intros Hx Hy Hz.
  set (p := mkvec3 x y z).
  set (L := sqrt (x * 0.125 * (x * 0.125) + (z + 0.75) * (z + 0.75))).
  assert (HL : 0 <= L <= 0.002).
  { split; [apply sqrt_pos | apply sqrt_upper; [lra | nra]]. }
  assert (Hcyl : Standalone.cylinder still p = L - 0.2).
  { rewrite cylinder_of_rotatedP, rotatedP_still by reflexivity.
    unfold cylinder_unrotated, Standalone.sdCappedCylinder; cbv zeta.
    subst p; vec_eval. fold L.
    rewrite (Rabs_pos_eq L) by lra.
    assert (Hay : Rabs y <= 0.001) by (apply Rabs_le; lra).
    rewrite (Rmax_left (L - 0.2) (Rabs y - 1.0)) by lra.
    rewrite (Rmin_left (L - 0.2) 0.0) by lra.
    rewrite (Rmax_right (L - 0.2) 0.0) by lra.
    rewrite (Rmax_right (Rabs y - 1.0) 0.0) by lra.
    rewrite (sqrt_of_square 0); lra. }
  assert (Hcube : Standalone.cube still p <= -0.249).
  { rewrite cube_still_eq. unfold Standalone.sdBox; cbv zeta.
    subst p; vec_eval.
    assert (Hax : Rabs x <= 0.001) by (apply Rabs_le; lra).
    assert (Hay : Rabs y <= 0.001) by (apply Rabs_le; lra).
    rewrite (Rabs_left1 z) by lra.
    rewrite (Rmax_right (Rabs x - 1.2) 0.0) by lra.
    rewrite (Rmax_right (Rabs y - 1.0) 0.0) by lra.
    rewrite (Rmax_right (- z - 1.0) 0.0) by lra.
    rewrite (sqrt_of_square 0) by lra.
    set (m := Rmax (Rabs x - 1.2) (Rmax (Rabs y - 1.0) (- z - 1.0))).
    assert (Hm : m <= - 0.249) by (subst m; repeat apply Rmax_lub; lra).
    rewrite (Rmin_left m 0.0) by lra. lra. }
  assert (Hoct : Standalone.octahedron still p <= - 0.5).
  { unfold Standalone.octahedron, Standalone.sdOctahedron,
      Standalone.rollMatrix; cbv zeta.
    rewrite rotatedP_still by reflexivity.
    subst p; vec_eval.
    set (c := cos (Standalone.PI / 4.0)).
    set (s := sin (Standalone.PI / 4.0)).
    pose proof (COS_bound (Standalone.PI / 4.0)) as Hc.
    pose proof (SIN_bound (Standalone.PI / 4.0)) as Hs.
    fold c in Hc. fold s in Hs.
    assert (Hx' : - 0.001 <= (x - 0.0) / 1.2 <= 0.001) by lra.
    assert (Hy' : - 0.001 <= y - 0.0 <= 0.001) by lra.
    set (a := (x - 0.0) / 1.2) in *. set (b := y - 0.0) in *.
    assert (H1 : Rabs (a * c + b * s + (z - -1.0) * 0.0) <= 0.002)
      by (apply Rabs_le; nra).
    assert (H2 : Rabs (a * - s + b * c + (z - -1.0) * 0.0) <= 0.002)
      by (apply Rabs_le; nra).
    assert (H3 : Rabs (a * 0.0 + b * 0.0 + (z - -1.0) * 1.0) <= 0.251)
      by (apply Rabs_le; lra).
    lra. }
  assert (Hled : - 0.02 <= Standalone.ledSphere still p).
  { unfold Standalone.ledSphere, Standalone.sdSphere; cbv zeta.
    pose proof (length3_nonneg
                  (sub3 (Standalone.rotatedP still p)
                        (mkvec3 1.1 (-0.9) (-1.0)))).
    lra. }
  rewrite map_distance_min.
  unfold Standalone.cubeWithHole, Standalone.cylinderInCube.
  rewrite Hcyl.
  rewrite (Rmax_left (L - 0.2) (Standalone.cube still p)) by lra.
  pose proof (Rmax_r (Standalone.cube still p)
                (- Standalone.octahedron still p)) as Hw.
  rewrite (Rmin_right (Rmax _ _) (L - 0.2)) by lra.
  apply Rmin_left. lra.
Qed.

Lemma centralGradient_cylinderCentre :
  centralGradient still cylinderCentre = mkvec3 0 0 0.
Proof.
  unfold centralGradient, cylinderCentre; cbv [add3 sub3 x3 y3 z3].
  rewrite !map_beside_cylinderCentre by lra.
  f_equal;
    match goal with
    | |- sqrt ?A - _ - (sqrt ?B - _) = 0 =>
        replace A with B by lra; lra
    end.
Qed.

Lemma embedded_normal_cylinderCentre :
  length3 (Embedded.calcNormal still cylinderCentre) = 0.
Proof.
  rewrite calcNormal_central, centralGradient_cylinderCentre.
  vec_eval. unfold Rdiv. rewrite !Rmult_0_l, !Rplus_0_l. apply sqrt_0.
Qed.

(** C4 as stated fails.  For the standalone core the formula is not the
    central difference: at the crease point its normal has no Y component,
    while the normalized central difference has a positive one.  And unit
    length is not unconditional: the cylinder is symmetric about its
    centre [(0, 0, -0.75)], so with no rotation the six samples of the
    central difference agree in pairs and the difference is the zero
    vector, on which [normalize] is undefined in GLSL (the zero vector
    here). *)
Lemma standalone_normal_not_central :
  (y3 (Standalone.calcNormal still creasePoint) = 0 /\
   0 < y3 (normalize3 (centralGradient still creasePoint)) /\
   Standalone.calcNormal still creasePoint
   <> normalize3 (centralGradient still creasePoint)) /\
  (centralGradient still cylinderCentre = mkvec3 0 0 0 /\
   length3 (Embedded.calcNormal still cylinderCentre) <> 1).
Proof.
  pose proof central_normal_crease_y as H.
  split; [split; [exact standalone_normal_crease_y | split; [exact H |]] |].
  - intros E. rewrite <- E, standalone_normal_crease_y in H. lra.
  - split; [exact centralGradient_cylinderCentre |].
    rewrite embedded_normal_cylinderCentre. lra.
Qed.

(** ** What the two cores share *)

Lemma cameraRay_agree : Embedded.cameraRay = Standalone.cameraRay.
Proof. reflexivity. Qed.

Lemma shadeRay_agree_given_normal (u : Uniforms) (ro rd : vec3) :
  (let t := x2 (Standalone.rayMarch u ro rd) in
   let p := add3 ro (scale3 t rd) in
   100 <= t \/ Embedded.calcNormal u p = Standalone.calcNormal u p) ->
  Embedded.shadeRay u ro rd = Standalone.shadeRay u ro rd.
Proof.
  cbv zeta. intros [H | H].
  - rewrite embedded_shadeRay_miss, shadeRay_miss;
      [reflexivity | exact H | rewrite rayMarch_agree; exact H].
  - unfold Embedded.shadeRay, Standalone.shadeRay; cbv zeta.
    rewrite rayMarch_agree, materialBranch_agree, glassMaterial_agree,
      plasticMaterial_agree, ledMaterial_agree, H.
    reflexivity.
Qed.

(** C5, as amended: the two cores differ in the camera Z-offset ([-2.35]
    in the standalone shader, [-2.75] in [main.mjs]) and in [calcNormal]
    (one-sided against central difference).  Everything else is the same
    function in both: the primitives, the rotation matrices, [map],
    [rayMarch], the three material shaders, the material dispatch and the
    camera ray; and the shading of a ray agrees whenever the march misses
    or the two normal estimators agree at the marched point. *)
Theorem cores_agree_up_to_camera_and_normal :
  Embedded.sdBox = Standalone.sdBox /\
  Embedded.sdOctahedron = Standalone.sdOctahedron /\
  Embedded.sdCappedCylinder = Standalone.sdCappedCylinder /\
  Embedded.sdSphere = Standalone.sdSphere /\
  Embedded.pitchMatrix = Standalone.pitchMatrix /\
  Embedded.yawMatrix = Standalone.yawMatrix /\
  Embedded.rollMatrix = Standalone.rollMatrix /\
  Embedded.map = Standalone.map /\
  Embedded.rayMarch = Standalone.rayMarch /\
  Embedded.glassMaterial = Standalone.glassMaterial /\
  Embedded.plasticMaterial = Standalone.plasticMaterial /\
  Embedded.ledMaterial = Standalone.ledMaterial /\
  Embedded.materialBranch = Standalone.materialBranch /\
  Embedded.cameraRay = Standalone.cameraRay /\
  Standalone.cameraPos = mkvec3 0.0 0.0 (-2.35) /\
  Embedded.cameraPos = mkvec3 0.0 0.0 (-2.75) /\
  (forall (u : Uniforms) (p : vec3),
      Standalone.calcNormal u p = normalize3 (backwardGradient u p) /\
      Embedded.calcNormal u p = normalize3 (centralGradient u p)) /\
  (forall (u : Uniforms) (ro rd : vec3),
      (let t := x2 (Standalone.rayMarch u ro rd) in
       let p := add3 ro (scale3 t rd) in
       100 <= t \/ Embedded.calcNormal u p = Standalone.calcNormal u p) ->
      Embedded.shadeRay u ro rd = Standalone.shadeRay u ro rd).
Proof.
  repeat match goal with |- _ /\ _ => split end.
  - exact sdBox_agree.
  - exact sdOctahedron_agree.
  - exact sdCappedCylinder_agree.
  - exact sdSphere_agree.
  - exact pitchMatrix_agree.
  - exact yawMatrix_agree.
  - exact rollMatrix_agree.
  - exact map_agree.
  - exact rayMarch_agree.
  - exact glassMaterial_agree.
  - exact plasticMaterial_agree.
  - exact ledMaterial_agree.
  - exact materialBranch_agree.
  - exact cameraRay_agree.
  - reflexivity.
  - reflexivity.
  - intros u p. split; [apply calcNormal_backward | apply calcNormal_central].
  - exact shadeRay_agree_given_normal.
Qed.

(** C5 as stated fails: [calcNormal] is not the same function in the two
    cores; at the crease point the two normals differ. *)
Lemma cores_differ_in_calcNormal :
  y3 (Standalone.calcNormal still creasePoint) = 0 /\
  0 < y3 (Embedded.calcNormal still creasePoint) /\
  Standalone.calcNormal still creasePoint
  <> Embedded.calcNormal still creasePoint.
Proof.
  rewrite (calcNormal_central still creasePoint).
  pose proof central_normal_crease_y as H.
  split; [exact standalone_normal_crease_y | split; [exact H |]].
  intros E. rewrite <- E, standalone_normal_crease_y in H. lra.
Qed.

(** ** Bounds on the shaded colour *)

Lemma pow_nonneg (b e : R) : 0 <= pow b e.
Proof.
  unfold pow. destruct (Rlt_dec 0 b); [| lra].
  unfold Rpower. left. apply exp_pos.
Qed.

Lemma pow_le_compat (b c e : R) :
  0 <= e -> b <= c -> 0 < c -> pow b e <= pow c e.
Proof.
  intros He Hbc Hc. unfold pow.
  destruct (Rlt_dec 0 b) as [Hb | Hb]; destruct (Rlt_dec 0 c) as [_ | Hc'];
    try lra.
  - apply Rle_Rpower_l; lra.
  - unfold Rpower. left. apply exp_pos.
Qed.

Lemma pow_le_one (b e : R) : 0 <= e -> b <= 1 -> pow b e <= 1.
Proof.
  intros He Hb. rewrite <- (pow_one e). apply pow_le_compat; lra.
Qed.

Lemma length3_normalize_le (v : vec3) : length3 (normalize3 v) <= 1.
Proof.
  destruct v as [a b c].
  destruct (Req_dec a 0) as [Ea | Ea];
    [destruct (Req_dec b 0) as [Eb | Eb];
     [destruct (Req_dec c 0) as [Ec | Ec]|]|].
  1:{ subst. vec_eval. unfold Rdiv. rewrite !Rmult_0_l, !Rplus_0_l, sqrt_0.
      lra. }
  all: rewrite normalize3_unit; [lra | intros E; inversion E; contradiction].
Qed.

Lemma dot3_le_lengths (a b : vec3) : dot3 a b <= length3 a * length3 b.
Proof.
  destruct a as [a1 a2 a3], b as [b1 b2 b3]; vec_eval.
  rewrite <- sqrt_mult; [| nra | nra].
  apply Rle_trans with (Rabs (a1 * b1 + a2 * b2 + a3 * b3));
    [apply Rle_abs|].
  apply sqrt_lower; [apply Rabs_pos|].
  rewrite <- Rabs_mult. rewrite Rabs_pos_eq; [| apply Rle_0_sqr].
  pose proof (Rle_0_sqr (a1 * b2 - a2 * b1)) as H1.
  pose proof (Rle_0_sqr (a1 * b3 - a3 * b1)) as H2.
  pose proof (Rle_0_sqr (a2 * b3 - a3 * b2)) as H3.
  unfold Rsqr in H1, H2, H3. lra.
Qed.

Lemma dot3_le_one (a b : vec3) :
  length3 a <= 1 -> length3 b <= 1 -> dot3 a b <= 1.
Proof.
  intros Ha Hb. pose proof (dot3_le_lengths a b).
  pose proof (length3_nonneg a); pose proof (length3_nonneg b). nra.
Qed.











(** ** The distance field in front of the front face *)

(** In the prism over the front face, and just behind it, the box distance
    is the signed distance to the plane [z = -1] of cube space. *)
Lemma sdBox_front (q : vec3) :
  z3 q <= 0 ->
  Rabs (x3 q) - 1.2 <= Rmin (- z3 q - 1) 0 ->
  Rabs (y3 q) - 1 <= Rmin (- z3 q - 1) 0 ->
  Standalone.sdBox q (mkvec3 1.2 1.0 1.0) = - z3 q - 1.
Proof.
  destruct q as [qx qy qz]; cbv [x3 y3 z3].
  intros Hz Hx Hy. unfold Standalone.sdBox; vec_eval.
  rewrite (Rabs_left1 qz Hz).
  revert Hx Hy. generalize (Rabs qx) (Rabs qy). intros ax ay Hx Hy.
  destruct (Rle_dec 0 (- qz - 1)) as [Hh | Hh].
  - rewrite Rmin_right in Hx, Hy by lra.
    eval_order.
    rewrite (sqrt_of_square (- qz - 1)); [lra | lra | nra].
  - rewrite Rmin_left in Hx, Hy by lra.
    eval_order.
    replace (0.0 * 0.0 + 0.0 * 0.0 + 0.0 * 0.0) with 0 by lra.
    rewrite sqrt_0. lra.
Qed.

(** A linear lower bound on the octahedron term: the folded sum
    [|x'| + |y'|] dominates every projection of the unrolled pair. *)
Lemma fold_sum_lower (c s X Y e1 e2 : R) :
  c * c + s * s = 1 -> e1 * e1 + e2 * e2 <= 1 ->
  e1 * X + e2 * Y <= Rabs (c * X + s * Y) + Rabs (- s * X + c * Y).
Proof.
  intros Hcs He.
  set (S := Rabs (c * X + s * Y) + Rabs (- s * X + c * Y)).
  assert (HS : 0 <= S)
    by (subst S; pose proof (Rabs_pos (c * X + s * Y));
        pose proof (Rabs_pos (- s * X + c * Y)); lra).
  assert (HSS : X * X + Y * Y <= S * S).
  { subst S.
    pose proof (Rabs_pos (c * X + s * Y)) as H1.
    pose proof (Rabs_pos (- s * X + c * Y)) as H2.
    assert (E1 : Rabs (c * X + s * Y) * Rabs (c * X + s * Y)
                 = (c * X + s * Y) * (c * X + s * Y))
      by (unfold Rabs; destruct (Rcase_abs _); ring).
    assert (E2 : Rabs (- s * X + c * Y) * Rabs (- s * X + c * Y)
                 = (- s * X + c * Y) * (- s * X + c * Y))
      by (unfold Rabs; destruct (Rcase_abs _); ring).
    assert (E3 : (c * X + s * Y) * (c * X + s * Y)
                 + (- s * X + c * Y) * (- s * X + c * Y)
                 = (c * c + s * s) * (X * X + Y * Y)) by ring.
    rewrite Hcs in E3.
    generalize dependent (Rabs (c * X + s * Y)).
    generalize dependent (Rabs (- s * X + c * Y)). intros. nra. }
  assert (HE : (e1 * X + e2 * Y) * (e1 * X + e2 * Y) <= X * X + Y * Y).
  { pose proof (Rle_0_sqr (e1 * Y - e2 * X)) as H1. unfold Rsqr in H1.
    assert (E : (e1 * X + e2 * Y) * (e1 * X + e2 * Y)
                + (e1 * Y - e2 * X) * (e1 * Y - e2 * X)
                = (e1 * e1 + e2 * e2) * (X * X + Y * Y)) by ring.
    pose proof (Rle_0_sqr X) as HX; pose proof (Rle_0_sqr Y) as HY.
    unfold Rsqr in HX, HY. nra. }
  clearbody S.
  destruct (Rle_dec (e1 * X + e2 * Y) S) as [|Hn]; [assumption|].
  exfalso. nra.
Qed.

Lemma octahedron_lower (u : Uniforms) (p : vec3) (e1 e2 : R) :
  e1 * e1 + e2 * e2 <= 1 ->
  let q := Standalone.rotatedP u p in
  (e1 * (x3 q / 1.2) + e2 * y3 q + (- z3 q - 1) - 1.2) * 0.57735027
  <= Standalone.octahedron u p.
Proof.
  intros He. cbv zeta.
  unfold Standalone.octahedron, Standalone.sdOctahedron,
    Standalone.rollMatrix; cbv zeta.
  destruct (Standalone.rotatedP u p) as [qx qy qz]; vec_eval.
  set (c := cos (Standalone.PI / 4.0)). set (s := sin (Standalone.PI / 4.0)).
  assert (Hcs : c * c + s * s = 1).
  { pose proof (sin2_cos2 (Standalone.PI / 4.0)) as H.
    unfold Rsqr in H. subst c s. lra. }
  pose proof (fold_sum_lower c s (qx / 1.2) qy e1 e2 Hcs He) as Hf.
  replace ((qx - 0.0) / 1.2 * c + (qy - 0.0) * s + (qz - -1.0) * 0.0)
    with (c * (qx / 1.2) + s * qy) by lra.
  replace ((qx - 0.0) / 1.2 * - s + (qy - 0.0) * c + (qz - -1.0) * 0.0)
    with (- s * (qx / 1.2) + c * qy) by lra.
  replace ((qx - 0.0) / 1.2 * 0.0 + (qy - 0.0) * 0.0 + (qz - -1.0) * 1.0)
    with (qz + 1) by lra.
  pose proof (Rle_abs (- (qz + 1))) as Hz. rewrite Rabs_Ropp in Hz.
  lra.
Qed.

(** Where the box distance is the front-plane distance [h], the
    octahedron does not cut, and the LED is far, [map] returns [h] with
    material Plastic. *)
Lemma front_face_field (u : Uniforms) (p : vec3) (e1 e2 : R) :
  e1 * e1 + e2 * e2 <= 1 ->
  let q := Standalone.rotatedP u p in
  let h := - z3 q - 1 in
  z3 q <= 0 ->
  Rabs (x3 q) - 1.2 <= Rmin h 0 ->
  Rabs (y3 q) - 1 <= Rmin h 0 ->
  (1.2 - (e1 * (x3 q / 1.2) + e2 * y3 q) - h) * 0.57735027 <= h ->
  x3 q <= - 0.3 -> h <= 1.38 ->
  Standalone.map u p = mkvec2 h Standalone.MATERIAL_PLASTIC.
Proof.
  intros He q h Hz Hx Hy Ho Hq Hh.
  assert (Hc : Standalone.cube u p = h).
  { unfold Standalone.cube. fold q. apply sdBox_front; assumption. }
  pose proof (octahedron_lower u p e1 e2 He) as Hoct. cbv zeta in Hoct.
  fold q in Hoct.
  destruct (ledSphere_lower u p) as (Lx & _ & _). cbv zeta in Lx. fold q in Lx.
  rewrite Rabs_left1 in Lx by lra.
  assert (Hw : Standalone.cubeWithHole u p = h).
  { unfold Standalone.cubeWithHole. rewrite Hc. apply Rmax_left.
    fold h in Hoct. lra. }
  rewrite map_plastic; rewrite Hw; try reflexivity; try lra.
  unfold Standalone.cylinderInCube. rewrite Hc. apply Rmax_r.
Qed.

(** ** Marching along a ray on which the field is affine *)

Lemma marchLoop_affine (u : Uniforms) (ro rd : vec3) (A B : R) :
  0 < B <= 1 -> 0 <= A -> A / B < 100 ->
  (forall t, 0 <= t <= A / B ->
     Standalone.map u (add3 ro (scale3 t rd))
     = mkvec2 (A - B * t) Standalone.MATERIAL_PLASTIC) ->
  forall (k : nat) (t m : R), 0 <= t <= A / B ->
    exists t',
      Standalone.marchLoop u ro rd (S k) t m
      = mkvec2 t' Standalone.MATERIAL_PLASTIC /\ 0 <= t' <= A / B.
Proof.
  intros HB HA HT Hfield.
  assert (HTB : A / B * B = A) by (field; lra).
  induction k as [|k IH]; intros t m Ht.
  - cbn [Standalone.marchLoop]; cbv zeta.
    rewrite (Hfield t Ht); cbv [x2 y2].
    assert (Ht' : 0 <= t + (A - B * t) <= A / B) by nra.
    destruct (ltb _ _ || ltb _ _);
      [exists t | exists (t + (A - B * t))]; split; auto.
  - cbn [Standalone.marchLoop]; cbv zeta.
    rewrite (Hfield t Ht); cbv [x2 y2].
    destruct (ltb (A - B * t) Standalone.eps || ltb Standalone.maxDist t).
    + exists t; split; auto.
    + assert (Ht' : 0 <= t + (A - B * t) <= A / B) by nra.
      destruct (IH (t + (A - B * t)) Standalone.MATERIAL_PLASTIC Ht')
        as (t' & E & Hb).
      exists t'; split; [exact E | exact Hb].
Qed.
(** ** A plastic pixel brighter than one *)

Lemma rotatedP_tilted (p : vec3) :
  Standalone.rotatedP tilted p =
  mkvec3
    (35 / 37 * x3 p + 12 / 37 * z3 p)
    (35 / 37 * y3 p + 12 / 37 * (- 12 / 37 * x3 p + 35 / 37 * z3 p))
    (- 12 / 37 * y3 p + 35 / 37 * (- 12 / 37 * x3 p + 35 / 37 * z3 p)).
Proof.
  rewrite rotatedP_components.
  unfold tilted; cbv [u_pitch_angle u_yaw_angle].
  rewrite cos_neg, sin_neg, cos_atan_12_35, sin_atan_12_35.
  f_equal; lra.
Qed.

Lemma cameraRay_brightPixel :
  Standalone.cameraRay tilted brightPixel = brightRay.
Proof.
  unfold Standalone.cameraRay, tilted, brightPixel, brightRay; vec_eval.
  cbv [u_resolution x2 y2].
  set (L := sqrt _).
  assert (HL : L = 29 / 21).
  { subst L. apply sqrt_of_square; lra. }
  rewrite HL. f_equal; lra.
Qed.

(** Along the camera ray of [brightPixel], and up to one normal-estimation
    step beside it, the scene is the front face's plane: the distance is
    affine and the material is Plastic. *)
Lemma field_near_brightRay (x : vec3) (t dx dy dz : R) :
  0 <= t <= 19459 / 16788 ->
  - 0.001 <= dx <= 0.001 -> - 0.001 <= dy <= 0.001 ->
  - 0.001 <= dz <= 0.001 ->
  x3 x = - 16 / 29 * t - dx ->
  y3 x = - 12 / 29 * t - dy ->
  z3 x = - 2.35 + 21 / 29 * t - dz ->
  Standalone.map tilted x =
  mkvec2 (6039 / 5476 - 37773 / 39701 * t
          - (420 / 1369 * dx + 12 / 37 * dy - 1225 / 1369 * dz))
         Standalone.MATERIAL_PLASTIC.
Proof.
  intros Ht Hdx Hdy Hdz Ex Ey Ez.
  assert (He : (- 0.72) * (- 0.72) + (- 0.69) * (- 0.69) <= 1) by lra.
  pose proof (front_face_field tilted x (- 0.72) (- 0.69) He) as H.
  cbv zeta in H. rewrite rotatedP_tilted in H. cbn [x3 y3 z3] in H.
  rewrite Ex, Ey, Ez in H.
  rewrite H; [f_equal; lra | lra | | | lra | lra | lra].
  - rewrite Rabs_left1 by lra.
    unfold Rmin; destruct (Rle_dec _ _); lra.
  - rewrite Rabs_left1 by lra.
    unfold Rmin; destruct (Rle_dec _ _); lra.
Qed.
Lemma rayMarch_brightRay :
  exists t,
    Standalone.rayMarch tilted Standalone.cameraPos brightRay
    = mkvec2 t Standalone.MATERIAL_PLASTIC /\ 0 <= t <= 19459 / 16788.
Proof.
  assert (HT : 6039 / 5476 / (37773 / 39701) = 19459 / 16788) by lra.
  unfold Standalone.rayMarch, Standalone.maxSteps.
  change 100%nat with (S 99).
  rewrite <- HT.
  apply marchLoop_affine; try lra.
  intros t Ht. rewrite HT in Ht.
  rewrite (field_near_brightRay _ t 0 0 0 Ht);
    try (unfold Standalone.cameraPos, brightRay; vec_eval; lra).
  f_equal; lra.
Qed.

Lemma backwardGradient_brightRay (t : R) :
  0 <= t <= 19459 / 16788 ->
  backwardGradient tilted
    (add3 Standalone.cameraPos (scale3 t brightRay))
  = scale3 0.001 tiltedNormal.
Proof.
  intros Ht. unfold backwardGradient.
  rewrite (field_near_brightRay
             (add3 Standalone.cameraPos (scale3 t brightRay)) t 0 0 0 Ht);
    try (unfold Standalone.cameraPos, brightRay; vec_eval; lra).
  rewrite (field_near_brightRay (sub3 _ (mkvec3 0.001 0 0)) t 0.001 0 0 Ht);
    try (unfold Standalone.cameraPos, brightRay; vec_eval; lra).
  rewrite (field_near_brightRay (sub3 _ (mkvec3 0 0.001 0)) t 0 0.001 0 Ht);
    try (unfold Standalone.cameraPos, brightRay; vec_eval; lra).
  rewrite (field_near_brightRay (sub3 _ (mkvec3 0 0 0.001)) t 0 0 0.001 Ht);
    try (unfold Standalone.cameraPos, brightRay; vec_eval; lra).
  unfold tiltedNormal; vec_eval. f_equal; lra.
Qed.

Lemma calcNormal_brightRay (t : R) :
  0 <= t <= 19459 / 16788 ->
  Standalone.calcNormal tilted
    (add3 Standalone.cameraPos (scale3 t brightRay))
  = tiltedNormal.
Proof.
  intros Ht.
  rewrite calcNormal_backward, (backwardGradient_brightRay t Ht).
  unfold tiltedNormal; vec_eval.
  rewrite (sqrt_of_square 0.001); [f_equal; lra | lra | lra].
Qed.







(** The tilt of [tilted] stays inside the clamp of [pi/8] that the page
    applies to both angles. *)




(** ** The hit and agreement statements are met *)

Lemma centralGradient_brightRay (t : R) :
  0 <= t <= 19459 / 16788 ->
  centralGradient tilted
    (add3 Standalone.cameraPos (scale3 t brightRay))
  = scale3 0.002 tiltedNormal.
Proof.
  intros Ht. unfold centralGradient.
  rewrite (field_near_brightRay (add3 _ (mkvec3 0.001 0 0)) t (- 0.001) 0 0 Ht);
    try (unfold Standalone.cameraPos, brightRay; vec_eval; lra).
  rewrite (field_near_brightRay (add3 _ (mkvec3 0 0.001 0)) t 0 (- 0.001) 0 Ht);
    try (unfold Standalone.cameraPos, brightRay; vec_eval; lra).
  rewrite (field_near_brightRay (add3 _ (mkvec3 0 0 0.001)) t 0 0 (- 0.001) Ht);
    try (unfold Standalone.cameraPos, brightRay; vec_eval; lra).
  rewrite (field_near_brightRay (sub3 _ (mkvec3 0.001 0 0)) t 0.001 0 0 Ht);
    try (unfold Standalone.cameraPos, brightRay; vec_eval; lra).
  rewrite (field_near_brightRay (sub3 _ (mkvec3 0 0.001 0)) t 0 0.001 0 Ht);
    try (unfold Standalone.cameraPos, brightRay; vec_eval; lra).
  rewrite (field_near_brightRay (sub3 _ (mkvec3 0 0 0.001)) t 0 0 0.001 Ht);
    try (unfold Standalone.cameraPos, brightRay; vec_eval; lra).
  unfold tiltedNormal; vec_eval. f_equal; lra.
Qed.

Lemma embedded_calcNormal_brightRay (t : R) :
  0 <= t <= 19459 / 16788 ->
  Embedded.calcNormal tilted
    (add3 Standalone.cameraPos (scale3 t brightRay))
  = tiltedNormal.
Proof.
  intros Ht.
  rewrite calcNormal_central, (centralGradient_brightRay t Ht).
  unfold tiltedNormal; vec_eval.
  rewrite (sqrt_of_square 0.002); [f_equal; lra | lra | lra].
Qed.

Lemma cores_agree_up_to_camera_and_normal_witness :
  Embedded.shadeRay still awayOrigin awayDir
  = Standalone.shadeRay still awayOrigin awayDir /\
  Embedded.shadeRay tilted Standalone.cameraPos brightRay
  = Standalone.shadeRay tilted Standalone.cameraPos brightRay.
Proof.
  pose proof cores_agree_up_to_camera_and_normal as H.
  repeat match type of H with _ /\ ?B => apply proj2 in H end.
  split; apply H; cbv zeta.
  - left. pose proof (rayMarch_away still). lra.
  - right. destruct rayMarch_brightRay as (t & E & Ht).
    rewrite E; cbv [x2].
    rewrite (embedded_calcNormal_brightRay t Ht), (calcNormal_brightRay t Ht).
    reflexivity.
Defined.

Lemma miss_is_transparent_hit_is_opaque_witness :
  Standalone.shadeRay still awayOrigin awayDir = mkvec4 0 0 0 0 /\
  w4 (Standalone.main tilted brightPixel) = 1 /\
  w4 (Embedded.shadeRay tilted Standalone.cameraPos brightRay) = 1.
Proof.
  destruct miss_is_transparent_hit_is_opaque as (Hmain & _ & Hray & _).
  assert (Hhit : x2 (Standalone.rayMarch tilted Standalone.cameraPos brightRay)
                 < 100).
  { destruct rayMarch_brightRay as (t & E & Ht). rewrite E; cbv [x2]. lra. }
  assert (Hmiss : 100 <= x2 (Standalone.rayMarch still awayOrigin awayDir)).
  { pose proof (rayMarch_away still). lra. }
  destruct (Hray still awayOrigin awayDir) as (Hm & _).
  destruct (Hray tilted Standalone.cameraPos brightRay) as (_ & _ & _ & Hh).
  destruct (Hmain tilted brightPixel) as (_ & Hp).
  cbv zeta in Hp. rewrite cameraRay_brightPixel in Hp.
  rewrite rayMarch_agree in Hh.
  split; [exact (Hm Hmiss) | split; [exact (Hp Hhit) | exact (Hh Hhit)]].
Defined.
(** * Further properties of the shader cores *)

(** ** Sign of the primitive distances *)

Lemma length3_max0_zero (qx qy qz : R) :
  qx <= 0 -> qy <= 0 -> qz <= 0 ->
  sqrt (Rmax qx 0 * Rmax qx 0 + Rmax qy 0 * Rmax qy 0 + Rmax qz 0 * Rmax qz 0)
  = 0.
Proof.
  intros Hx Hy Hz. rewrite !Rmax_right by lra.
  replace (0 * 0 + 0 * 0 + 0 * 0) with 0 by lra. apply sqrt_0.
Qed.

Lemma sdBox_sign_core (qx qy qz : R) :
  let d := sqrt (Rmax qx 0 * Rmax qx 0 + Rmax qy 0 * Rmax qy 0
                 + Rmax qz 0 * Rmax qz 0)
           + Rmin (Rmax qx (Rmax qy qz)) 0 in
  (d < 0 <-> qx < 0 /\ qy < 0 /\ qz < 0) /\
  (d <= 0 <-> qx <= 0 /\ qy <= 0 /\ qz <= 0).
Proof.
  intros d.
  destruct (sdBox_ge_axes_core qx qy qz) as (Hx & Hy & Hz).
  cbv zeta in Hx, Hy, Hz. fold d in Hx, Hy, Hz.
  assert (Hin : qx <= 0 -> qy <= 0 -> qz <= 0 ->
                d = Rmax qx (Rmax qy qz)).
  { intros Ix Iy Iz. subst d. rewrite length3_max0_zero by assumption.
    rewrite Rmin_left; [lra|]. apply Rmax_lub; [| apply Rmax_lub]; lra. }
  split; split.
  - intros Hd. repeat split; lra.
  - intros (Ix & Iy & Iz). rewrite Hin by lra.
    unfold Rmax; repeat destruct (Rle_dec _ _); lra.
  - intros Hd. repeat split; lra.
  - intros (Ix & Iy & Iz). rewrite Hin by lra.
    unfold Rmax; repeat destruct (Rle_dec _ _); lra.
Qed.

(** X1.  [sdBox] classifies points exactly: it is negative exactly
    strictly inside the box, and non-positive exactly on the closed box,
    whatever the half extents. *)
Theorem sdBox_sign :
  forall p b : vec3,
    (Standalone.sdBox p b < 0 <->
     Rabs (x3 p) < x3 b /\ Rabs (y3 p) < y3 b /\ Rabs (z3 p) < z3 b) /\
    (Standalone.sdBox p b <= 0 <->
     Rabs (x3 p) <= x3 b /\ Rabs (y3 p) <= y3 b /\ Rabs (z3 p) <= z3 b) /\
    Embedded.sdBox p b = Standalone.sdBox p b.
Proof.
  intros [px py pz] [bx by_ bz].
  split; [| split; [| reflexivity]];
    unfold Standalone.sdBox; vec_eval; replace 0.0 with 0 by lra;
    destruct (sdBox_sign_core (Rabs px - bx) (Rabs py - by_) (Rabs pz - bz))
      as (Hlt & Hle); cbv zeta in Hlt, Hle.
  - rewrite Hlt. split; intros (A & B & C); repeat split; lra.
  - rewrite Hle. split; intros (A & B & C); repeat split; lra.
Qed.

Lemma sdCylinder_sign_core (dx dy : R) :
  let d := Rmin (Rmax dx dy) 0 + sqrt (Rmax dx 0 * Rmax dx 0
                                       + Rmax dy 0 * Rmax dy 0) in
  (d < 0 <-> dx < 0 /\ dy < 0) /\ (d <= 0 <-> dx <= 0 /\ dy <= 0).
Proof.
  intros d.
  assert (Hx : Rmax dx 0 <= sqrt (Rmax dx 0 * Rmax dx 0 + Rmax dy 0 * Rmax dy 0)).
  { apply sqrt_lower; [apply Rmax_r|].
    pose proof (Rle_0_sqr (Rmax dy 0)). unfold Rsqr in *; lra. }
  assert (Hy : Rmax dy 0 <= sqrt (Rmax dx 0 * Rmax dx 0 + Rmax dy 0 * Rmax dy 0)).
  { apply sqrt_lower; [apply Rmax_r|].
    pose proof (Rle_0_sqr (Rmax dx 0)). unfold Rsqr in *; lra. }
  assert (Hin : dx <= 0 -> dy <= 0 -> d = Rmax dx dy).
  { intros Ix Iy. subst d. rewrite !(Rmax_right _ 0) by lra.
    replace (0 * 0 + 0 * 0) with 0 by lra. rewrite sqrt_0.
    rewrite Rmin_left; [lra|]. apply Rmax_lub; lra. }
  assert (Hgx : dx <= d /\ dy <= d).
  { subst d. set (s := sqrt _) in *. clearbody s. revert Hx Hy.
    unfold Rmin, Rmax; repeat destruct (Rle_dec _ _); lra. }
  split; split.
  - intros Hd. split; lra.
  - intros (Ix & Iy). rewrite Hin by lra.
    unfold Rmax; destruct (Rle_dec _ _); lra.
  - intros Hd. split; lra.
  - intros (Ix & Iy). rewrite Hin by lra.
    unfold Rmax; destruct (Rle_dec _ _); lra.
Qed.

(** X2.  [sdCappedCylinder] classifies points exactly: it is negative
    exactly where the distance from the Y axis is below the radius and
    [|y|] is below the half height, and non-positive exactly on the closed
    cylinder. *)
Theorem sdCappedCylinder_sign :
  forall (p : vec3) (h r : R),
    let axial := sqrt (x3 p * x3 p + z3 p * z3 p) in
    (Standalone.sdCappedCylinder p h r < 0 <-> axial < r /\ Rabs (y3 p) < h) /\
    (Standalone.sdCappedCylinder p h r <= 0 <->
     axial <= r /\ Rabs (y3 p) <= h) /\
    Embedded.sdCappedCylinder p h r = Standalone.sdCappedCylinder p h r.
Proof.
  intros [px py pz] h r. cbv zeta.
  split; [| split; [| reflexivity]];
    unfold Standalone.sdCappedCylinder; vec_eval; replace 0.0 with 0 by lra;
    rewrite (Rabs_pos_eq (sqrt (px * px + pz * pz))) by apply sqrt_pos;
    destruct (sdCylinder_sign_core (sqrt (px * px + pz * pz) - r)
                                   (Rabs py - h)) as (Hlt & Hle);
    cbv zeta in Hlt, Hle.
  - rewrite Hlt. split; intros (A & B); split; lra.
  - rewrite Hle. split; intros (A & B); split; lra.
Qed.

(** ** The rotation matrices *)

Lemma rotatedP_dot (u : Uniforms) (p q : vec3) :
  dot3 (Standalone.rotatedP u p) (Standalone.rotatedP u q) = dot3 p q.
Proof.
  rewrite !rotatedP_components.
  destruct p as [px py pz], q as [qx qy qz]; vec_eval.
  pose proof (sin2_cos2 (u_pitch_angle u)) as Ha.
  pose proof (sin2_cos2 (u_yaw_angle u)) as Hb.
  unfold Rsqr in Ha, Hb.
  set (ca := cos (u_pitch_angle u)) in *.
  set (sa := sin (u_pitch_angle u)) in *.
  set (cb := cos (u_yaw_angle u)) in *.
  set (sb := sin (u_yaw_angle u)) in *.
  clearbody ca sa cb sb.
  nsatz.
Qed.

Lemma rotatedP_length (u : Uniforms) (p : vec3) :
  length3 (Standalone.rotatedP u p) = length3 p.
Proof.
  pose proof (rotatedP_dot u p p) as H. unfold dot3 in H.
  unfold length3. rewrite H. reflexivity.
Qed.

(** X3.  The rotation that [map] applies is orthonormal for every pitch
    and yaw: it preserves dot products, hence lengths, in both cores. *)
Theorem rotation_is_orthonormal :
  forall (u : Uniforms) (p q : vec3),
    dot3 (Standalone.rotatedP u p) (Standalone.rotatedP u q) = dot3 p q /\
    length3 (Standalone.rotatedP u p) = length3 p /\
    dot3 (Embedded.rotatedP u p) (Embedded.rotatedP u q) = dot3 p q /\
    length3 (Embedded.rotatedP u p) = length3 p.
Proof.
  intros u p q. rewrite rotatedP_agree.
  repeat split; try apply rotatedP_dot; apply rotatedP_length.
Qed.

(** X4.  The elementary rotations compose by adding their angles and the
    zero angle is the identity, so each is undone by the opposite angle;
    the copies of the three matrices embedded in [main.mjs] are equal to
    the standalone ones, so the same holds for them. *)
Theorem elementary_rotations_compose :
  forall (a b : R) (p : vec3),
    (mulMV (Standalone.pitchMatrix a) (mulMV (Standalone.pitchMatrix b) p)
     = mulMV (Standalone.pitchMatrix (a + b)) p /\
     mulMV (Standalone.yawMatrix a) (mulMV (Standalone.yawMatrix b) p)
     = mulMV (Standalone.yawMatrix (a + b)) p /\
     mulMV (Standalone.rollMatrix a) (mulMV (Standalone.rollMatrix b) p)
     = mulMV (Standalone.rollMatrix (a + b)) p) /\
    (mulMV (Standalone.pitchMatrix 0) p = p /\
     mulMV (Standalone.yawMatrix 0) p = p /\
     mulMV (Standalone.rollMatrix 0) p = p) /\
    (mulMV (Standalone.pitchMatrix (- a)) (mulMV (Standalone.pitchMatrix a) p)
     = p /\
     mulMV (Standalone.yawMatrix (- a)) (mulMV (Standalone.yawMatrix a) p)
     = p /\
     mulMV (Standalone.rollMatrix (- a)) (mulMV (Standalone.rollMatrix a) p)
     = p) /\
    (Embedded.pitchMatrix a = Standalone.pitchMatrix a /\
     Embedded.yawMatrix a = Standalone.yawMatrix a /\
     Embedded.rollMatrix a = Standalone.rollMatrix a).
Proof.
  intros a b [px py pz].
  assert (Hsame :
    Embedded.pitchMatrix a = Standalone.pitchMatrix a /\
    Embedded.yawMatrix a = Standalone.yawMatrix a /\
    Embedded.rollMatrix a = Standalone.rollMatrix a).
  { rewrite pitchMatrix_agree, yawMatrix_agree, rollMatrix_agree.
    repeat split. }
  assert (Hcomp : forall a b,
    mulMV (Standalone.pitchMatrix a)
      (mulMV (Standalone.pitchMatrix b) (mkvec3 px py pz))
    = mulMV (Standalone.pitchMatrix (a + b)) (mkvec3 px py pz) /\
    mulMV (Standalone.yawMatrix a)
      (mulMV (Standalone.yawMatrix b) (mkvec3 px py pz))
    = mulMV (Standalone.yawMatrix (a + b)) (mkvec3 px py pz) /\
    mulMV (Standalone.rollMatrix a)
      (mulMV (Standalone.rollMatrix b) (mkvec3 px py pz))
    = mulMV (Standalone.rollMatrix (a + b)) (mkvec3 px py pz)).
  { intros a' b'.
    cbv [Standalone.pitchMatrix Standalone.yawMatrix Standalone.rollMatrix].
    vec_eval. rewrite cos_plus, sin_plus.
    replace 0.0 with 0 by lra. replace 1.0 with 1 by lra.
    repeat split; f_equal; ring. }
  assert (Hid :
    mulMV (Standalone.pitchMatrix 0) (mkvec3 px py pz) = mkvec3 px py pz /\
    mulMV (Standalone.yawMatrix 0) (mkvec3 px py pz) = mkvec3 px py pz /\
    mulMV (Standalone.rollMatrix 0) (mkvec3 px py pz) = mkvec3 px py pz).
  { cbv [Standalone.pitchMatrix Standalone.yawMatrix Standalone.rollMatrix].
    vec_eval. rewrite cos_0, sin_0.
    replace 0.0 with 0 by lra. replace 1.0 with 1 by lra.
    repeat split; f_equal; ring. }
  split; [apply Hcomp | split; [exact Hid | split; [| exact Hsame]]].
  destruct (Hcomp (- a) a) as (E1 & E2 & E3).
  rewrite E1, E2, E3. replace (- a + a) with 0 by ring. exact Hid.
Qed.
(** ** The scene lies inside a ball *)

Lemma length3_sq (v : vec3) : length3 v * length3 v = dot3 v v.
Proof.
  unfold length3, dot3. apply sqrt_sqrt.
  pose proof (Rle_0_sqr (x3 v)); pose proof (Rle_0_sqr (y3 v));
    pose proof (Rle_0_sqr (z3 v)). unfold Rsqr in *; lra.
Qed.

(** The triangle inequality of the Euclidean length. *)
Lemma length3_triangle (a b : vec3) :
  length3 (add3 a b) <= length3 a + length3 b.
Proof.
  pose proof (length3_nonneg a) as Ha. pose proof (length3_nonneg b) as Hb.
  pose proof (dot3_le_lengths a b) as Hcs.
  pose proof (length3_sq a) as Ea. pose proof (length3_sq b) as Eb.
  unfold length3 at 1. apply sqrt_upper; [lra|].
  destruct a as [a1 a2 a3], b as [b1 b2 b3].
  cbv [dot3 add3 x3 y3 z3] in *.
  set (la := length3 (mkvec3 a1 a2 a3)) in *.
  set (lb := length3 (mkvec3 b1 b2 b3)) in *.
  clearbody la lb. nra.
Qed.

Lemma length3_monotone (a b : vec3) :
  0 <= x3 a <= x3 b -> 0 <= y3 a <= y3 b -> 0 <= z3 a <= z3 b ->
  length3 a <= length3 b.
Proof.
  intros Hx Hy Hz. unfold length3. apply sqrt_le_1_alt. nra.
Qed.

Lemma length3_abs (v : vec3) : length3 (abs3 v) = length3 v.
Proof.
  destruct v as [a b c]; vec_eval. f_equal.
  assert (E : forall r, Rabs r * Rabs r = r * r)
    by (intros r; unfold Rabs; destruct (Rcase_abs r); ring).
  rewrite !E. reflexivity.
Qed.

Lemma cube_extent_length : length3 (mkvec3 1.2 1.0 1.0) <= 1.8548.
Proof. unfold length3; cbv [x3 y3 z3]. apply sqrt_upper; lra. Qed.

(** The cube's distance is at least the distance to the ball through its
    corners. *)
Lemma sdBox_cube_ball (q : vec3) :
  length3 q - 1.8548 <= Standalone.sdBox q (mkvec3 1.2 1.0 1.0).
Proof.
  rewrite <- (length3_abs q).
  unfold Standalone.sdBox; cbv zeta.
  set (a := abs3 q).
  assert (Ha : 0 <= x3 a /\ 0 <= y3 a /\ 0 <= z3 a).
  { subst a; cbv [abs3 x3 y3 z3]. repeat split; apply Rabs_pos. }
  clearbody a. destruct a as [ax ay az]. cbv [x3 y3 z3] in Ha.
  destruct Ha as (Hx & Hy & Hz).
  set (b := mkvec3 1.2 1.0 1.0).
  set (m := maxf3 (sub3 (mkvec3 ax ay az) b) 0.0).
  destruct (Rle_dec 0 (Rmax (ax - 1.2) (Rmax (ay - 1.0) (az - 1.0))))
    as [Hout | Hin].
  - (* outside or on the surface *)
    assert (Hmin : Rmin (Rmax (x3 (sub3 (mkvec3 ax ay az) b))
                           (Rmax (y3 (sub3 (mkvec3 ax ay az) b))
                                 (z3 (sub3 (mkvec3 ax ay az) b)))) 0.0 = 0).
    { subst b; cbv [sub3 x3 y3 z3]. rewrite Rmin_right; lra. }
    rewrite Hmin.
    assert (Hle : length3 (mkvec3 ax ay az) <= length3 (add3 m b)).
    { apply length3_monotone; subst m b; cbv [maxf3 sub3 add3 x3 y3 z3];
        (split; [assumption |]);
        unfold Rmax; destruct (Rle_dec _ _); lra. }
    pose proof (length3_triangle m b) as Ht.
    pose proof cube_extent_length as Hb. fold b in Hb. lra.
  - (* strictly inside: the depth below the nearest face *)
    assert (Hm : length3 m = 0).
    { subst m b; vec_eval. replace 0.0 with 0 by lra.
      apply length3_max0_zero;
        apply Rnot_le_lt in Hin;
        [ pose proof (Rmax_l (ax - 1.2) (Rmax (ay - 1.0) (az - 1.0)))
        | pose proof (Rmax_r (ax - 1.2) (Rmax (ay - 1.0) (az - 1.0)));
          pose proof (Rmax_l (ay - 1.0) (az - 1.0))
        | pose proof (Rmax_r (ax - 1.2) (Rmax (ay - 1.0) (az - 1.0)));
          pose proof (Rmax_r (ay - 1.0) (az - 1.0)) ]; lra. }
    rewrite Hm. subst b; cbv [sub3 x3 y3 z3].
    apply Rnot_le_lt in Hin.
    rewrite Rmin_left by lra.
    set (s := Rmax (ax - 1.2) (Rmax (ay - 1.0) (az - 1.0))) in *.
    assert (Hs : ax - 1.2 <= s /\ ay - 1.0 <= s /\ az - 1.0 <= s).
    { subst s. repeat split.
      - apply Rmax_l.
      - apply Rle_trans with (Rmax (ay - 1.0) (az - 1.0));
          [apply Rmax_l | apply Rmax_r].
      - apply Rle_trans with (Rmax (ay - 1.0) (az - 1.0));
          [apply Rmax_r | apply Rmax_r]. }
    assert (Hs1 : - 1 <= s) by lra.
    clearbody s.
    assert (length3 (mkvec3 ax ay az) <= 1.8548 + s); [| lra].
    unfold length3; cbv [x3 y3 z3]. apply sqrt_upper; [lra|]. nra.
Qed.

Lemma led_centre_length : length3 (mkvec3 1.1 (-0.9) (-1.0)) <= 1.738.
Proof. unfold length3; cbv [x3 y3 z3]. apply sqrt_upper; lra. Qed.

Lemma map_ball_lower (u : Uniforms) (p : vec3) :
  length3 p - 1.8548 <= x2 (Standalone.map u p).
Proof.
  rewrite <- (rotatedP_length u p).
  apply map_distance_lower.
  - unfold Standalone.cube. apply sdBox_cube_ball.
  - unfold Standalone.ledSphere, Standalone.sdSphere; cbv zeta.
    set (q := Standalone.rotatedP u p).
    set (c := mkvec3 1.1 (-0.9) (-1.0)).
    pose proof (length3_triangle (sub3 q c) c) as Ht.
    replace (add3 (sub3 q c) c) with q in Ht
      by (destruct q; subst c; vec_eval; f_equal; lra).
    pose proof led_centre_length as Hc. fold c in Hc. lra.
Qed.

(** X5.  For every rotation the whole scene lies inside the ball of
    radius 1.8548 around the origin: at a point of length [r] the [map]
    distance is at least [r - 1.8548], in both cores. *)
Theorem scene_inside_ball :
  forall (u : Uniforms) (p : vec3),
    length3 p - 1.8548 <= x2 (Standalone.map u p) /\
    length3 p - 1.8548 <= x2 (Embedded.map u p).
Proof.
  intros u p. rewrite map_agree. split; apply map_ball_lower.
Qed.
(** ** The material shaders *)


Lemma length3_unitX : length3 unitX = 1.
Proof. unfold length3, unitX; cbv [x3 y3 z3]. apply sqrt_of_square; lra. Qed.


(** X7.  [plasticMaterial] keeps a lit floor and a bounded highlight: for
    a normal of length at most one, a diffuse term in [[0,1]] and a light
    that is not exactly opposite to the view (the half vector
    [lightDir + viewDir] is not zero, so that [normalize] is defined), the
    colour lies in [[0.36,1.1] x [0.34,1.05] x [0.28,0.9]], and it does
    not decrease when the diffuse term grows. *)
Theorem plasticMaterial_range :
  forall (u : Uniforms) (n v l : vec3) (diff diff' : R),
    length3 n <= 1 -> 0 <= diff <= diff' -> diff' <= 1 ->
    add3 l v <> mkvec3 0 0 0 ->
    let c := Standalone.plasticMaterial u n v l diff in
    let c' := Standalone.plasticMaterial u n v l diff' in
    (0.36 <= x3 c <= 1.1 /\ 0.34 <= y3 c <= 1.05 /\ 0.28 <= z3 c <= 0.9) /\
    (x3 c <= x3 c' /\ y3 c <= y3 c' /\ z3 c <= z3 c') /\
    Embedded.plasticMaterial u n v l diff = c.
Proof.
  intros u n v l diff diff' Hn Hd Hd' _. cbv zeta.
  unfold Standalone.plasticMaterial; cbv zeta.
  set (h := normalize3 (add3 l v)).
  assert (Hh : length3 h <= 1) by apply length3_normalize_le.
  pose proof (dot3_le_one n h Hn Hh) as Hnh.
  set (s := pow (Rmax 0.0 (dot3 n h)) 16.0).
  assert (Hs : 0 <= s <= 1).
  { split; [apply pow_nonneg | apply pow_le_one; [lra|]].
    apply Rmax_lub; lra. }
  vec_eval. repeat split; try reflexivity; nra.
Qed.

Lemma plasticMaterial_range_witness :
  let c := Standalone.plasticMaterial still unitX unitX unitX 0 in
  let c' := Standalone.plasticMaterial still unitX unitX unitX 1 in
  (0.36 <= x3 c <= 1.1 /\ 0.34 <= y3 c <= 1.05 /\ 0.28 <= z3 c <= 0.9) /\
  (x3 c <= x3 c' /\ y3 c <= y3 c' /\ z3 c <= z3 c') /\
  Embedded.plasticMaterial still unitX unitX unitX 0 = c.
Proof.
  apply (plasticMaterial_range still unitX unitX unitX 0 1).
  - rewrite length3_unitX; lra.
  - lra.
  - lra.
  - intros E. apply (f_equal x3) in E. cbv [unitX add3 x3] in E. lra.
Defined.

(** ** The camera ray *)

Lemma cameraRay_facts (u : Uniforms) (v_uv : vec2) :
  let rd := Standalone.cameraRay u v_uv in
  length3 rd = 1 /\ 0 < z3 rd /\ normalize3 (neg3 rd) = neg3 rd.
Proof.
  cbv zeta.
  unfold Standalone.cameraRay; cbv zeta.
  set (w := mkvec3 _ _ 1.0).
  assert (Hw : w <> mkvec3 0 0 0).
  { subst w. intros E. inversion E. lra. }
  assert (Hl : length3 (normalize3 w) = 1) by (apply normalize3_unit; exact Hw).
  assert (HL : 0 < length3 w).
  { pose proof (length3_ge_z w) as H. subst w. cbv [z3] in H.
    rewrite Rabs_pos_eq in H by lra.
    match type of H with _ <= ?L => assert (0 < L) by lra; assumption end. }
  split; [exact Hl | split].
  - cbv [normalize3 z3]. fold (z3 w). subst w; cbv [z3] in *.
    apply Rdiv_lt_0_compat; [lra | exact HL].
  - set (r := normalize3 w) in *.
    assert (Hneg : length3 (neg3 r) = 1).
    { rewrite <- Hl. destruct r as [a b c]; vec_eval. f_equal. ring. }
    unfold normalize3 at 1. rewrite Hneg.
    destruct (neg3 r) as [a b c]; cbv [x3 y3 z3]. f_equal; lra.
Qed.

(** X8.  Whatever the interpolated coordinate, on a viewport whose
    height is not zero (so that the aspect ratio is defined) the camera ray
    of [main] has length one and points forward (positive Z), so the view
    direction [normalize(-rd)] is exactly the reversed ray; the two cores
    build the same ray. *)
Theorem cameraRay_unit_forward :
  forall (u : Uniforms) (v_uv : vec2),
    y2 (u_resolution u) <> 0 ->
    let rd := Standalone.cameraRay u v_uv in
    length3 rd = 1 /\ 0 < z3 rd /\ normalize3 (neg3 rd) = neg3 rd /\
    Embedded.cameraRay u v_uv = rd.
Proof.
  intros u v_uv _. cbv zeta.
  destruct (cameraRay_facts u v_uv) as (H1 & H2 & H3).
  repeat split; assumption.
Qed.

Lemma cameraRay_unit_forward_witness :
  let rd := Standalone.cameraRay still centrePixel in
  length3 rd = 1 /\ 0 < z3 rd /\ normalize3 (neg3 rd) = neg3 rd /\
  Embedded.cameraRay still centrePixel = rd.
Proof.
  apply (cameraRay_unit_forward still centrePixel).
  cbv [still u_resolution y2]. lra.
Defined.

(** ** What [rayMarch] returns *)

Lemma ltb_true_inv (a b : R) : ltb a b = true -> a < b.
Proof. unfold ltb; destruct (Rlt_dec a b); [auto | discriminate]. Qed.

Lemma ltb_false_inv (a b : R) : ltb a b = false -> b <= a.
Proof. unfold ltb; destruct (Rlt_dec a b); [discriminate | lra]. Qed.

Lemma marchT_lower (u : Uniforms) (ro rd : vec3) (k : nat) :
  (forall j, (j < k)%nat -> ~ marchBreaks u ro rd j) ->
  0.001 * INR k <= marchT u ro rd k.
Proof.
  induction k as [| k IH]; intros H.
  - cbn [marchT INR]. lra.
  - rewrite S_INR. cbn [marchT].
    assert (Hk : ~ marchBreaks u ro rd k) by (apply H; lia).
    assert (IH' : 0.001 * INR k <= marchT u ro rd k)
      by (apply IH; intros j Hj; apply H; lia).
    unfold marchBreaks, marchSample in Hk.
    apply Decidable.not_or in Hk. destruct Hk as (Hd & _).
    lra.
Qed.

Lemma marchLoop_trace (u : Uniforms) (ro rd : vec3) (n : nat) :
  forall (k : nat) (t m : R),
    t = marchT u ro rd k ->
    (forall j, (j < k)%nat -> ~ marchBreaks u ro rd j) ->
    (exists i, (k <= i < k + n)%nat /\
       (forall j, (j < i)%nat -> ~ marchBreaks u ro rd j) /\
       marchBreaks u ro rd i /\
       Standalone.marchLoop u ro rd n t m
       = mkvec2 (marchT u ro rd i) (y2 (marchSample u ro rd i))) \/
    ((forall j, (j < k + n)%nat -> ~ marchBreaks u ro rd j) /\
     Standalone.marchLoop u ro rd n t m
     = mkvec2 (marchT u ro rd (k + n))
         match n with
         | O => m
         | S n' => y2 (marchSample u ro rd (k + n'))
         end).
Proof.
  induction n as [| n IH]; intros k t m -> Hk.
  - right. cbn [Standalone.marchLoop]. rewrite Nat.add_0_r.
    split; [exact Hk | reflexivity].
  - cbn [Standalone.marchLoop]. cbv zeta.
    fold (marchSample u ro rd k).
    destruct (ltb (x2 (marchSample u ro rd k)) Standalone.eps
              || ltb Standalone.maxDist (marchT u ro rd k)) eqn:E.
    + left. exists k. split; [lia |]. split; [exact Hk |].
      split; [| reflexivity].
      apply orb_true_iff in E. unfold Standalone.eps, Standalone.maxDist in E.
      destruct E as [E | E]; apply ltb_true_inv in E; [left | right]; lra.
    + apply orb_false_iff in E. destruct E as (E1 & E2).
      apply ltb_false_inv in E1, E2.
      unfold Standalone.eps, Standalone.maxDist in E1, E2.
      assert (Hk' : forall j, (j < S k)%nat -> ~ marchBreaks u ro rd j).
      { intros j Hj. destruct (Nat.eq_dec j k) as [-> | Hne].
        - unfold marchBreaks. lra.
        - apply Hk. lia. }
      destruct (IH (S k)
                  (marchT u ro rd k + x2 (marchSample u ro rd k))
                  (y2 (marchSample u ro rd k)) eq_refl Hk')
        as [(i & Hi & Hb & Hs & Er) | (Hall & Er)].
      * left. exists i. split; [lia |]. repeat split; assumption.
      * right. rewrite Er.
        replace (k + S n)%nat with (S k + n)%nat by lia.
        split; [exact Hall |]. f_equal.
        destruct n as [| n'].
        -- rewrite Nat.add_0_r. reflexivity.
        -- replace (S k + n')%nat with (k + S n')%nat by lia. reflexivity.
Qed.

(** X9.  [rayMarch] returns the state of its loop at the first iteration
    [k < 100] that takes the [break] (the sampled distance is below 0.001
    or [t] is above 100): [t] is the sum of the distances of the [k]
    earlier samples, and the material is the one [map] gives at the
    returned point.  If no iteration breaks, it returns the sum of all 100
    distances, which is at least 0.1, with the material of the last sample,
    taken one step before the returned point.  The parameter is never
    negative, and the two copies return the same result. *)
Theorem rayMarch_result :
  forall (u : Uniforms) (ro rd : vec3),
    let r := Standalone.rayMarch u ro rd in
    0 <= x2 r /\
    ((exists k, (k < 100)%nat /\
        (forall j, (j < k)%nat -> ~ marchBreaks u ro rd j) /\
        marchBreaks u ro rd k /\
        r = mkvec2 (marchT u ro rd k) (y2 (marchSample u ro rd k)) /\
        y2 r = y2 (Standalone.map u (add3 ro (scale3 (x2 r) rd)))) \/
     ((forall j, (j < 100)%nat -> ~ marchBreaks u ro rd j) /\
      r = mkvec2 (marchT u ro rd 100) (y2 (marchSample u ro rd 99)) /\
      0.1 <= x2 r)) /\
    Embedded.rayMarch u ro rd = r.
Proof.
  intros u ro rd. cbv zeta.
  split; [| split; [| apply (f_equal (fun f => f u ro rd) rayMarch_agree)]];
    unfold Standalone.rayMarch;
    (destruct (marchLoop_trace u ro rd Standalone.maxSteps 0 0.0 (-1.0)
                 eq_refl ltac:(intros j Hj; lia))
      as [(i & Hi & Hb & Hs & Er) | (Hall & Er)];
     rewrite Er; unfold Standalone.maxSteps in *;
     cbn [Nat.add x2 y2] in *).
  - pose proof (marchT_lower u ro rd i Hb) as Hl.
    pose proof (pos_INR i). nra.
  - pose proof (marchT_lower u ro rd 100 Hall) as Hl.
    rewrite INR_IZR_INZ in Hl.
    cbn [Z.of_nat Pos.of_succ_nat Pos.succ] in Hl. lra.
  - left. exists i. split; [lia |]. repeat split; assumption.
  - right. split; [exact Hall | split; [reflexivity |]].
    pose proof (marchT_lower u ro rd 100 Hall) as Hl.
    rewrite INR_IZR_INZ in Hl.
    cbn [Z.of_nat Pos.of_succ_nat Pos.succ] in Hl. lra.
Qed.

(** ** Pixels far from the centre are background *)

Lemma farN_mono (n : nat) : forall a b, a <= b -> farN n a <= farN n b.
Proof.
  induction n as [|k IH]; intros a b H; cbn [farN]; [exact H|].
  apply IH. apply Rmax_lub.
  - apply Rle_trans with (b + 0.1); [lra | apply Rmax_l].
  - apply Rle_trans with (2 * b - 4.61); [lra | apply Rmax_r].
Qed.

Lemma farN_linear (n : nat) : forall t, t + 0.1 * INR n <= farN n t.
Proof.
  induction n as [|k IH]; intros t; cbn [farN]; [simpl; lra|].
  rewrite S_INR.
  apply Rle_trans with (Rmax (t + 0.1) (2 * t - 4.61) + 0.1 * INR k);
    [| apply IH].
  pose proof (Rmax_l (t + 0.1) (2 * t - 4.61)). lra.
Qed.

Lemma farN_double (n : nat) :
  forall t, 4.61 <= t -> 4.61 + (t - 4.61) * 2 ^ n <= farN n t.
Proof.
  induction n as [|k IH]; intros t Ht; cbn [farN]; [simpl; lra|].
  pose proof (Rmax_r (t + 0.1) (2 * t - 4.61)) as Hr.
  apply Rle_trans with (4.61 + (Rmax (t + 0.1) (2 * t - 4.61) - 4.61) * 2 ^ k);
    [| apply IH; lra].
  assert (0 < 2 ^ k) by (apply pow_lt; lra).
  simpl. nra.
Qed.

Lemma farN_add (a b : nat) (t : R) : farN (a + b) t = farN b (farN a t).
Proof.
  revert t; induction a as [|k IH]; intros t; cbn [farN Nat.add];
    [reflexivity | apply IH].
Qed.

Lemma farN_100 : 100 < farN 100 0.
Proof.
  change 100%nat with (50 + 50)%nat. rewrite farN_add.
  pose proof (farN_linear 50 0) as H1.
  rewrite INR_IZR_INZ in H1. cbn [Z.of_nat Pos.of_succ_nat Pos.succ] in H1.
  assert (H5 : 4.61 <= farN 50 0) by lra.
  pose proof (farN_double 50 (farN 50 0) H5) as H2.
  assert (H3 : 1000 <= 2 ^ 50).
  { change 50%nat with (10 + 40)%nat. rewrite pow_add.
    assert (1 <= 2 ^ 40) by (apply pow_R1_Rle; lra).
    assert (2 ^ 10 = 1024) by (simpl; lra). nra. }
  nra.
Qed.

Lemma marchLoop_far (u : Uniforms) (ro rd : vec3) :
  (forall t, 0 <= t ->
     0.1 <= x2 (Standalone.map u (add3 ro (scale3 t rd))) /\
     t - 4.61 <= x2 (Standalone.map u (add3 ro (scale3 t rd)))) ->
  forall (n : nat) (t m : R), 0 <= t ->
    let r := x2 (Standalone.marchLoop u ro rd n t m) in
    100 < r \/ farN n t <= r.
Proof.
  intros Hfield.
  induction n as [|k IH]; intros t m Ht; cbn [Standalone.marchLoop farN].
  - right. cbv [x2]. lra.
  - cbv zeta. destruct (Hfield t Ht) as (Hd1 & Hd2).
    set (d := x2 (Standalone.map u _)) in *.
    rewrite ltb_false by (unfold Standalone.eps; lra).
    rewrite orb_false_l. unfold ltb.
    destruct (Rlt_dec Standalone.maxDist t) as [Hesc | Hin].
    + left. cbv [x2]. unfold Standalone.maxDist in Hesc. lra.
    + assert (Ht' : 0 <= t + d) by lra.
      match goal with
      | |- context [Standalone.marchLoop u ro rd k (t + d) ?m'] =>
          destruct (IH (t + d) m' Ht') as [H | H]; [left; exact H | right]
      end.
      apply Rle_trans with (farN k (t + d)); [| exact H].
      apply farN_mono. apply Rmax_lub; lra.
Qed.

(** A unit ray from a point [c] in front of the scene on the Z axis whose
    forward component is at most [sqrt (4/13)] stays 0.1 clear of the scene
    and, past [t = 4.61], recedes from it. *)
Lemma glancing_ray_clear (u : Uniforms) (ro rd : vec3) (c t : R) :
  x3 ro = 0 -> y3 ro = 0 -> z3 ro = - c -> 2.35 <= c <= 2.75 ->
  dot3 rd rd = 1 -> 0 <= z3 rd -> z3 rd * z3 rd <= 4 / 13 ->
  0 <= t ->
  0.1 <= x2 (Standalone.map u (add3 ro (scale3 t rd))) /\
  t - 4.61 <= x2 (Standalone.map u (add3 ro (scale3 t rd))).
Proof.
  intros Ex Ey Ez Hc Hrd Hz0 Hz Ht.
  set (p := add3 ro (scale3 t rd)).
  pose proof (map_ball_lower u p) as Hball.
  assert (Hsq : dot3 p p = c * c - 2 * c * t * z3 rd + t * t).
  { subst p. destruct ro as [rx ry rz], rd as [a b d].
    cbv [x3 y3 z3 dot3 add3 scale3] in *. subst rx ry rz.
    replace (t * t) with (t * t * (a * a + b * b + d * d))
      by (rewrite Hrd; ring).
    ring. }
  assert (Hz1 : z3 rd <= 1) by nra.
  assert (H1 : 1.9548 <= length3 p).
  { unfold length3. fold (dot3 p p). rewrite Hsq.
    apply sqrt_lower; [lra|].
    assert (0 <= (t - c * z3 rd) * (t - c * z3 rd)) by apply Rle_0_sqr.
    nra. }
  assert (H2 : t - c <= length3 p).
  { destruct (Rle_dec c t) as [Hct | Hct].
    - unfold length3. fold (dot3 p p). rewrite Hsq.
      apply sqrt_lower; [lra|].
      assert (0 <= c * t * (1 - z3 rd))
        by (apply Rmult_le_pos; [apply Rmult_le_pos |]; lra).
      nra.
    - pose proof (length3_nonneg p). lra. }
  split; lra.
Qed.

Lemma shade_far_pixel (u : Uniforms) (v_uv : vec2) :
  let uvx := (x2 v_uv - 0.5) * 2.0
             * (x2 (u_resolution u) / y2 (u_resolution u)) in
  let uvy := (y2 v_uv - 0.5) * 2.0 in
  2.25 <= uvx * uvx + uvy * uvy ->
  forall ro c,
    x3 ro = 0 -> y3 ro = 0 -> z3 ro = - c -> 2.35 <= c <= 2.75 ->
    100 < x2 (Standalone.rayMarch u ro (Standalone.cameraRay u v_uv)).
Proof.
  intros uvx uvy Huv ro c Ex Ey Ez Hc.
  destruct (cameraRay_facts u v_uv) as (Hlen & Hz & _).
  set (rd := Standalone.cameraRay u v_uv) in *.
  assert (Hdot : dot3 rd rd = 1) by (apply length3_unit_dot; exact Hlen).
  assert (Hzz : z3 rd * z3 rd <= 4 / 13).
  { subst rd. unfold Standalone.cameraRay; cbv zeta.
    cbv [scalef2 subf2 x2 y2 normalize3 z3]. fold (x2 v_uv) (y2 v_uv).
    fold (x2 (u_resolution u)) (y2 (u_resolution u)).
    set (w := mkvec3 _ _ 1.0).
    assert (Hww : length3 w * length3 w = uvx * uvx + uvy * uvy + 1).
    { rewrite length3_sq. subst w uvx uvy. cbv [dot3 x3 y3 z3]. lra. }
    assert (HL : 0 < length3 w).
    { pose proof (length3_nonneg w). nra. }
    cbv [x3 y3 z3]. fold w.
    replace 1.0 with 1 by lra.
    replace (1 / length3 w * (1 / length3 w))
      with (/ (length3 w * length3 w)) by (field; lra).
    rewrite Hww.
    replace (4 / 13) with (/ (13 / 4)) by lra.
    apply Rinv_le_contravar; lra. }
  unfold Standalone.rayMarch, Standalone.maxSteps.
  replace 0.0 with 0 by lra.
  destruct (marchLoop_far u ro rd
              (fun t Ht => glancing_ray_clear u ro rd c t Ex Ey Ez Hc Hdot
                             (Rlt_le _ _ Hz) Hzz Ht)
              100 0 (-1.0) (Rle_refl 0)) as [H | H]; [exact H |].
  pose proof farN_100. lra.
Qed.

(** X10.  A pixel at least 1.5 away from the image centre, in the
    aspect-corrected coordinates that [main] computes, is transparent
    background under every rotation and LED colour, in both cores: its ray
    passes the scene's ball. *)
Theorem far_pixels_are_background :
  forall (u : Uniforms) (v_uv : vec2),
    (let uvx := (x2 v_uv - 0.5) * 2.0
                * (x2 (u_resolution u) / y2 (u_resolution u)) in
     let uvy := (y2 v_uv - 0.5) * 2.0 in
     2.25 <= uvx * uvx + uvy * uvy) ->
    Standalone.main u v_uv = mkvec4 0 0 0 0 /\
    Embedded.main u v_uv = mkvec4 0 0 0 0.
Proof.
  intros u v_uv Huv.
  split.
  - unfold Standalone.main; cbv zeta. apply shadeRay_miss.
    pose proof (shade_far_pixel u v_uv Huv Standalone.cameraPos 2.35) as H.
    unfold Standalone.cameraPos in *; cbv [x3 y3 z3] in H.
    assert (100 < x2 (Standalone.rayMarch u (mkvec3 0.0 0.0 (-2.35))
                        (Standalone.cameraRay u v_uv)))
      by (apply H; lra).
    lra.
  - unfold Embedded.main; cbv zeta. apply embedded_shadeRay_miss.
    rewrite rayMarch_agree, cameraRay_agree.
    pose proof (shade_far_pixel u v_uv Huv Embedded.cameraPos 2.75) as H.
    unfold Embedded.cameraPos in *; cbv [x3 y3 z3] in H.
    assert (100 < x2 (Standalone.rayMarch u (mkvec3 0.0 0.0 (-2.75))
                        (Standalone.cameraRay u v_uv)))
      by (apply H; lra).
    lra.
Qed.

Lemma far_pixels_are_background_witness :
  Standalone.main wideView rightEdge = mkvec4 0 0 0 0 /\
  Embedded.main wideView rightEdge = mkvec4 0 0 0 0.
Proof.
  apply (far_pixels_are_background wideView rightEdge).
  unfold wideView, rightEdge; cbv [u_resolution x2 y2]. lra.
Defined.

(** * The page script *)

Import ListNotations.

(** ** Array access *)

Lemma at_in_range {A : Type} (a : list A) (i : Z) :
  (0 <= i < Z.of_nat (List.length a))%Z -> exists v, Host.at_ a i = Some v.
Proof.
  intros H. unfold Host.at_.
  destruct (Z.ltb_spec i 0); [lia|].
  destruct (nth_error a (Z.to_nat i)) as [v|] eqn:E; [eauto|].
  apply nth_error_None in E. lia.
Qed.

Lemma at_out_of_range {A : Type} (a : list A) (i : Z) :
  (Z.of_nat (List.length a) <= i)%Z -> Host.at_ a i = None.
Proof.
  intros H. unfold Host.at_.
  destruct (Z.ltb_spec i 0); [reflexivity|].
  apply nth_error_None. lia.
Qed.

Lemma at_update {A : Type} (a : list A) (i j : Z) (v : A) :
  (0 <= i < Z.of_nat (List.length a))%Z ->
  Host.at_ (firstn (Z.to_nat i) a ++ v :: skipn (S (Z.to_nat i)) a) j
  = if (j =? i)%Z then Some v else Host.at_ a j.
Proof.
  intros H. unfold Host.at_.
  destruct (Z.ltb_spec j 0) as [Hj | Hj].
  - destruct (Z.eqb_spec j i); [lia | reflexivity].
  - assert (Hlen : List.length (firstn (Z.to_nat i) a) = Z.to_nat i)
      by (rewrite firstn_length_le; lia).
    destruct (Z.eqb_spec j i) as [-> | Hne].
    + rewrite nth_error_app2 by lia. rewrite Hlen, Nat.sub_diag. reflexivity.
    + destruct (Z_lt_le_dec j i) as [Hlt | Hge].
      * rewrite nth_error_app1 by lia.
        rewrite nth_error_firstn.
        destruct (Nat.ltb_spec (Z.to_nat j) (Z.to_nat i)); [reflexivity | lia].
      * rewrite nth_error_app2 by lia. rewrite Hlen.
        replace (Z.to_nat j - Z.to_nat i)%nat
          with (S (Z.to_nat j - S (Z.to_nat i)))%nat by lia.
        cbn [nth_error]. rewrite nth_error_skipn. f_equal. lia.
Qed.

Lemma update_length {A : Type} (a : list A) (i : nat) (v : A) :
  (i < List.length a)%nat ->
  List.length (firstn i a ++ v :: skipn (S i) a) = List.length a.
Proof.
  intros H. rewrite length_app, firstn_length_le by lia.
  cbn [List.length]. rewrite length_skipn. lia.
Qed.

Lemma assign_in_range (row : list bool) (y : Z) (v : bool) :
  (0 <= y < Z.of_nat (List.length row))%Z ->
  Host.assign row y v
  = firstn (Z.to_nat y) row ++ v :: skipn (S (Z.to_nat y)) row.
Proof.
  intros H. unfold Host.assign.
  destruct (Z.ltb_spec y 0); [lia|].
  replace (Z.to_nat y - List.length row)%nat with 0%nat by lia.
  reflexivity.
Qed.

(** ** The Game of Life *)

Lemma GRID_SIZE_nat : Z.to_nat Host.GRID_SIZE = 50%nat.
Proof. reflexivity. Qed.

Lemma rem_wrap (x d : Z) :
  (0 <= x < Host.GRID_SIZE)%Z -> (-1 <= d <= 1)%Z ->
  Z.rem (x + d + Host.GRID_SIZE) Host.GRID_SIZE
  = ((x + d) mod Host.GRID_SIZE)%Z /\
  (0 <= (x + d) mod Host.GRID_SIZE < Host.GRID_SIZE)%Z.
Proof.
  unfold Host.GRID_SIZE. intros Hx Hd. split.
  - rewrite Z.rem_mod_nonneg by lia.
    rewrite <- (Z.mod_add (x + d) 1 50) by lia. f_equal.
  - apply Z.mod_pos_bound. lia.
Qed.

Lemma fold_none {B : Type} (f : Z -> B -> option Z) (l : list B) :
  fold_left
    (fun count d =>
       match count with None => None | Some c => f c d end) l None = None.
Proof. induction l as [|d l IH]; cbn [fold_left]; [reflexivity | exact IH]. Qed.

Lemma count_step (b : bool) (c : Z) :
  (if b then Some (c + 1)%Z else Some c)
  = Some (c + (if b then 1 else 0))%Z.
Proof. destruct b; [reflexivity | f_equal; lia]. Qed.

Lemma countNeighbors_spec (g : Host.Grid) (x y : Z) :
  (Z.to_nat Host.GRID_SIZE <= List.length g)%nat ->
  (0 <= x < Host.GRID_SIZE)%Z -> (0 <= y < Host.GRID_SIZE)%Z ->
  Host.countNeighbors g x y = Some (Life.liveNeighbours g x y).
Proof.
  intros Hg Hx Hy.
  destruct (rem_wrap x (-1) Hx ltac:(lia)) as (Ex1 & Bx1).
  destruct (rem_wrap x 0 Hx ltac:(lia)) as (Ex2 & Bx2).
  destruct (rem_wrap x 1 Hx ltac:(lia)) as (Ex3 & Bx3).
  destruct (rem_wrap y (-1) Hy ltac:(lia)) as (Ey1 & _).
  destruct (rem_wrap y 0 Hy ltac:(lia)) as (Ey2 & _).
  destruct (rem_wrap y 1 Hy ltac:(lia)) as (Ey3 & _).
  rewrite GRID_SIZE_nat in Hg.
  unfold Host.GRID_SIZE in Bx1, Bx2, Bx3.
  destruct (at_in_range g ((x + -1) mod Host.GRID_SIZE)) as (r1 & Er1);
    [unfold Host.GRID_SIZE; lia|].
  destruct (at_in_range g ((x + 0) mod Host.GRID_SIZE)) as (r2 & Er2);
    [unfold Host.GRID_SIZE; lia|].
  destruct (at_in_range g ((x + 1) mod Host.GRID_SIZE)) as (r3 & Er3);
    [unfold Host.GRID_SIZE; lia|].
  unfold Host.countNeighbors, Life.liveNeighbours, Life.offsets, Life.cell.
  change (Host.range (-1) 3) with [-1; 0; 1]%Z.
  cbn [fold_left fold_right fst snd Z.eqb andb].
  rewrite Ex1, Ex2, Ex3, Ey1, Ey2, Ey3, Er1, Er2, Er3.
  rewrite !count_step. f_equal. lia.
Qed.

Lemma fold_range_inv {A : Type} (F : option A -> Z -> option A)
  (P : Z -> A -> Prop) (n : nat) (a0 : A) :
  P 0%Z a0 ->
  (forall k a, (0 <= k < Z.of_nat n)%Z -> P k a ->
     exists a', F (Some a) k = Some a' /\ P (k + 1)%Z a') ->
  exists a,
    fold_left F (Host.range 0 n) (Some a0) = Some a /\ P (Z.of_nat n) a.
Proof.
  intros H0 Hstep. induction n as [|n IH].
  - exists a0. split; [reflexivity | exact H0].
  - destruct IH as (a & Ea & Pa); [intros; apply Hstep; [lia | assumption] |].
    destruct (Hstep (Z.of_nat n) a) as (a' & E' & P'); [lia | exact Pa |].
    exists a'. split.
    + unfold Host.range in *.
      rewrite seq_S, map_app, fold_left_app, Ea.
      cbn [map fold_left Nat.add]. rewrite Z.add_0_l. exact E'.
    + replace (Z.of_nat (S n)) with (Z.of_nat n + 1)%Z by lia. exact P'.
Qed.

Lemma Forall_update {A : Type} (P : A -> Prop) (a : list A) (i : nat)
  (v : A) :
  Forall P a -> P v -> Forall P (firstn i a ++ v :: skipn (S i) a).
Proof.
  intros Ha Hv. rewrite Forall_forall in Ha.
  apply Forall_forall. intros w Hw.
  apply in_app_or in Hw. destruct Hw as [Hw | [Hw | Hw]].
  - apply Ha. rewrite <- (firstn_skipn i a). apply in_or_app. left. exact Hw.
  - subst w. exact Hv.
  - apply Ha. rewrite <- (firstn_skipn (S i) a). apply in_or_app.
    right. exact Hw.
Qed.

Lemma at_In {A : Type} (a : list A) (i : Z) (v : A) :
  Host.at_ a i = Some v -> In v a.
Proof.
  unfold Host.at_. destruct (i <? 0)%Z; [discriminate |].
  apply nth_error_In.
Qed.

Lemma square_row (g : Host.Grid) (x : Z) :
  Life.square g -> (0 <= x < Host.GRID_SIZE)%Z ->
  exists row,
    Host.at_ g x = Some row /\
    List.length row = Z.to_nat Host.GRID_SIZE.
Proof.
  intros (Hlen & Hrows) Hx.
  destruct (at_in_range g x) as (row & E); [lia |].
  exists row. split; [exact E |].
  rewrite Forall_forall in Hrows. apply Hrows. exact (at_In _ _ _ E).
Qed.

Lemma setCell_spec (ng : Host.Grid) (x y : Z) :
  Life.square ng ->
  (0 <= x < Host.GRID_SIZE)%Z -> (0 <= y < Host.GRID_SIZE)%Z ->
  exists ng',
    Host.setCell ng x y true = Some ng' /\ Life.square ng' /\
    forall x' y',
      Life.cell ng' x' y'
      = if ((x' =? x) && (y' =? y))%Z then true else Life.cell ng x' y'.
Proof.
  intros Hsq Hx Hy.
  destruct (square_row ng x Hsq Hx) as (row & Erow & Hrow).
  destruct Hsq as (Hlen & Hrows).
  unfold Host.setCell. rewrite Erow.
  rewrite assign_in_range by lia.
  eexists. split; [reflexivity |]. split; [split |].
  - rewrite update_length; [exact Hlen | lia].
  - apply Forall_update; [exact Hrows |].
    rewrite update_length; [exact Hrow | lia].
  - intros x' y'. unfold Life.cell.
    rewrite at_update by lia.
    destruct (Z.eqb_spec x' x) as [-> | Hne]; cbn [andb].
    + rewrite at_update by lia. rewrite Erow.
      destruct (Z.eqb_spec y' y); reflexivity.
    + reflexivity.
Qed.

Lemma fresh_grid_square :
  Life.square
    (map (fun _ : unit => repeat false (Z.to_nat Host.GRID_SIZE))
       (repeat tt (Z.to_nat Host.GRID_SIZE))) /\
  forall x y,
    Life.cell
      (map (fun _ : unit => repeat false (Z.to_nat Host.GRID_SIZE))
         (repeat tt (Z.to_nat Host.GRID_SIZE))) x y = false.
Proof.
  split; [split |].
  - rewrite length_map, repeat_length. reflexivity.
  - apply Forall_forall. intros row Hrow.
    apply in_map_iff in Hrow. destruct Hrow as (u & <- & _).
    apply repeat_length.
  - intros x y. unfold Life.cell.
    destruct (Host.at_ _ x) as [row|] eqn:E; [| reflexivity].
    apply at_In, in_map_iff in E. destruct E as (u & <- & _).
    destruct (Host.at_ (repeat false _) y) as [b|] eqn:Eb; [| reflexivity].
    apply at_In, repeat_spec in Eb. subst b. reflexivity.
Qed.

Lemma update_cell_step (g ng : Host.Grid) (x y : Z) :
  (Z.to_nat Host.GRID_SIZE <= List.length g)%nat ->
  (0 <= x < Host.GRID_SIZE)%Z -> (0 <= y < Host.GRID_SIZE)%Z ->
  Life.filledUpTo g x y ng ->
  exists ng',
    match Host.countNeighbors g x y with
    | None => None
    | Some neighbors =>
        match Host.at_ g x with
        | None => None
        | Some row =>
            let alive := Host.holds (Host.at_ row y) in
            if alive && ((neighbors =? 2) || (neighbors =? 3))%Z
            then Host.setCell ng x y true
            else if negb alive && (neighbors =? 3)%Z
            then Host.setCell ng x y true
            else Some ng
        end
    end = Some ng' /\ Life.filledUpTo g x (y + 1) ng'.
Proof.
  intros Hg Hx Hy (Hsq & Hcells).
  rewrite (countNeighbors_spec g x y Hg Hx Hy).
  destruct (at_in_range g x) as (row & Erow);
    [rewrite GRID_SIZE_nat in Hg; unfold Host.GRID_SIZE in Hx; lia |].
  rewrite Erow. cbv zeta.
  assert (Ealive : Host.holds (Host.at_ row y) = Life.cell g x y)
    by (unfold Life.cell; rewrite Erow; reflexivity).
  rewrite Ealive.
  set (n := Life.liveNeighbours g x y).
  destruct (setCell_spec ng x y Hsq Hx Hy) as (ng1 & E1 & Hsq1 & Hc1).
  assert (Hset : Life.filledUpTo g x (y + 1) ng1 \/
                 Life.conway (Life.cell g x y) n = false).
  { destruct (Life.conway (Life.cell g x y) n) eqn:Ec; [left | right; reflexivity].
    split; [exact Hsq1 |]. intros x' y' Hx' Hy'.
    rewrite Hc1, (Hcells x' y' Hx' Hy').
    destruct (Z.eqb_spec x' x) as [-> | Hne]; cbn [andb].
    - destruct (Z.eqb_spec y' y) as [-> | Hney].
      + fold n. rewrite Ec.
        destruct (Z.ltb_spec x x); [lia |].
        destruct (Z.ltb_spec y (y + 1)); [reflexivity | lia].
      + destruct (Z.ltb_spec y' y), (Z.ltb_spec y' (y + 1));
          try lia; reflexivity.
    - reflexivity. }
  assert (Hkeep : Life.conway (Life.cell g x y) n = false ->
                  Life.filledUpTo g x (y + 1) ng).
  { intros Ec. split; [exact Hsq |]. intros x' y' Hx' Hy'.
    rewrite (Hcells x' y' Hx' Hy').
    destruct (Z.eqb_spec x' x) as [-> | Hne]; cbn [andb]; [| reflexivity].
    destruct (Z.ltb_spec x x); [lia |]. cbn [orb].
    destruct (Z.eqb_spec y' y) as [-> | Hney].
    - fold n. rewrite Ec.
      destruct (y <? y)%Z, (y <? y + 1)%Z; reflexivity.
    - destruct (Z.ltb_spec y' y), (Z.ltb_spec y' (y + 1));
        try lia; reflexivity. }
  unfold Life.conway in Hset, Hkeep.
  destruct (Life.cell g x y); cbn [andb negb] in *.
  - destruct ((n =? 2)%Z || (n =? 3)%Z).
    + exists ng1. split; [exact E1 |]. destruct Hset; [assumption | discriminate].
    + exists ng. split; [reflexivity | apply Hkeep; reflexivity].
  - destruct (n =? 3)%Z.
    + exists ng1. split; [exact E1 |]. destruct Hset; [assumption | discriminate].
    + exists ng. split; [reflexivity | apply Hkeep; reflexivity].
Qed.

Lemma updateGameOfLife_cells (g : Host.Grid) :
  (Z.to_nat Host.GRID_SIZE <= List.length g)%nat ->
  exists g',
    Host.updateGameOfLife g = Some g' /\
    Life.square g' /\
    forall x y,
      (0 <= x < Host.GRID_SIZE)%Z -> (0 <= y < Host.GRID_SIZE)%Z ->
      Life.cell g' x y
      = Life.conway (Life.cell g x y) (Life.liveNeighbours g x y).
Proof.
  intros Hg. unfold Host.updateGameOfLife. cbv zeta.
  destruct fresh_grid_square as (Hsq0 & Hdead).
  set (ng0 := map _ (repeat tt _)) in *.
  destruct (fold_range_inv
              (fun acc x =>
                 fold_left
                   (fun acc y =>
                      match acc with
                      | None => None
                      | Some newGrid =>
                          match Host.countNeighbors g x y with
                          | None => None
                          | Some neighbors =>
                              match Host.at_ g x with
                              | None => None
                              | Some row =>
                                  let alive := Host.holds (Host.at_ row y) in
                                  if alive
                                     && ((neighbors =? 2) || (neighbors =? 3))%Z
                                  then Host.setCell newGrid x y true
                                  else if negb alive && (neighbors =? 3)%Z
                                  then Host.setCell newGrid x y true
                                  else Some newGrid
                              end
                          end
                      end)
                   (Host.range 0 (Z.to_nat Host.GRID_SIZE)) acc)
              (fun x ng => Life.filledUpTo g x 0 ng)
              (Z.to_nat Host.GRID_SIZE) ng0) as (g' & E & Hsq & Hcells).
  - split; [exact Hsq0 |]. intros x' y' Hx' Hy'. rewrite Hdead.
    destruct (Z.ltb_spec x' 0); [lia |].
    destruct (Z.ltb_spec y' 0); [lia |].
    rewrite andb_false_r. reflexivity.
  - intros x ng Hx Hng.
    destruct (fold_range_inv
                (fun acc y =>
                   match acc with
                   | None => None
                   | Some newGrid =>
                       match Host.countNeighbors g x y with
                       | None => None
                       | Some neighbors =>
                           match Host.at_ g x with
                           | None => None
                           | Some row =>
                               let alive := Host.holds (Host.at_ row y) in
                               if alive
                                  && ((neighbors =? 2) || (neighbors =? 3))%Z
                               then Host.setCell newGrid x y true
                               else if negb alive && (neighbors =? 3)%Z
                               then Host.setCell newGrid x y true
                               else Some newGrid
                           end
                       end
                   end)
                (fun y ng => Life.filledUpTo g x y ng)
                (Z.to_nat Host.GRID_SIZE) ng) as (ng' & E' & Hsq' & Hcells').
    + exact Hng.
    + intros y a Hy Ha.
      apply update_cell_step; [exact Hg | | | exact Ha];
        unfold Host.GRID_SIZE in *; lia.
    + exists ng'. split; [exact E' |]. split; [exact Hsq' |].
      intros x' y' Hx' Hy'. rewrite (Hcells' x' y' Hx' Hy').
      f_equal. unfold Host.GRID_SIZE in *.
      destruct (Z.ltb_spec x' x), (Z.ltb_spec x' (x + 1)),
        (Z.eqb_spec x' x), (Z.eqb_spec x' (x + 1)),
        (Z.ltb_spec y' (Z.of_nat (Z.to_nat 50))), (Z.ltb_spec y' 0);
        try lia; reflexivity.
  - exists g'. split; [exact E |]. split; [exact Hsq |].
    intros x y Hx Hy. rewrite (Hcells x y Hx Hy).
    unfold Host.GRID_SIZE in *.
    destruct (Z.ltb_spec x (Z.of_nat (Z.to_nat 50))); [| lia].
    reflexivity.
Qed.

Lemma countNeighbors_short (g : Host.Grid) :
  (List.length g < Z.to_nat Host.GRID_SIZE)%nat ->
  Host.countNeighbors g 0 0 = None.
Proof.
  intros Hg. rewrite GRID_SIZE_nat in Hg.
  unfold Host.countNeighbors.
  change (Host.range (-1) 3) with [-1; 0; 1]%Z.
  cbn [fold_left Z.eqb andb].
  assert (E : Host.at_ g (Z.rem (0 + -1 + Host.GRID_SIZE) Host.GRID_SIZE)
              = None).
  { apply at_out_of_range. change (Z.rem _ _) with 49%Z. lia. }
  rewrite E. reflexivity.
Qed.

Lemma fold_left_None {A B : Type} (f : option A -> B -> option A)
  (l : list B) :
  (forall b, f None b = None) -> fold_left f l None = None.
Proof.
  intros Hf. induction l as [|b l IH]; cbn [fold_left];
    [reflexivity | rewrite Hf; exact IH].
Qed.

Lemma updateGameOfLife_short (g : Host.Grid) :
  (List.length g < Z.to_nat Host.GRID_SIZE)%nat ->
  Host.updateGameOfLife g = None.
Proof.
  intros Hg. unfold Host.updateGameOfLife. cbv zeta.
  set (ng0 := map _ (repeat tt _)).
  rewrite GRID_SIZE_nat.
  change (Host.range 0 50) with (0%Z :: Host.range 1 49).
  cbn [fold_left].
  rewrite (countNeighbors_short g Hg).
  rewrite fold_left_None by reflexivity.
  apply fold_left_None. intros x.
  cbn [fold_left]. apply fold_left_None. reflexivity.
Qed.

(** ** Frame lemmas *)

(** *** Functions that leave the pointer state alone *)

Lemma pview_cancelAnimationFrame h s :
  View.pview (Host.cancelAnimationFrame h s) = View.pview s.
Proof.
  cbv delta [Host.cancelAnimationFrame]; cbv beta.
  view_solve View.pview ltac:(idtac).
Qed.

Lemma pview_clearTimeout h s :
  View.pview (Host.clearTimeout h s) = View.pview s.
Proof.
  cbv delta [Host.clearTimeout]; cbv beta.
  view_solve View.pview ltac:(idtac).
Qed.

Lemma pview_scheduleRender s :
  View.pview (Host.scheduleRender s) = View.pview s.
Proof.
  cbv delta [Host.scheduleRender]; cbv beta.
  view_solve View.pview ltac:(rewrite ?pview_cancelAnimationFrame).
Qed.

Lemma pview_render s : View.pview (Host.render s) = View.pview s.
Proof.
  cbv delta [Host.render]; cbv beta.
  view_solve View.pview ltac:(idtac).
Qed.

Lemma pview_resizeCanvas d s :
  View.pview (Host.resizeCanvas d s) = View.pview s.
Proof.
  cbv delta [Host.resizeCanvas]; cbv beta.
  view_solve View.pview ltac:(rewrite ?pview_scheduleRender).
Qed.

Lemma pview_onInputChange s :
  View.pview (Host.onInputChange s) = View.pview s.
Proof.
  cbv delta [Host.onInputChange]; cbv beta.
  view_solve View.pview ltac:(rewrite ?pview_clearTimeout,
    ?pview_scheduleRender).
Qed.

Lemma pview_inputLedOff s : View.pview (Host.inputLedOff s) = View.pview s.
Proof.
  cbv delta [Host.inputLedOff]; cbv beta.
  view_solve View.pview ltac:(rewrite ?pview_scheduleRender).
Qed.

Lemma pview_validateForm s :
  View.pview (snd (Host.validateForm s)) = View.pview s.
Proof.
  cbv delta [Host.validateForm]; cbv beta.
  view_solve View.pview ltac:(idtac).
Qed.

Lemma pview_showLayer layer s :
  View.pview (Host.showLayer layer s) = View.pview s.
Proof.
  cbv delta [Host.showLayer]; cbv beta.
  view_solve View.pview ltac:(idtac).
Qed.

Lemma pview_resetInactivityTimer s :
  View.pview (Host.resetInactivityTimer s) = View.pview s.
Proof.
  cbv delta [Host.resetInactivityTimer]; cbv beta.
  view_solve View.pview ltac:(rewrite ?pview_clearTimeout).
Qed.

Lemma pview_renderGameOfLife s :
  View.pview (Host.state_of (Host.renderGameOfLife s)) = View.pview s.
Proof.
  cbv delta [Host.renderGameOfLife]; cbv beta.
  view_solve View.pview ltac:(idtac).
Qed.

Lemma pview_resetGameGrid random s :
  View.pview (Host.resetGameGrid random s) = View.pview s.
Proof.
  cbv delta [Host.resetGameGrid]; cbv beta.
  view_solve View.pview ltac:(idtac).
Qed.

Lemma pview_animate s :
  View.pview (Host.state_of (Host.animate s)) = View.pview s.
Proof.
  cbv delta [Host.animate]; cbv beta.
  view_solve View.pview ltac:(rewrite ?pview_renderGameOfLife).
Qed.

Lemma pview_startGameOfLife w s :
  View.pview (Host.state_of (Host.startGameOfLife w s)) = View.pview s.
Proof.
  cbv delta [Host.startGameOfLife]; cbv beta.
  view_solve View.pview ltac:(rewrite ?pview_resetGameGrid, ?pview_animate).
Qed.

Lemma pview_showScreensaver w s :
  View.pview (Host.state_of (Host.showScreensaver w s)) = View.pview s.
Proof.
  cbv delta [Host.showScreensaver]; cbv beta.
  view_solve View.pview ltac:(rewrite ?pview_showLayer, ?pview_clearTimeout,
    ?pview_startGameOfLife).
Qed.

Lemma pview_hideScreensaver s :
  View.pview (Host.hideScreensaver s) = View.pview s.
Proof.
  cbv delta [Host.hideScreensaver]; cbv beta.
  view_solve View.pview ltac:(rewrite ?pview_showLayer, ?pview_clearTimeout,
    ?pview_resetInactivityTimer).
Qed.

Lemma pview_onSubmit s : View.pview (Host.onSubmit s) = View.pview s.
Proof.
  cbv delta [Host.onSubmit]; cbv beta.
  view_solve View.pview ltac:(rewrite ?pview_resetInactivityTimer,
    ?pview_clearTimeout, ?pview_validateForm, ?pview_scheduleRender,
    ?pview_showLayer).
Qed.

Lemma pview_submitDone s : View.pview (Host.submitDone s) = View.pview s.
Proof.
  cbv delta [Host.submitDone]; cbv beta.
  view_solve View.pview ltac:(rewrite ?pview_scheduleRender,
    ?pview_showLayer, ?pview_resetInactivityTimer).
Qed.

Lemma pview_fire h w s :
  View.pview (Host.state_of (Host.fire h w s)) = View.pview s.
Proof.
  cbv delta [Host.fire]; cbv beta.
  view_solve View.pview ltac:(rewrite ?pview_clearTimeout,
    ?pview_inputLedOff, ?pview_submitDone, ?pview_showScreensaver,
    ?pview_animate, ?pview_resetGameGrid).
Qed.

(** *** Functions that leave the LED colour alone *)

Lemma ledColor_cancelAnimationFrame h s :
  Host.ledColor (Host.cancelAnimationFrame h s) = Host.ledColor s.
Proof.
  cbv delta [Host.cancelAnimationFrame]; cbv beta.
  view_solve Host.ledColor ltac:(idtac).
Qed.


Lemma ledColor_scheduleRender s :
  Host.ledColor (Host.scheduleRender s) = Host.ledColor s.
Proof.
  cbv delta [Host.scheduleRender]; cbv beta.
  view_solve Host.ledColor ltac:(rewrite ?ledColor_cancelAnimationFrame).
Qed.






Lemma ledColor_onTouchEnd s :
  Host.ledColor (Host.onTouchEnd s) = Host.ledColor s.
Proof.
  cbv delta [Host.onTouchEnd]; cbv beta.
  view_solve Host.ledColor ltac:(idtac).
Qed.

Lemma ledColor_validateForm s :
  Host.ledColor (snd (Host.validateForm s)) = Host.ledColor s.
Proof.
  cbv delta [Host.validateForm]; cbv beta.
  view_solve Host.ledColor ltac:(idtac).
Qed.









(** *** Functions that leave the record of the last draw call alone *)

Lemma frame_cancelAnimationFrame h s :
  Host.frame (Host.cancelAnimationFrame h s) = Host.frame s.
Proof.
  cbv delta [Host.cancelAnimationFrame]; cbv beta.
  view_solve Host.frame ltac:(idtac).
Qed.

Lemma frame_clearTimeout h s :
  Host.frame (Host.clearTimeout h s) = Host.frame s.
Proof.
  cbv delta [Host.clearTimeout]; cbv beta.
  view_solve Host.frame ltac:(idtac).
Qed.

Lemma frame_scheduleRender s :
  Host.frame (Host.scheduleRender s) = Host.frame s.
Proof.
  cbv delta [Host.scheduleRender]; cbv beta.
  view_solve Host.frame ltac:(rewrite ?frame_cancelAnimationFrame).
Qed.

Lemma frame_resizeCanvas d s :
  Host.frame (Host.resizeCanvas d s) = Host.frame s.
Proof.
  cbv delta [Host.resizeCanvas]; cbv beta.
  view_solve Host.frame ltac:(rewrite ?frame_scheduleRender).
Qed.

Lemma frame_onMouseMove rect event s :
  Host.frame (Host.onMouseMove rect event s) = Host.frame s.
Proof.
  cbv delta [Host.onMouseMove]; cbv beta.
  view_solve Host.frame ltac:(rewrite ?frame_scheduleRender).
Qed.

Lemma frame_onTouchStart rect touches s :
  Host.frame (Host.onTouchStart rect touches s) = Host.frame s.
Proof.
  cbv delta [Host.onTouchStart]; cbv beta.
  view_solve Host.frame ltac:(idtac).
Qed.

Lemma frame_onTouchMove touches s :
  Host.frame (Host.onTouchMove touches s) = Host.frame s.
Proof.
  cbv delta [Host.onTouchMove]; cbv beta.
  view_solve Host.frame ltac:(rewrite ?frame_scheduleRender).
Qed.

Lemma frame_onTouchEnd s : Host.frame (Host.onTouchEnd s) = Host.frame s.
Proof.
  cbv delta [Host.onTouchEnd]; cbv beta.
  view_solve Host.frame ltac:(idtac).
Qed.

Lemma frame_onInputChange s :
  Host.frame (Host.onInputChange s) = Host.frame s.
Proof.
  cbv delta [Host.onInputChange]; cbv beta.
  view_solve Host.frame ltac:(rewrite ?frame_clearTimeout,
    ?frame_scheduleRender).
Qed.

Lemma frame_inputLedOff s : Host.frame (Host.inputLedOff s) = Host.frame s.
Proof.
  cbv delta [Host.inputLedOff]; cbv beta.
  view_solve Host.frame ltac:(rewrite ?frame_scheduleRender).
Qed.

Lemma frame_validateForm s :
  Host.frame (snd (Host.validateForm s)) = Host.frame s.
Proof.
  cbv delta [Host.validateForm]; cbv beta.
  view_solve Host.frame ltac:(idtac).
Qed.

Lemma frame_showLayer layer s :
  Host.frame (Host.showLayer layer s) = Host.frame s.
Proof.
  cbv delta [Host.showLayer]; cbv beta.
  view_solve Host.frame ltac:(idtac).
Qed.

Lemma frame_resetInactivityTimer s :
  Host.frame (Host.resetInactivityTimer s) = Host.frame s.
Proof.
  cbv delta [Host.resetInactivityTimer]; cbv beta.
  view_solve Host.frame ltac:(rewrite ?frame_clearTimeout).
Qed.

Lemma frame_renderGameOfLife s :
  Host.frame (Host.state_of (Host.renderGameOfLife s)) = Host.frame s.
Proof.
  cbv delta [Host.renderGameOfLife]; cbv beta.
  view_solve Host.frame ltac:(idtac).
Qed.

Lemma frame_resetGameGrid random s :
  Host.frame (Host.resetGameGrid random s) = Host.frame s.
Proof.
  cbv delta [Host.resetGameGrid]; cbv beta.
  view_solve Host.frame ltac:(idtac).
Qed.

Lemma frame_animate s :
  Host.frame (Host.state_of (Host.animate s)) = Host.frame s.
Proof.
  cbv delta [Host.animate]; cbv beta.
  view_solve Host.frame ltac:(rewrite ?frame_renderGameOfLife).
Qed.

Lemma frame_startGameOfLife w s :
  Host.frame (Host.state_of (Host.startGameOfLife w s)) = Host.frame s.
Proof.
  cbv delta [Host.startGameOfLife]; cbv beta.
  view_solve Host.frame ltac:(rewrite ?frame_resetGameGrid, ?frame_animate).
Qed.

Lemma frame_showScreensaver w s :
  Host.frame (Host.state_of (Host.showScreensaver w s)) = Host.frame s.
Proof.
  cbv delta [Host.showScreensaver]; cbv beta.
  view_solve Host.frame ltac:(rewrite ?frame_showLayer, ?frame_clearTimeout,
    ?frame_startGameOfLife).
Qed.

Lemma frame_hideScreensaver s :
  Host.frame (Host.hideScreensaver s) = Host.frame s.
Proof.
  cbv delta [Host.hideScreensaver]; cbv beta.
  view_solve Host.frame ltac:(rewrite ?frame_showLayer, ?frame_clearTimeout,
    ?frame_resetInactivityTimer).
Qed.

Lemma frame_onSubmit s : Host.frame (Host.onSubmit s) = Host.frame s.
Proof.
  cbv delta [Host.onSubmit]; cbv beta.
  view_solve Host.frame ltac:(rewrite ?frame_resetInactivityTimer,
    ?frame_clearTimeout, ?frame_validateForm, ?frame_scheduleRender,
    ?frame_showLayer).
Qed.

Lemma frame_submitDone s : Host.frame (Host.submitDone s) = Host.frame s.
Proof.
  cbv delta [Host.submitDone]; cbv beta.
  view_solve Host.frame ltac:(rewrite ?frame_scheduleRender,
    ?frame_showLayer, ?frame_resetInactivityTimer).
Qed.

Lemma frame_fire h w s :
  Host.frame (Host.state_of (Host.fire h w s)) = Host.frame s.
Proof.
  cbv delta [Host.fire]; cbv beta.
  view_solve Host.frame ltac:(rewrite ?frame_clearTimeout,
    ?frame_inputLedOff, ?frame_submitDone, ?frame_showScreensaver,
    ?frame_animate, ?frame_resetGameGrid).
Qed.

(** *** Functions that leave the document alone *)

Lemma document_cancelAnimationFrame h s :
  Host.document (Host.cancelAnimationFrame h s) = Host.document s.
Proof.
  cbv delta [Host.cancelAnimationFrame]; cbv beta.
  view_solve Host.document ltac:(idtac).
Qed.

Lemma document_clearTimeout h s :
  Host.document (Host.clearTimeout h s) = Host.document s.
Proof.
  cbv delta [Host.clearTimeout]; cbv beta.
  view_solve Host.document ltac:(idtac).
Qed.

Lemma document_scheduleRender s :
  Host.document (Host.scheduleRender s) = Host.document s.
Proof.
  cbv delta [Host.scheduleRender]; cbv beta.
  view_solve Host.document ltac:(rewrite ?document_cancelAnimationFrame).
Qed.

Lemma document_resetInactivityTimer s :
  Host.document (Host.resetInactivityTimer s) = Host.document s.
Proof.
  cbv delta [Host.resetInactivityTimer]; cbv beta.
  view_solve Host.document ltac:(rewrite ?document_clearTimeout).
Qed.

(** *** Functions that leave the animation-frame requests alone *)

Lemma fview_clearTimeout h s :
  View.fview (Host.clearTimeout h s) = View.fview s.
Proof.
  cbv delta [Host.clearTimeout]; cbv beta.
  view_solve View.fview ltac:(idtac).
Qed.

Lemma fview_onTouchStart rect touches s :
  View.fview (Host.onTouchStart rect touches s) = View.fview s.
Proof.
  cbv delta [Host.onTouchStart]; cbv beta.
  view_solve View.fview ltac:(idtac).
Qed.

Lemma fview_onTouchEnd s : View.fview (Host.onTouchEnd s) = View.fview s.
Proof.
  cbv delta [Host.onTouchEnd]; cbv beta.
  view_solve View.fview ltac:(idtac).
Qed.

Lemma fview_validateForm s :
  View.fview (snd (Host.validateForm s)) = View.fview s.
Proof.
  cbv delta [Host.validateForm]; cbv beta.
  view_solve View.fview ltac:(idtac).
Qed.

Lemma fview_showLayer layer s :
  View.fview (Host.showLayer layer s) = View.fview s.
Proof.
  cbv delta [Host.showLayer]; cbv beta.
  view_solve View.fview ltac:(idtac).
Qed.

Lemma fview_resetInactivityTimer s :
  View.fview (Host.resetInactivityTimer s) = View.fview s.
Proof.
  cbv delta [Host.resetInactivityTimer]; cbv beta.
  view_solve View.fview ltac:(rewrite ?fview_clearTimeout).
Qed.

Lemma fview_renderGameOfLife s :
  View.fview (Host.state_of (Host.renderGameOfLife s)) = View.fview s.
Proof.
  cbv delta [Host.renderGameOfLife]; cbv beta.
  view_solve View.fview ltac:(idtac).
Qed.

Lemma fview_resetGameGrid random s :
  View.fview (Host.resetGameGrid random s) = View.fview s.
Proof.
  cbv delta [Host.resetGameGrid]; cbv beta.
  view_solve View.fview ltac:(idtac).
Qed.

Lemma fview_animate s :
  View.fview (Host.state_of (Host.animate s)) = View.fview s.
Proof.
  cbv delta [Host.animate]; cbv beta.
  view_solve View.fview ltac:(rewrite ?fview_renderGameOfLife).
Qed.

Lemma fview_startGameOfLife w s :
  View.fview (Host.state_of (Host.startGameOfLife w s)) = View.fview s.
Proof.
  cbv delta [Host.startGameOfLife]; cbv beta.
  view_solve View.fview ltac:(rewrite ?fview_resetGameGrid, ?fview_animate).
Qed.

Lemma fview_showScreensaver w s :
  View.fview (Host.state_of (Host.showScreensaver w s)) = View.fview s.
Proof.
  cbv delta [Host.showScreensaver]; cbv beta.
  view_solve View.fview ltac:(rewrite ?fview_showLayer, ?fview_clearTimeout,
    ?fview_startGameOfLife).
Qed.

Lemma fview_hideScreensaver s :
  View.fview (Host.hideScreensaver s) = View.fview s.
Proof.
  cbv delta [Host.hideScreensaver]; cbv beta.
  view_solve View.fview ltac:(rewrite ?fview_showLayer, ?fview_clearTimeout,
    ?fview_resetInactivityTimer).
Qed.

(** *** Functions that leave the timers, their handles and the screensaver's state alone *)

Lemma tview_cancelAnimationFrame h s :
  View.tview (Host.cancelAnimationFrame h s) = View.tview s.
Proof.
  cbv delta [Host.cancelAnimationFrame]; cbv beta.
  view_solve View.tview ltac:(idtac).
Qed.

Lemma tview_scheduleRender s :
  View.tview (Host.scheduleRender s) = View.tview s.
Proof.
  cbv delta [Host.scheduleRender]; cbv beta.
  view_solve View.tview ltac:(rewrite ?tview_cancelAnimationFrame).
Qed.

Lemma tview_render s : View.tview (Host.render s) = View.tview s.
Proof.
  cbv delta [Host.render]; cbv beta.
  view_solve View.tview ltac:(idtac).
Qed.

Lemma tview_resizeCanvas d s :
  View.tview (Host.resizeCanvas d s) = View.tview s.
Proof.
  cbv delta [Host.resizeCanvas]; cbv beta.
  view_solve View.tview ltac:(rewrite ?tview_scheduleRender).
Qed.

Lemma tview_onMouseMove rect event s :
  View.tview (Host.onMouseMove rect event s) = View.tview s.
Proof.
  cbv delta [Host.onMouseMove]; cbv beta.
  view_solve View.tview ltac:(rewrite ?tview_scheduleRender).
Qed.

Lemma tview_onTouchStart rect touches s :
  View.tview (Host.onTouchStart rect touches s) = View.tview s.
Proof.
  cbv delta [Host.onTouchStart]; cbv beta.
  view_solve View.tview ltac:(idtac).
Qed.

Lemma tview_onTouchMove touches s :
  View.tview (Host.onTouchMove touches s) = View.tview s.
Proof.
  cbv delta [Host.onTouchMove]; cbv beta.
  view_solve View.tview ltac:(rewrite ?tview_scheduleRender).
Qed.

Lemma tview_onTouchEnd s : View.tview (Host.onTouchEnd s) = View.tview s.
Proof.
  cbv delta [Host.onTouchEnd]; cbv beta.
  view_solve View.tview ltac:(idtac).
Qed.

Lemma tview_inputLedOff s : View.tview (Host.inputLedOff s) = View.tview s.
Proof.
  cbv delta [Host.inputLedOff]; cbv beta.
  view_solve View.tview ltac:(rewrite ?tview_scheduleRender).
Qed.

Lemma tview_validateForm s :
  View.tview (snd (Host.validateForm s)) = View.tview s.
Proof.
  cbv delta [Host.validateForm]; cbv beta.
  view_solve View.tview ltac:(idtac).
Qed.

Lemma tview_showLayer layer s :
  View.tview (Host.showLayer layer s) = View.tview s.
Proof.
  cbv delta [Host.showLayer]; cbv beta.
  view_solve View.tview ltac:(idtac).
Qed.

Lemma tview_renderGameOfLife s :
  View.tview (Host.state_of (Host.renderGameOfLife s)) = View.tview s.
Proof.
  cbv delta [Host.renderGameOfLife]; cbv beta.
  view_solve View.tview ltac:(idtac).
Qed.

(** ** Runs *)

Lemma run_invariant (I : Host.State -> Prop) (ok : Host.Event -> Prop) :
  (forall e s, ok e -> I s -> I (Host.state_of (Host.dispatch e s))) ->
  forall events s, Forall ok events -> I s -> I (Host.run events s).
Proof.
  intros Hstep events.
  induction events as [|e events IH]; intros s Hok Hs; cbn [Host.run].
  - exact Hs.
  - inversion Hok; subst. apply IH; [assumption |].
    apply Hstep; assumption.
Qed.

Lemma run_invariant_all (I : Host.State -> Prop) :
  (forall e s, I s -> I (Host.state_of (Host.dispatch e s))) ->
  forall events s, I s -> I (Host.run events s).
Proof.
  intros Hstep events s Hs.
  apply (run_invariant I (fun _ => True)); [auto | | exact Hs].
  apply Forall_forall. intros; exact Logic.I.
Qed.

(** ** The LED colour *)






Lemma frame_render s :
  Host.frame (Host.render s) = Host.frame s \/
  Host.frame (Host.render s)
  = Some (mkUniforms (Host.canvasSize (Host.document s))
            (fst (Host.renderAngles s)) (snd (Host.renderAngles s))
            (Host.ledColor s)).
Proof.
  unfold Host.render.
  destruct (Host.renderingContext s); cbn [negb]; [right | left; reflexivity].
  destruct (Host.renderAngles s) as [pitchAngle yawAngle]. reflexivity.
Qed.





(** ** The pointer *)

Lemma pointerOk_view s' s :
  View.pview s' = View.pview s -> Page.pointerOk s -> Page.pointerOk s'.
Proof.
  unfold View.pview, Page.pointerOk. intros E. injection E as -> -> -> ->.
  auto.
Qed.

Lemma clamp_quarter (v : R) :
  - PI / 4 <= Rmax (- PI / 4) (Rmin (PI / 4) v) <= PI / 4.
Proof.
  pose proof PI_RGT_0.
  unfold Rmax, Rmin.
  destruct (Rle_dec (PI / 4) v); destruct (Rle_dec _ _); lra.
Qed.

Lemma pointerOk_onTouchEnd s :
  Page.pointerOk s -> Page.pointerOk (Host.onTouchEnd s).
Proof.
  intros (Hx & Hy & Hp & Hw & _).
  unfold Page.pointerOk, Host.onTouchEnd; cbn.
  repeat split; try tauto; try lra; intros H; try discriminate; congruence.
Qed.

Lemma pointerOk_onTouchStart rect touches s :
  Page.pointerOk s -> Page.pointerOk (Host.onTouchStart rect touches s).
Proof.
  intros H. unfold Host.onTouchStart.
  destruct (Host.at_ touches 0) as [touch |]; [| exact H].
  destruct (Host.outside rect touch); [exact H |].
  destruct H as (Hx & Hy & Hp & Hw & _).
  unfold Page.pointerOk; cbn.
  repeat split; try tauto; try lra; intros H; try discriminate; congruence.
Qed.

Lemma pointerOk_onTouchMove touches s :
  Page.pointerOk s -> Page.pointerOk (Host.onTouchMove touches s).
Proof.
  intros H. unfold Host.onTouchMove.
  destruct (Host.lastTouchPos s) as [last |] eqn:El; [| exact H].
  destruct (Host.isDragging s) eqn:Ed; cbn [negb]; [| exact H].
  destruct (Host.at_ touches 0) as [touch |]; [| exact H].
  match goal with
  | |- Page.pointerOk (Host.scheduleRender ?x) =>
      apply (pointerOk_view _ x (pview_scheduleRender x))
  end.
  destruct H as (Hx & Hy & Hp & Hw & _).
  unfold Page.pointerOk; cbn.
  rewrite Ed.
  repeat split; try apply clamp_quarter; try tauto; try lra;
    intros H; try discriminate; congruence.
Qed.

Lemma pointerOk_onMouseMove rect event s :
  0 < Host.rect_width rect -> 0 < Host.rect_height rect ->
  Page.pointerOk s -> Page.pointerOk (Host.onMouseMove rect event s).
Proof.
  intros Hw Hh H. unfold Host.onMouseMove.
  destruct (Host.outside rect event) eqn:Eo; [exact H |].
  match goal with
  | |- Page.pointerOk (Host.scheduleRender ?x) =>
      apply (pointerOk_view _ x (pview_scheduleRender x))
  end.
  unfold Host.outside in Eo.
  apply orb_false_iff in Eo. destruct Eo as (Eo & E4).
  apply orb_false_iff in Eo. destruct Eo as (Eo & E3).
  apply orb_false_iff in Eo. destruct Eo as (E1 & E2).
  apply ltb_false_inv in E1, E2, E3, E4.
  unfold Host.rect_right in E2. unfold Host.rect_bottom in E4.
  destruct H as (_ & _ & Hp & Hy & Hd).
  unfold Page.pointerOk; cbn.
  set (cx := Host.clientX event) in *. set (cy := Host.clientY event) in *.
  set (l := Host.rect_left rect) in *. set (t := Host.rect_top rect) in *.
  set (w := Host.rect_width rect) in *. set (h := Host.rect_height rect) in *.
  assert (0 <= (cx - l) / w <= 1).
  { split.
    - apply Rmult_le_pos; [lra | left; apply Rinv_0_lt_compat; exact Hw].
    - apply Rmult_le_reg_r with w; [exact Hw |]. unfold Rdiv.
      rewrite Rmult_assoc, Rinv_l by lra. lra. }
  assert (0 <= (cy - t) / h <= 1).
  { split.
    - apply Rmult_le_pos; [lra | left; apply Rinv_0_lt_compat; exact Hh].
    - apply Rmult_le_reg_r with h; [exact Hh |]. unfold Rdiv.
      rewrite Rmult_assoc, Rinv_l by lra. lra. }
  repeat split; try tauto; lra.
Qed.

Lemma pointerOk_step e s :
  Page.visibleCanvas e -> Page.pointerOk s ->
  Page.pointerOk (Host.state_of (Host.dispatch e s)).
Proof.
  intros Hv H.
  destruct e; cbn [Host.dispatch Host.state_of Page.visibleCanvas] in *.
  - apply (pointerOk_view _ s); [| exact H].
    rewrite pview_resetInactivityTimer, pview_scheduleRender,
      pview_resizeCanvas. reflexivity.
  - apply pointerOk_onMouseMove; tauto.
  - apply (pointerOk_view _ _ (pview_resetInactivityTimer _)).
    apply pointerOk_onTouchStart; exact H.
  - apply (pointerOk_view _ _ (pview_resetInactivityTimer _)).
    apply pointerOk_onTouchMove; exact H.
  - apply pointerOk_onTouchEnd; exact H.
  - apply (pointerOk_view _ s); [| exact H].
    rewrite pview_scheduleRender, pview_resizeCanvas. reflexivity.
  - apply (pointerOk_view _ s); [| exact H].
    rewrite pview_onInputChange. reflexivity.
  - apply (pointerOk_view _ s); [| exact H].
    rewrite pview_onInputChange. reflexivity.
  - apply (pointerOk_view _ s); [| exact H].
    apply pview_resetInactivityTimer.
  - apply (pointerOk_view _ s); [| exact H].
    rewrite pview_hideScreensaver. apply pview_resetInactivityTimer.
  - apply (pointerOk_view _ s); [| exact H]. apply pview_onSubmit.
  - apply (pointerOk_view _ s); [| exact H]. apply pview_fire.
  - destruct (existsb _ _); cbn [Host.state_of]; [| exact H].
    apply (pointerOk_view _ s); [| exact H].
    rewrite pview_render. reflexivity.
Qed.

Lemma clamp_id (lo hi v : R) : lo <= v <= hi -> Rmax lo (Rmin hi v) = v.
Proof.
  intros H. unfold Rmax, Rmin.
  destruct (Rle_dec hi v); destruct (Rle_dec _ _); lra.
Qed.

Lemma PI_above_3 : 3 < PI.
Proof. pose proof PI2_3_2. lra. Qed.

Lemma renderAngles_plain s :
  Page.pointerOk s ->
  Host.renderAngles s = Page.plainAngles s /\
  - (1 / 4) <= fst (Host.renderAngles s) <= 1 / 4 /\
  - (1 / 4) <= snd (Host.renderAngles s) <= 1 / 4.
Proof.
  intros (Hx & Hy & Hp & Hw & Hd).
  pose proof PI_above_3 as Hpi. pose proof PI_4 as Hpi4.
  unfold Host.renderAngles, Page.plainAngles.
  assert (Hcond :
    Host.isDragging s
    || (match Host.lastTouchPos s with None => true | Some _ => false end
        && (negb (GLSL.eqb (Host.pitch (Host.touchAngles s)) 0)
            || negb (GLSL.eqb (Host.yaw (Host.touchAngles s)) 0)))
    = Host.isDragging s
      || negb (GLSL.eqb (Host.pitch (Host.touchAngles s)) 0)
      || negb (GLSL.eqb (Host.yaw (Host.touchAngles s)) 0)).
  { destruct (Host.isDragging s) eqn:Ed; [reflexivity |].
    destruct (Host.lastTouchPos s) as [last |]; [| reflexivity].
    assert (false = true) by (apply Hd; discriminate). discriminate. }
  rewrite Hcond.
  destruct (Host.isDragging s || _ || _); cbv zeta; cbn [x2 y2].
  - rewrite !clamp_id by lra. cbn [fst snd]. repeat split; lra.
  - rewrite !clamp_id by lra. cbn [fst snd]. repeat split; lra.
Qed.

Lemma frame_dispatch e s :
  Host.frame (Host.state_of (Host.dispatch e s)) = Host.frame s \/
  exists h,
    Host.frame (Host.state_of (Host.dispatch e s))
    = Some (mkUniforms (Host.canvasSize (Host.document s))
              (fst (Host.renderAngles (Host.cancelAnimationFrame h s)))
              (snd (Host.renderAngles (Host.cancelAnimationFrame h s)))
              (Host.ledColor s)).
Proof.
  destruct e; cbn [Host.dispatch Host.state_of]; try (left; reflexivity).
  - left. rewrite frame_resetInactivityTimer, frame_scheduleRender,
      frame_resizeCanvas. reflexivity.
  - left. apply frame_onMouseMove.
  - left. rewrite frame_resetInactivityTimer. apply frame_onTouchStart.
  - left. rewrite frame_resetInactivityTimer. apply frame_onTouchMove.
  - left. rewrite frame_scheduleRender. apply frame_resizeCanvas.
  - left. rewrite frame_onInputChange. reflexivity.
  - left. rewrite frame_onInputChange. reflexivity.
  - left. apply frame_resetInactivityTimer.
  - left. rewrite frame_hideScreensaver. apply frame_resetInactivityTimer.
  - left. apply frame_onSubmit.
  - left. apply frame_fire.
  - destruct (existsb _ _); cbn [Host.state_of]; [| left; reflexivity].
    destruct (frame_render (Host.cancelAnimationFrame h s)) as [E | E].
    + left. rewrite E. apply frame_cancelAnimationFrame.
    + right. exists h. exact E.
Qed.

Lemma drawnOk_step e s :
  Page.visibleCanvas e -> Page.drawnOk s ->
  Page.drawnOk (Host.state_of (Host.dispatch e s)).
Proof.
  intros Hv (Hp & Hf). split; [apply pointerOk_step; assumption |].
  intros u Hu.
  destruct (frame_dispatch e s) as [E | (h & E)]; rewrite E in Hu.
  - exact (Hf u Hu).
  - injection Hu as <-.
    assert (Hc : Page.pointerOk (Host.cancelAnimationFrame h s))
      by (apply (pointerOk_view _ s); [reflexivity | exact Hp]).
    destruct (renderAngles_plain _ Hc) as (_ & H1 & H2).
    split; cbn [u_pitch_angle u_yaw_angle]; assumption.
Qed.

Lemma drawnOk_initial d : Page.drawnOk (Host.initial d).
Proof.
  pose proof PI_RGT_0.
  split; [| intros u Hu; discriminate Hu].
  unfold Page.pointerOk; cbn.
  repeat split; try lra; intros H0; try discriminate; congruence.
Qed.

Lemma drawnOk_run d events :
  Forall Page.visibleCanvas events ->
  Page.drawnOk (Host.run events (Host.initial d)).
Proof.
  intros H.
  apply (run_invariant Page.drawnOk Page.visibleCanvas);
    [apply drawnOk_step | exact H | apply drawnOk_initial].
Qed.

(** ** Animation frames *)

Lemma framesOk_view s' s :
  View.fview s' = View.fview s -> Page.framesOk s -> Page.framesOk s'.
Proof.
  unfold View.fview, Page.framesOk. intros E. injection E as -> -> ->.
  auto.
Qed.

Lemma scheduleRender_frames s :
  Page.framesOk s ->
  Host.frames (Host.scheduleRender s) = [Host.nextFrame s] /\
  Host.pendingAnimationFrame (Host.scheduleRender s)
  = Some (Host.nextFrame s) /\
  Host.nextFrame (Host.scheduleRender s) = S (Host.nextFrame s).
Proof.
  intros (Hf & Hp & Hn).
  unfold Host.scheduleRender, Host.requestAnimationFrame,
    Host.cancelAnimationFrame.
  destruct (Host.pendingAnimationFrame s) as [h |] eqn:Ep.
  - pose proof (Hp h eq_refl) as Hh.
    destruct h as [| h']; [lia |]. cbn [Host.truthy].
    destruct Hf as [E | (h0 & E & E0)]; rewrite E; [cbn; auto |].
    injection E0 as ->. cbn. rewrite Nat.eqb_refl. cbn. auto.
  - destruct Hf as [E | (h0 & _ & E0)]; [| discriminate].
    cbn. rewrite E. auto.
Qed.

Lemma framesOk_scheduleRender s :
  Page.framesOk s -> Page.framesOk (Host.scheduleRender s).
Proof.
  intros H. destruct (scheduleRender_frames s H) as (E1 & E2 & E3).
  destruct H as (_ & _ & Hn).
  unfold Page.framesOk. rewrite E1, E2, E3.
  split; [right; eexists; split; reflexivity |].
  split; [| lia]. intros h Hh. injection Hh as <-. exact Hn.
Qed.

Lemma framesOk_resizeCanvas d s :
  Page.framesOk s -> Page.framesOk (Host.resizeCanvas d s).
Proof.
  intros H. cbv delta [Host.resizeCanvas]; cbv beta.
  inv_solve Page.framesOk View.fview framesOk_view ltac:(idtac)
    ltac:(apply framesOk_scheduleRender).
Qed.

Lemma framesOk_onMouseMove rect event s :
  Page.framesOk s -> Page.framesOk (Host.onMouseMove rect event s).
Proof.
  intros H. cbv delta [Host.onMouseMove]; cbv beta.
  inv_solve Page.framesOk View.fview framesOk_view ltac:(idtac)
    ltac:(apply framesOk_scheduleRender).
Qed.

Lemma framesOk_onTouchMove touches s :
  Page.framesOk s -> Page.framesOk (Host.onTouchMove touches s).
Proof.
  intros H. cbv delta [Host.onTouchMove]; cbv beta.
  inv_solve Page.framesOk View.fview framesOk_view ltac:(idtac)
    ltac:(apply framesOk_scheduleRender).
Qed.

Lemma framesOk_onInputChange s :
  Page.framesOk s -> Page.framesOk (Host.onInputChange s).
Proof.
  intros H. cbv delta [Host.onInputChange]; cbv beta.
  inv_solve Page.framesOk View.fview framesOk_view
    ltac:(rewrite ?fview_clearTimeout)
    ltac:(apply framesOk_scheduleRender).
Qed.

Lemma framesOk_inputLedOff s :
  Page.framesOk s -> Page.framesOk (Host.inputLedOff s).
Proof.
  intros H. cbv delta [Host.inputLedOff]; cbv beta.
  inv_solve Page.framesOk View.fview framesOk_view ltac:(idtac)
    ltac:(apply framesOk_scheduleRender).
Qed.

Lemma framesOk_onSubmit s :
  Page.framesOk s -> Page.framesOk (Host.onSubmit s).
Proof.
  intros H. cbv delta [Host.onSubmit]; cbv beta.
  inv_solve Page.framesOk View.fview framesOk_view
    ltac:(rewrite ?fview_clearTimeout, ?fview_resetInactivityTimer,
            ?fview_validateForm, ?fview_showLayer)
    ltac:(apply framesOk_scheduleRender).
Qed.

Lemma framesOk_submitDone s :
  Page.framesOk s -> Page.framesOk (Host.submitDone s).
Proof.
  intros H. cbv delta [Host.submitDone]; cbv beta.
  inv_solve Page.framesOk View.fview framesOk_view
    ltac:(rewrite ?fview_resetInactivityTimer, ?fview_showLayer)
    ltac:(apply framesOk_scheduleRender).
Qed.

Lemma framesOk_fire h w s :
  Page.framesOk s -> Page.framesOk (Host.state_of (Host.fire h w s)).
Proof.
  intros H. cbv delta [Host.fire]; cbv beta.
  inv_solve Page.framesOk View.fview framesOk_view
    ltac:(rewrite ?fview_clearTimeout, ?fview_showScreensaver,
            ?fview_animate, ?fview_resetGameGrid)
    ltac:(first [apply framesOk_inputLedOff | apply framesOk_submitDone]).
Qed.

Lemma framesOk_render h s :
  Page.framesOk s -> existsb (Nat.eqb h) (Host.frames s) = true ->
  Page.framesOk (Host.render (Host.cancelAnimationFrame h s)).
Proof.
  intros (Hf & Hp & Hn) Hh.
  assert (E : Host.frames (Host.cancelAnimationFrame h s) = []).
  { unfold Host.cancelAnimationFrame; cbn.
    destruct Hf as [E | (h0 & E & _)]; rewrite E in *; [reflexivity |].
    cbn in Hh. rewrite orb_false_r in Hh. apply Nat.eqb_eq in Hh. subst h0.
    cbn. rewrite Nat.eqb_refl. reflexivity. }
  unfold Host.render.
  destruct (Host.renderingContext _); cbn [negb].
  - destruct (Host.renderAngles _) as [pitchAngle yawAngle].
    unfold Page.framesOk; cbn.
    split; [left; exact E | split; [intros h0 H0; discriminate | exact Hn]].
  - unfold Page.framesOk; cbn.
    split; [left; exact E | split; [exact Hp | exact Hn]].
Qed.

Lemma framesOk_step e s :
  Page.framesOk s -> Page.framesOk (Host.state_of (Host.dispatch e s)).
Proof.
  intros H. destruct e; cbn [Host.dispatch Host.state_of].
  - apply (framesOk_view _ _ (fview_resetInactivityTimer _)).
    apply framesOk_scheduleRender, framesOk_resizeCanvas.
    apply (framesOk_view _ s eq_refl H).
  - apply framesOk_onMouseMove, H.
  - apply (framesOk_view _ _ (fview_resetInactivityTimer _)).
    apply (framesOk_view _ _ (fview_onTouchStart _ _ _)), H.
  - apply (framesOk_view _ _ (fview_resetInactivityTimer _)).
    apply framesOk_onTouchMove, H.
  - apply (framesOk_view _ _ (fview_onTouchEnd _)), H.
  - apply framesOk_scheduleRender, framesOk_resizeCanvas, H.
  - apply framesOk_onInputChange. apply (framesOk_view _ s eq_refl H).
  - apply framesOk_onInputChange. apply (framesOk_view _ s eq_refl H).
  - apply (framesOk_view _ _ (fview_resetInactivityTimer _)), H.
  - apply (framesOk_view _ _ (fview_hideScreensaver _)).
    apply (framesOk_view _ _ (fview_resetInactivityTimer _)), H.
  - apply framesOk_onSubmit, H.
  - apply framesOk_fire, H.
  - destruct (existsb _ _) eqn:E; cbn [Host.state_of]; [| exact H].
    apply framesOk_render; assumption.
Qed.

Lemma framesOk_initial d : Page.framesOk (Host.initial d).
Proof.
  unfold Page.framesOk; cbn.
  split; [left; reflexivity | split; [intros h H; discriminate | lia]].
Qed.

Lemma framesOk_run d events :
  Page.framesOk (Host.run events (Host.initial d)).
Proof.
  apply run_invariant_all; [apply framesOk_step | apply framesOk_initial].
Qed.

(** ** Timers *)

Lemma Callback_eqb_eq (a b : Host.Callback) :
  Host.Callback_eqb a b = true <-> a = b.
Proof. destruct a, b; cbn; split; intros H; congruence. Qed.

Lemma Callback_eqb_neq (a b : Host.Callback) :
  Host.Callback_eqb a b = false <-> a <> b.
Proof. destruct a, b; cbn; split; intros H; congruence. Qed.

Lemma handleOf_setHandle k k' v s :
  Page.handleOf k' (Page.setHandle k v s)
  = if Host.Callback_eqb k' k then v else Page.handleOf k' s.
Proof. destruct k, k'; reflexivity. Qed.

Lemma setHandle_rest k v s :
  Host.timers (Page.setHandle k v s) = Host.timers s /\
  Host.nextTimer (Page.setHandle k v s) = Host.nextTimer s /\
  Host.screensaverActive (Page.setHandle k v s) = Host.screensaverActive s /\
  Host.gameGrid (Page.setHandle k v s) = Host.gameGrid s.
Proof. destruct k; repeat split. Qed.

Lemma handleOf_tview s' s :
  View.tview s' = View.tview s ->
  forall k, Page.handleOf k s' = Page.handleOf k s.
Proof.
  unfold View.tview. intros E k.
  injection E as _ _ E1 E2 E3 E4 E5 _ _.
  destruct k; assumption.
Qed.

Lemma settled_intro (q : Host.Callback -> bool) b s :
  (1 <= Host.nextTimer s)%nat ->
  (forall k h, Page.handleOf k s = Some h ->
     (1 <= h < Host.nextTimer s)%nat) ->
  NoDup (map Host.handle (Host.timers s)) ->
  (forall t, In t (Host.timers s) ->
     Page.handleOf (Host.callback t) s = Some (Host.handle t)) ->
  (forall t, In t (Host.timers s) ->
     Host.repeats t = true -> Host.callback t = Host.ResetGrid) ->
  (forall t, In t (Host.timers s) ->
     Host.callback t = Host.Animate -> Life.square (Host.gameGrid s)) ->
  (forall k, q k = true -> Page.quiet k s) ->
  Host.screensaverActive s = b ->
  Page.settled q b s.
Proof. unfold Page.settled, Page.core. tauto. Qed.

Lemma settled_tview s' s q b :
  View.tview s' = View.tview s -> Page.settled q b s -> Page.settled q b s'.
Proof.
  intros E. pose proof (handleOf_tview s' s E) as Eh.
  unfold View.tview in E. injection E as Et En _ _ _ _ _ Ea Eg.
  intros ((H1 & H2 & H3 & H4 & H5 & H6) & Hq & Hb).
  apply settled_intro; unfold Page.quiet in *; rewrite ?Et, ?En, ?Ea, ?Eg;
    try assumption.
  - intros k h H. rewrite Eh in H. apply (H2 k h H).
  - intros t Ht. rewrite Eh. apply H4, Ht.
Qed.

Lemma settled_weaken (q q' : Host.Callback -> bool) b s :
  (forall k, q' k = true -> q k = true) ->
  Page.settled q b s -> Page.settled q' b s.
Proof.
  intros Hsub (Hc & Hq & Hb). split; [exact Hc | split; [| exact Hb]].
  intros k Hk. apply Hq, Hsub, Hk.
Qed.

(** Cancelling timers keeps the handles of the others distinct. *)
Lemma NoDup_handles_filter (keep : Host.Timer -> bool)
  (ts : list Host.Timer) :
  NoDup (map Host.handle ts) -> NoDup (map Host.handle (filter keep ts)).
Proof.
  induction ts as [| t ts IH]; cbn [filter map]; intros H; [constructor |].
  inversion H as [| h hs Hfresh Hrest]; subst.
  destruct (keep t); [| exact (IH Hrest)].
  cbn [map]. constructor; [| exact (IH Hrest)].
  intros Hin. apply Hfresh.
  apply in_map_iff in Hin. destruct Hin as (t' & E & Ht').
  apply in_map_iff. exists t'. split; [exact E |].
  apply filter_In in Ht'. exact (proj1 Ht').
Qed.

Lemma settled_clearTimeout h q b s :
  Page.settled q b s -> Page.settled q b (Host.clearTimeout h s).
Proof.
  intros ((H1 & H2 & H3 & H4 & H5 & H6) & Hq & Hb).
  assert (Hk : forall k, Page.handleOf k (Host.clearTimeout h s)
                         = Page.handleOf k s) by (destruct k; reflexivity).
  assert (Ht : Host.timers (Host.clearTimeout h s)
               = filter (fun t => negb (Nat.eqb (Host.handle t) h))
                   (Host.timers s)) by reflexivity.
  apply settled_intro; unfold Page.quiet; rewrite ?Ht; try assumption.
  - apply NoDup_handles_filter, H3.
  - intros t Hin. apply filter_In in Hin. rewrite Hk. apply H4. tauto.
  - intros t Hin. apply filter_In in Hin. apply H5. tauto.
  - intros t Hin. apply filter_In in Hin. apply H6. tauto.
  - intros k Hk' t Hin. apply filter_In in Hin. apply (Hq k Hk'). tauto.
Qed.

Lemma quiet_after_clear k h s :
  Page.core s -> Page.handleOf k s = Some h ->
  Page.quiet k (Host.clearTimeout h s).
Proof.
  intros (H1 & H2 & H3 & H4 & H5 & H6) Hk t Ht Hc.
  unfold Host.clearTimeout in Ht. cbn in Ht.
  apply filter_In in Ht. destruct Ht as (Ht & Hne).
  pose proof (H4 t Ht) as E. rewrite Hc, Hk in E. injection E as ->.
  rewrite Nat.eqb_refl in Hne. discriminate.
Qed.

Lemma quiet_without_handle k s :
  Page.core s -> Page.handleOf k s = None -> Page.quiet k s.
Proof.
  intros (H1 & H2 & H3 & H4 & H5 & H6) Hk t Ht Hc.
  pose proof (H4 t Ht) as E. rewrite Hc, Hk in E. discriminate.
Qed.

Lemma also_spec k q k' :
  Page.also k q k' = true -> k' = k \/ q k' = true.
Proof.
  unfold Page.also. intros H. apply orb_true_iff in H.
  destruct H as [H | H]; [left; apply Callback_eqb_eq, H | right; exact H].
Qed.

Lemma except_spec k q k' :
  Page.except k q k' = true -> k' <> k /\ q k' = true.
Proof.
  unfold Page.except. intros H. apply andb_true_iff in H.
  destruct H as (H1 & H2). split; [| exact H2].
  apply Callback_eqb_neq. destruct (Host.Callback_eqb k' k);
    [discriminate | reflexivity].
Qed.

Lemma settled_clearVar k q b s :
  Page.settled q b s -> Page.settled (Page.also k q) b (Page.clearVar k s).
Proof.
  intros H. unfold Page.clearVar.
  destruct (Page.handleOf k s) as [h |] eqn:Ek.
  - destruct H as (Hc & Hq & Hb).
    assert (Hh : (1 <= h)%nat)
      by (destruct Hc as (_ & H2 & _); apply (H2 k h Ek)).
    destruct h as [| h']; [lia |]. cbn [Host.truthy].
    destruct (settled_clearTimeout (S h') q b s (conj Hc (conj Hq Hb)))
      as (Hc' & Hq' & Hb').
    split; [exact Hc' | split; [| exact Hb']].
    intros k' Hk'. apply also_spec in Hk'. destruct Hk' as [-> | Hk'].
    + apply quiet_after_clear; assumption.
    + apply Hq', Hk'.
  - destruct H as (Hc & Hq & Hb).
    split; [exact Hc | split; [| exact Hb]].
    intros k' Hk'. apply also_spec in Hk'. destruct Hk' as [-> | Hk'].
    + apply quiet_without_handle; assumption.
    + apply Hq, Hk'.
Qed.

Lemma settled_setNone k q b s :
  Page.settled q b s -> q k = true ->
  Page.settled q b (Page.setHandle k None s).
Proof.
  intros ((H1 & H2 & H3 & H4 & H5 & H6) & Hq & Hb) Hk.
  destruct (setHandle_rest k None s) as (Et & En & Ea & Eg).
  apply settled_intro; unfold Page.quiet in *; rewrite ?Et, ?En, ?Ea, ?Eg;
    try assumption.
  - intros k0 h H. rewrite handleOf_setHandle in H.
    destruct (Host.Callback_eqb k0 k); [discriminate |]. apply (H2 k0 h H).
  - intros t Ht. rewrite handleOf_setHandle.
    destruct (Host.Callback_eqb (Host.callback t) k) eqn:E; [| apply H4, Ht].
    apply Callback_eqb_eq in E. destruct (Hq k Hk t Ht E).
Qed.

Lemma settled_dropVar k q b s :
  Page.settled q b s -> Page.settled (Page.also k q) b (Page.dropVar k s).
Proof.
  intros H. pose proof (settled_clearVar k q b s H) as Hc.
  unfold Page.clearVar in Hc. unfold Page.dropVar.
  destruct (Page.handleOf k s) as [h |]; [| exact Hc].
  destruct (Host.truthy (Some h)); [| exact Hc].
  apply settled_setNone; [exact Hc |].
  unfold Page.also. destruct k; reflexivity.
Qed.

Lemma settled_arm k ms again q b s :
  Page.settled q b s -> q k = true ->
  (again = true -> k = Host.ResetGrid) ->
  (k = Host.Animate -> Life.square (Host.gameGrid s)) ->
  Page.settled (Page.except k q) b (Page.arm k ms again s).
Proof.
  intros ((H1 & H2 & H3 & H4 & H5 & H6) & Hq & Hb) Hk Hagain Hgrid.
  unfold Page.arm.
  set (n := Host.nextTimer s).
  set (t0 := Host.mkTimer n k ms again).
  set (s1 := Host.set_nextTimer (S n) (Host.set_timers (t0 :: Host.timers s) s)).
  destruct (setHandle_rest k (Some n) s1) as (Et & En & Ea & Eg).
  assert (Hh : forall k', Page.handleOf k' s1 = Page.handleOf k' s)
    by (destruct k'; reflexivity).
  assert (Hold : forall t, In t (Host.timers s) ->
                 (Host.handle t < n)%nat /\ Host.callback t <> k).
  { intros t Ht. split; [| exact (Hq k Hk t Ht)].
    apply (H2 _ _ (H4 t Ht)). }
  apply settled_intro; unfold Page.quiet; rewrite ?Et, ?En, ?Ea, ?Eg;
    subst s1;
    cbn [Host.set_nextTimer Host.set_timers Host.timers
         Host.nextTimer Host.screensaverActive Host.gameGrid].
  - lia.
  - intros k0 h H. rewrite handleOf_setHandle, Hh in H. fold n in H1, H2.
    destruct (Host.Callback_eqb k0 k);
      [injection H as <-; lia | pose proof (H2 k0 h H); lia].
  - cbn [map]. constructor; [| exact H3].
    intros Hin. apply in_map_iff in Hin. destruct Hin as (t & E & Ht).
    destruct (Hold t Ht) as (Hlt & _). subst t0. cbn in E. lia.
  - intros t [<- | Ht]; rewrite handleOf_setHandle, Hh.
    + cbn. destruct (Host.Callback_eqb k k) eqn:E; [reflexivity |].
      apply Callback_eqb_neq in E. congruence.
    + destruct (Hold t Ht) as (_ & Hne).
      apply Callback_eqb_neq in Hne. rewrite Hne. apply H4, Ht.
  - intros t [<- | Ht] Hr; [cbn in *; auto | apply H5; assumption].
  - intros t [<- | Ht] Hc; [cbn in Hc; auto | apply (H6 t Ht Hc)].
  - intros k' Hk' t [<- | Ht].
    + apply except_spec in Hk'. cbn. intros E. symmetry in E. tauto.
    + apply except_spec in Hk'. apply (Hq k'); tauto.
  - exact Hb.
Qed.

Lemma settled_active b' q b s :
  Page.settled q b s -> Page.settled q b' (Host.set_screensaverActive b' s).
Proof.
  intros (Hc & Hq & Hb). split; [exact Hc | split; [exact Hq | reflexivity]].
Qed.

Lemma settled_gameGrid g q b s :
  Page.settled q b s -> Life.square g ->
  Page.settled q b (Host.set_gameGrid g s).
Proof.
  intros ((H1 & H2 & H3 & H4 & H5 & H6) & Hq & Hb) Hg.
  apply settled_intro; try assumption.
  intros t Ht Hc. exact Hg.
Qed.

(** ** Drawing the grid *)

Lemma fold_range_acc {A : Type} (F : A -> Z -> A) (P : Z -> A -> Prop)
  (n : nat) (a0 : A) :
  P 0%Z a0 ->
  (forall k a, (0 <= k < Z.of_nat n)%Z -> P k a -> P (k + 1)%Z (F a k)) ->
  P (Z.of_nat n) (fold_left F (Host.range 0 n) a0).
Proof.
  intros H0 Hstep. induction n as [|n IH].
  - exact H0.
  - unfold Host.range in *.
    rewrite seq_S, map_app, fold_left_app.
    cbn [map fold_left Nat.add]. rewrite Z.add_0_l.
    replace (Z.of_nat (S n)) with (Z.of_nat n + 1)%Z by lia.
    apply Hstep; [lia |]. apply IH. intros k a Hk. apply Hstep. lia.
Qed.

Lemma drawCells_spec (g : Host.Grid) (cellWidth cellHeight radius : R) :
  (Z.to_nat Host.GRID_SIZE <= List.length g)%nat ->
  snd (Host.drawCells g cellWidth cellHeight radius) = true /\
  forall a,
    In a (fst (Host.drawCells g cellWidth cellHeight radius)) <->
    exists x y,
      (0 <= x < Host.GRID_SIZE)%Z /\ (0 <= y < Host.GRID_SIZE)%Z /\
      Life.cell g x y = true /\
      a = Life.arcOf cellWidth cellHeight radius x y.
Proof.
  intros Hg.
  pose (inner := fun (x : Z) (acc : list Host.Arc * bool) (y : Z) =>
          match acc with
          | (drawn, false) => (drawn, false)
          | (drawn, true) =>
              match Host.at_ g x with
              | None => (drawn, false)
              | Some row =>
                  if Host.holds (Host.at_ row y)
                  then
                    (drawn
                     ++ [Host.mkArc ((IZR x + 0.5) * cellWidth)
                           ((IZR y + 0.5) * cellHeight) radius], true)
                  else (drawn, true)
              end
          end).
  change (Host.drawCells g cellWidth cellHeight radius)
    with (fold_left
            (fun acc x =>
               fold_left (inner x) (Host.range 0 (Z.to_nat Host.GRID_SIZE))
                 acc)
            (Host.range 0 (Z.to_nat Host.GRID_SIZE))
            (@nil Host.Arc, true)).
  set (Q := fun (x y : Z) (acc : list Host.Arc * bool) =>
              snd acc = true /\
              forall a, In a (fst acc) <->
                exists x' y', Life.livingBefore g x y x' y' /\
                  a = Life.arcOf cellWidth cellHeight radius x' y').
  assert (Hn : Z.of_nat (Z.to_nat Host.GRID_SIZE) = Host.GRID_SIZE)
    by reflexivity.
  assert (Hrow : forall x acc, (0 <= x < Host.GRID_SIZE)%Z ->
            Q x 0%Z acc ->
            Q (x + 1)%Z 0%Z
              (fold_left (inner x) (Host.range 0 (Z.to_nat Host.GRID_SIZE))
                 acc)).
  { intros x acc Hx Hacc.
    assert (Hend : Q x Host.GRID_SIZE
              (fold_left (inner x) (Host.range 0 (Z.to_nat Host.GRID_SIZE))
                 acc)).
    { rewrite <- Hn at 1.
      apply (fold_range_acc (inner x) (fun y acc => Q x y acc));
        [exact Hacc |].
      intros y [drawn ok] Hy (Hok & Hin). cbn [fst snd] in Hok, Hin.
      subst ok. unfold inner.
      destruct (at_in_range g x) as (row & Erow);
        [rewrite GRID_SIZE_nat in Hg; unfold Host.GRID_SIZE in Hx; lia |].
      rewrite Erow.
      assert (Ecell : Host.holds (Host.at_ row y) = Life.cell g x y)
        by (unfold Life.cell; rewrite Erow; reflexivity).
      rewrite Ecell. rewrite Hn in Hy.
      destruct (Life.cell g x y) eqn:Ec; cbv zeta; split;
        cbn [fst snd]; try reflexivity; intros a.
      - rewrite in_app_iff, Hin. cbn [In]. split.
        + intros [(x' & y' & (Hx' & Hy' & Hlt & Hc) & Ea) | [Ea | []]].
          * exists x', y'. split; [| exact Ea].
            repeat split; try assumption; lia.
          * exists x, y. split; [| symmetry; exact Ea].
            repeat split; try assumption; lia.
        + intros (x' & y' & (Hx' & Hy' & Hlt & Hc) & Ea).
          destruct (Z.eq_dec x' x) as [-> | Hne];
            [destruct (Z.eq_dec y' y) as [-> | Hney] |].
          * right. left. symmetry. exact Ea.
          * left. exists x, y'. split; [| exact Ea].
            repeat split; try assumption; lia.
          * left. exists x', y'. split; [| exact Ea].
            repeat split; try assumption; lia.
      - rewrite Hin. split.
        + intros (x' & y' & (Hx' & Hy' & Hlt & Hc) & Ea).
          exists x', y'. split; [| exact Ea].
          repeat split; try assumption; lia.
        + intros (x' & y' & (Hx' & Hy' & Hlt & Hc) & Ea).
          exists x', y'. split; [| exact Ea].
          assert (Hne : ~ (x' = x /\ y' = y))
            by (intros (-> & ->); congruence).
          repeat split; try assumption; lia. }
    destruct Hend as (Hok & Hin). split; [exact Hok |].
    intros a. rewrite Hin. split;
      intros (x' & y' & (Hx' & Hy' & Hlt & Hc) & Ea);
      exists x', y'; (split; [| exact Ea]);
      repeat split; try assumption; lia. }
  assert (Hall : Q Host.GRID_SIZE 0%Z
            (fold_left
               (fun acc x =>
                  fold_left (inner x)
                    (Host.range 0 (Z.to_nat Host.GRID_SIZE)) acc)
               (Host.range 0 (Z.to_nat Host.GRID_SIZE)) ([], true))).
  { rewrite <- Hn at 1.
    apply (fold_range_acc
             (fun acc x =>
                fold_left (inner x)
                  (Host.range 0 (Z.to_nat Host.GRID_SIZE)) acc)
             (fun x acc => Q x 0%Z acc)).
    - split; [reflexivity |]. intros a. cbn [fst In]. split; [tauto |].
      intros (x' & y' & (Hx' & Hy' & Hlt & Hc) & Ea). lia.
    - intros x acc Hx Hacc. apply Hrow; [rewrite Hn in Hx; exact Hx | exact Hacc]. }
  destruct Hall as (Hok & Hin). split; [exact Hok |].
  intros a. rewrite Hin. split.
  - intros (x' & y' & (Hx' & Hy' & Hlt & Hc) & Ea). exists x', y'. tauto.
  - intros (x' & y' & Hx' & Hy' & Hc & Ea). exists x', y'.
    split; [| exact Ea]. repeat split; try assumption; lia.
Qed.

Lemma renderGameOfLife_done s :
  (Z.to_nat Host.GRID_SIZE <= List.length (Host.gameGrid s))%nat ->
  exists s',
    Host.renderGameOfLife s = Host.Done s' /\ View.tview s' = View.tview s.
Proof.
  intros Hg. unfold Host.renderGameOfLife.
  destruct (Host.screensaverActive s); cbn [negb];
    [| exists s; split; reflexivity].
  cbv zeta.
  match goal with
  | |- context [Host.drawCells ?g ?cw ?ch ?r] =>
      destruct (drawCells_spec g cw ch r Hg) as (Hok & _);
      destruct (Host.drawCells g cw ch r) as [drawn ok]
  end.
  cbn [snd] in Hok. subst ok.
  eexists. split; reflexivity.
Qed.

(** ** Timers along the listeners *)

Lemma settled_of_timersOk s :
  Page.timersOk s ->
  Page.settled (Page.modeQuiet (Host.screensaverActive s))
    (Host.screensaverActive s) s.
Proof.
  intros (Hc & Hon & Hoff).
  split; [exact Hc | split; [| reflexivity]].
  intros k Hk. destruct (Host.screensaverActive s).
  - apply also_spec in Hk. destruct Hk as [-> | Hk];
      [apply Hon; reflexivity | discriminate].
  - destruct (Hoff eq_refl) as (Ha & Hr).
    apply also_spec in Hk. destruct Hk as [-> | Hk]; [exact Ha |].
    apply also_spec in Hk. destruct Hk as [-> | Hk];
      [exact Hr | discriminate].
Qed.

Lemma timersOk_of_settled q b s :
  Page.settled q b s ->
  (forall k, Page.modeQuiet b k = true -> q k = true) ->
  Page.timersOk s.
Proof.
  intros (Hc & Hq & Hb) Hsub.
  split; [exact Hc |]. split; intros Ha; rewrite Ha in Hb; subst b.
  - apply Hq, Hsub. reflexivity.
  - split; apply Hq, Hsub; reflexivity.
Qed.

Lemma resetInactivityTimer_eq s :
  Host.resetInactivityTimer s
  = (let s1 := Page.clearVar Host.Inactivity s in
     if Host.screensaverActive s1 then s1
     else Page.arm Host.Inactivity 10000 false s1).
Proof.
  cbv beta iota zeta delta
    [Host.resetInactivityTimer Page.arm Page.clearVar Page.dropVar Page.setHandle Page.handleOf
     Host.setTimeout Host.setInterval Host.setTimer Host.clearInterval].
  reflexivity.
Qed.

Lemma settled_reset q b s :
  Page.settled q b s ->
  Page.settled (Page.afterReset b q) b (Host.resetInactivityTimer s).
Proof.
  intros H. rewrite resetInactivityTimer_eq. cbv zeta.
  pose proof (settled_clearVar Host.Inactivity q b s H) as H1.
  assert (Hb : Host.screensaverActive (Page.clearVar Host.Inactivity s) = b)
    by (destruct H1 as (_ & _ & Hb); exact Hb).
  rewrite Hb. unfold Page.afterReset. destruct b; [exact H1 |].
  apply settled_arm; [exact H1 | reflexivity | discriminate | discriminate].
Qed.

Lemma onInputChange_eq s :
  Host.onInputChange s
  = Page.arm Host.InputLedOff 100 false
      (Host.scheduleRender
         (Host.set_ledColor Host.LED_GREEN
            (Page.clearVar Host.InputLedOff s))).
Proof.
  cbv beta iota zeta delta
    [Host.onInputChange Page.arm Page.clearVar Page.dropVar Page.setHandle Page.handleOf
     Host.setTimeout Host.setInterval Host.setTimer Host.clearInterval].
  reflexivity.
Qed.

Lemma settled_onInputChange q b s :
  Page.settled q b s ->
  Page.settled (Page.except Host.InputLedOff (Page.also Host.InputLedOff q))
    b (Host.onInputChange s).
Proof.
  intros H. rewrite onInputChange_eq.
  apply settled_arm; [| reflexivity | discriminate | discriminate].
  apply (settled_tview _ (Page.clearVar Host.InputLedOff s));
    [rewrite tview_scheduleRender; reflexivity |].
  apply settled_clearVar, H.
Qed.

Lemma settled_onSubmit q b s :
  Page.settled q b s ->
  Page.settled
    (Page.except Host.SubmitDone
       (Page.also Host.SubmitDone (Page.afterReset b q)))
    b (Host.onSubmit s).
Proof.
  intros H. cbv delta [Host.onSubmit]; cbv beta.
  let_step.
  assert (H1 : Page.settled (Page.afterReset b q) b st)
    by (subst st; apply settled_reset, H).
  clearbody st. let_step.
  assert (H2 : Page.settled (Page.also Host.SubmitDone (Page.afterReset b q))
                 b st0)
    by (subst st0; apply (settled_clearVar Host.SubmitDone), H1).
  clearbody st0.
  destruct (Host.validateForm st0) as [valid s3] eqn:E.
  assert (E3 : View.tview s3 = View.tview st0)
    by (rewrite <- (tview_validateForm st0), E; reflexivity).
  clear E. repeat let_step. host_prims. cbv iota beta.
  match goal with
  | |- Page.settled _ _ (Host.set_submitTimeout (Some (Host.nextTimer ?x)) _)
    => apply (settled_arm Host.SubmitDone 3000 false _ b x);
       [| reflexivity | discriminate | discriminate]
  end.
  apply (settled_tview _ st0); [| exact H2].
  rewrite <- E3.
  view_solve View.tview
    ltac:(rewrite ?tview_scheduleRender, ?tview_showLayer).
Qed.

Lemma settled_submitDone q b s :
  Page.settled q b s -> q Host.SubmitDone = true ->
  Page.settled (Page.afterReset b q) b (Host.submitDone s).
Proof.
  intros H Hk. cbv delta [Host.submitDone]; cbv beta.
  repeat let_step.
  apply (settled_setNone Host.SubmitDone);
    [| unfold Page.afterReset, Page.also, Page.except;
       destruct b; cbn; rewrite Hk; reflexivity].
  subst st2. apply settled_reset.
  apply (settled_tview _ s); [| exact H].
  view_solve View.tview
    ltac:(rewrite ?tview_scheduleRender, ?tview_showLayer).
Qed.

Lemma square_rows (g : Host.Grid) :
  Life.square g -> (Z.to_nat Host.GRID_SIZE <= List.length g)%nat.
Proof. intros (H & _). rewrite H. apply Nat.le_refl. Qed.

Lemma animate_done q s :
  Page.settled q true s -> q Host.Animate = true ->
  Life.square (Host.gameGrid s) ->
  exists s',
    Host.animate s = Host.Done s' /\
    Page.settled (Page.except Host.Animate q) true s'.
Proof.
  intros H Hk Hg. unfold Host.animate.
  assert (Hb : Host.screensaverActive s = true)
    by (destruct H as (_ & _ & Hb); exact Hb).
  rewrite Hb. cbn [negb].
  destruct (updateGameOfLife_cells (Host.gameGrid s) (square_rows _ Hg))
    as (g' & Eg & Hg' & _).
  rewrite Eg.
  pose proof (settled_gameGrid g' q true s H Hg') as H1.
  set (s1 := Host.set_gameGrid g' s) in *.
  destruct (renderGameOfLife_done s1) as (s2 & E2 & V2);
    [apply square_rows; exact Hg' |].
  rewrite E2.
  pose proof (settled_tview s2 s1 q true V2 H1) as H2.
  eexists. split; [reflexivity |].
  apply (settled_arm Host.Animate 250 false q true s2 H2 Hk);
    [discriminate |].
  intros _.
  assert (Egrid : Host.gameGrid s2 = Host.gameGrid s1)
    by (unfold View.tview in V2; injection V2; auto).
  rewrite Egrid. exact Hg'.
Qed.

Lemma resetGameGrid_square random s :
  Life.square (Host.gameGrid (Host.resetGameGrid random s)).
Proof.
  unfold Host.resetGameGrid. cbn [Host.set_gameGrid Host.gameGrid].
  split.
  - rewrite length_map, length_seq. reflexivity.
  - apply Forall_forall. intros row Hrow.
    apply in_map_iff in Hrow. destruct Hrow as (x & <- & _).
    rewrite length_map, length_seq. reflexivity.
Qed.

Lemma settled_resetGameGrid random q b s :
  Page.settled q b s -> Page.settled q b (Host.resetGameGrid random s).
Proof.
  intros H. apply settled_gameGrid; [exact H |].
  apply (resetGameGrid_square random s).
Qed.

Lemma startGameOfLife_outcome w q s :
  Page.settled q true s ->
  q Host.Animate = true -> q Host.ResetGrid = true ->
  Page.noTypeError (Host.startGameOfLife w s) /\
  Page.settled (Page.except Host.ResetGrid (Page.except Host.Animate q)) true
    (Host.state_of (Host.startGameOfLife w s)).
Proof.
  intros H Ha Hr. unfold Host.startGameOfLife.
  assert (Hb : Host.screensaverActive s = true)
    by (destruct H as (_ & _ & Hb); exact Hb).
  rewrite Hb. cbn [negb].
  assert (Hsub : forall k,
            Page.except Host.ResetGrid (Page.except Host.Animate q) k = true
            -> q k = true).
  { intros k Hk. apply except_spec in Hk. destruct Hk as (_ & Hk).
    apply except_spec in Hk. tauto. }
  destruct (Host.context w); cbn [negb];
    [| split; [exact Logic.I | exact (settled_weaken _ _ _ _ Hsub H)]].
  cbv zeta.
  set (s1 := Host.resetGameGrid (Host.random w) s).
  set (s2 := Host.set_screenSaverSize _ s1).
  set (s3 := Host.set_screenSaverSize _ s2).
  assert (H3 : Page.settled q true s3).
  { apply (settled_tview _ s1); [reflexivity |].
    apply settled_resetGameGrid, H. }
  assert (Hg : Life.square (Host.gameGrid s3))
    by apply (resetGameGrid_square (Host.random w) s).
  destruct (animate_done q s3 H3 Ha Hg) as (s4 & E4 & H4).
  rewrite E4. cbn [Host.state_of]. split; [exact Logic.I |].
  apply (settled_arm Host.ResetGrid 30000 true _ true s4 H4);
    [| reflexivity | discriminate].
  unfold Page.except. rewrite Hr. reflexivity.
Qed.

Lemma showScreensaver_eq w s :
  Host.showScreensaver w s
  = Host.startGameOfLife w
      (Page.dropVar Host.Inactivity
         (Host.showLayer "screen-saver"
            (Host.set_screensaverActive true s))).
Proof.
  cbv beta iota zeta delta
    [Host.showScreensaver Page.arm Page.clearVar Page.dropVar Page.setHandle Page.handleOf
     Host.setTimeout Host.setInterval Host.setTimer Host.clearInterval].
  reflexivity.
Qed.

Lemma showScreensaver_outcome w q b s :
  Page.settled q b s ->
  q Host.Animate = true -> q Host.ResetGrid = true ->
  q Host.Inactivity = true ->
  Page.noTypeError (Host.showScreensaver w s) /\
  Page.timersOk (Host.state_of (Host.showScreensaver w s)).
Proof.
  intros H Ha Hr Hi. rewrite showScreensaver_eq.
  set (s1 := Host.showLayer _ _).
  assert (H1 : Page.settled q true s1).
  { apply (settled_tview _ (Host.set_screensaverActive true s));
      [apply tview_showLayer |].
    apply (settled_active true q b s H). }
  pose proof (settled_dropVar Host.Inactivity q true s1 H1) as H2.
  destruct (startGameOfLife_outcome w _ _ H2) as (Hn & H3).
  - unfold Page.also. rewrite Ha. reflexivity.
  - unfold Page.also. rewrite Hr. reflexivity.
  - split; [exact Hn |].
    apply (timersOk_of_settled _ true _ H3).
    intros k Hk. apply also_spec in Hk. destruct Hk as [-> | Hk];
      [reflexivity | discriminate].
Qed.

Lemma hideScreensaver_eq s :
  Host.hideScreensaver s
  = Host.resetInactivityTimer
      (Page.dropVar Host.ResetGrid
         (Page.dropVar Host.Animate
            (Host.showLayer "form" (Host.set_screensaverActive false s)))).
Proof.
  cbv beta iota zeta delta
    [Host.hideScreensaver Page.arm Page.clearVar Page.dropVar Page.setHandle Page.handleOf
     Host.setTimeout Host.setInterval Host.setTimer Host.clearInterval].
  reflexivity.
Qed.

Lemma timersOk_hideScreensaver q b s :
  Page.settled q b s -> Page.timersOk (Host.hideScreensaver s).
Proof.
  intros H. rewrite hideScreensaver_eq.
  set (s1 := Host.showLayer _ _).
  assert (H1 : Page.settled q false s1).
  { apply (settled_tview _ (Host.set_screensaverActive false s));
      [apply tview_showLayer |].
    apply (settled_active false q b s H). }
  pose proof (settled_dropVar Host.Animate q false s1 H1) as H2.
  pose proof (settled_dropVar Host.ResetGrid _ false _ H2) as H3.
  pose proof (settled_reset _ false _ H3) as H4.
  apply (timersOk_of_settled _ false _ H4).
  intros k Hk. apply also_spec in Hk. destruct Hk as [-> | Hk];
    [reflexivity |].
  apply also_spec in Hk. destruct Hk as [-> | Hk];
    [reflexivity | discriminate].
Qed.

Lemma timersOk_tview s' s :
  View.tview s' = View.tview s -> Page.timersOk s -> Page.timersOk s'.
Proof.
  intros E H. pose proof (settled_of_timersOk s H) as H1.
  apply (timersOk_of_settled _ _ _ (settled_tview s' s _ _ E H1)).
  auto.
Qed.

Lemma afterReset_mode b q k :
  (forall k', Page.modeQuiet b k' = true -> q k' = true) ->
  Page.modeQuiet b k = true -> Page.afterReset b q k = true.
Proof.
  intros Hq Hk. pose proof (Hq k Hk) as Hqk.
  unfold Page.afterReset, Page.also, Page.except.
  destruct b; destruct k; cbn in *; rewrite ?Hqk; try reflexivity;
    discriminate.
Qed.

Lemma timersOk_reset s :
  Page.timersOk s -> Page.timersOk (Host.resetInactivityTimer s).
Proof.
  intros H. pose proof (settled_of_timersOk s H) as H1.
  apply (timersOk_of_settled _ _ _ (settled_reset _ _ _ H1)).
  intros k. apply afterReset_mode. auto.
Qed.

Lemma timersOk_onInputChange s :
  Page.timersOk s -> Page.timersOk (Host.onInputChange s).
Proof.
  intros H. pose proof (settled_of_timersOk s H) as H1.
  apply (timersOk_of_settled _ _ _ (settled_onInputChange _ _ _ H1)).
  intros k Hk. unfold Page.except, Page.also.
  destruct (Host.screensaverActive s); destruct k; cbn in *;
    try reflexivity; discriminate.
Qed.

Lemma timersOk_onSubmit s :
  Page.timersOk s -> Page.timersOk (Host.onSubmit s).
Proof.
  intros H. pose proof (settled_of_timersOk s H) as H1.
  apply (timersOk_of_settled _ _ _ (settled_onSubmit _ _ _ H1)).
  intros k Hk. unfold Page.except, Page.also, Page.afterReset.
  destruct (Host.screensaverActive s); destruct k; cbn in *;
    try reflexivity; discriminate.
Qed.

Lemma find_handle h (l : list Host.Timer) t :
  find (fun t => Nat.eqb (Host.handle t) h) l = Some t ->
  In t l /\ Host.handle t = h.
Proof.
  intros H. apply find_some in H. destruct H as (Hin & E).
  split; [exact Hin | apply Nat.eqb_eq, E].
Qed.

Lemma fire_outcome h w s :
  Page.timersOk s ->
  Page.noTypeError (Host.fire h w s) /\
  Page.timersOk (Host.state_of (Host.fire h w s)).
Proof.
  intros H. unfold Host.fire.
  destruct (find _ _) as [t |] eqn:Ef;
    [| split; [exact Logic.I | exact H]].
  apply find_handle in Ef. destruct Ef as (Hin & Eh).
  pose proof (settled_of_timersOk s H) as H0.
  destruct H as (Hc & Hon & Hoff).
  destruct Hc as (C1 & C2 & C3 & C4 & C5 & C6).
  pose proof (C4 t Hin) as Ek. rewrite Eh in Ek.
  assert (Hc : Page.core s) by (unfold Page.core; tauto).
  (* a timeout leaves the table and was the only one of its kind *)
  assert (Hgone : Host.callback t <> Host.ResetGrid ->
            Host.repeats t = false /\
            Page.settled
              (Page.also (Host.callback t)
                 (Page.modeQuiet (Host.screensaverActive s)))
              (Host.screensaverActive s) (Host.clearTimeout h s)).
  { intros Hne. split.
    - destruct (Host.repeats t) eqn:Er; [| reflexivity].
      destruct (Hne (C5 t Hin Er)).
    - destruct (settled_clearTimeout h _ _ s H0) as (Hc1 & Hq1 & Hb1).
      split; [exact Hc1 | split; [| exact Hb1]].
      intros k Hk. apply also_spec in Hk. destruct Hk as [-> | Hk].
      + apply quiet_after_clear; assumption.
      + apply Hq1, Hk. }
  destruct (Host.callback t) eqn:Ecb.
  - (* InputLedOff *)
    destruct Hgone as (Er & H1); [discriminate |]. rewrite Er.
    cbn [Host.state_of]. split; [exact Logic.I |].
    apply (timersOk_of_settled _ _ _
             (settled_tview _ _ _ _ (tview_inputLedOff _) H1)).
    intros k Hk. unfold Page.also. rewrite Hk. apply orb_true_r.
  - (* SubmitDone *)
    destruct Hgone as (Er & H1); [discriminate |]. rewrite Er.
    cbn [Host.state_of]. split; [exact Logic.I |].
    apply (timersOk_of_settled _ _ _
             (settled_submitDone _ _ _ H1 eq_refl)).
    intros k Hk. apply afterReset_mode; [| exact Hk].
    intros k' Hk'. unfold Page.also. rewrite Hk'. apply orb_true_r.
  - (* Inactivity *)
    destruct Hgone as (Er & H1); [discriminate |]. rewrite Er.
    destruct (Host.screensaverActive s) eqn:Ea.
    + destruct (Hon eq_refl t Hin Ecb).
    + apply (showScreensaver_outcome w _ _ _ H1); reflexivity.
  - (* Animate *)
    destruct Hgone as (Er & H1); [discriminate |]. rewrite Er.
    destruct (Host.screensaverActive s) eqn:Ea.
    + destruct (animate_done _ _ H1 eq_refl) as (s' & E' & H').
      * apply (C6 t Hin Ecb).
      * rewrite E'. cbn [Host.state_of]. split; [exact Logic.I |].
        apply (timersOk_of_settled _ _ _ H').
        intros k Hk. destruct k; try discriminate. reflexivity.
    + destruct (Hoff eq_refl) as (Ha & _). destruct (Ha t Hin Ecb).
  - (* ResetGrid *)
    cbn [Host.state_of]. split; [exact Logic.I |].
    assert (H1 : Page.settled (Page.modeQuiet (Host.screensaverActive s))
                   (Host.screensaverActive s)
                   (if Host.repeats t then s else Host.clearTimeout h s))
      by (destruct (Host.repeats t);
          [exact H0 | apply settled_clearTimeout, H0]).
    apply (timersOk_of_settled _ _ _
             (settled_resetGameGrid (Host.random w) _ _ _ H1)).
    auto.
Qed.

Lemma dispatch_outcome e s :
  Page.timersOk s ->
  Page.noTypeError (Host.dispatch e s) /\
  Page.timersOk (Host.state_of (Host.dispatch e s)).
Proof.
  intros H.
  destruct e; cbn [Host.dispatch].
  12: apply fire_outcome; exact H.
  12: destruct (existsb _ _); cbn [Host.state_of];
        (split; [exact Logic.I |]); [| exact H];
        apply (timersOk_tview _ s); [| exact H];
        rewrite tview_render; reflexivity.
  all: cbn [Host.state_of]; (split; [exact Logic.I |]).
  - apply timersOk_reset.
    apply (timersOk_tview _ s); [| exact H].
    rewrite tview_scheduleRender, tview_resizeCanvas. reflexivity.
  - apply (timersOk_tview _ s (tview_onMouseMove _ _ _) H).
  - apply timersOk_reset.
    apply (timersOk_tview _ s (tview_onTouchStart _ _ _) H).
  - apply timersOk_reset.
    apply (timersOk_tview _ s (tview_onTouchMove _ _) H).
  - apply (timersOk_tview _ s (tview_onTouchEnd _) H).
  - apply (timersOk_tview _ s); [| exact H].
    rewrite tview_scheduleRender, tview_resizeCanvas. reflexivity.
  - apply timersOk_onInputChange. apply (timersOk_tview _ s eq_refl H).
  - apply timersOk_onInputChange. apply (timersOk_tview _ s eq_refl H).
  - apply timersOk_reset, H.
  - apply (timersOk_hideScreensaver _ _ _
             (settled_of_timersOk _ (timersOk_reset _ H))).
  - apply timersOk_onSubmit, H.
Qed.

(** ** Properties of the Game of Life *)

Lemma liveNeighbours_bounds (g : Host.Grid) (x y : Z) :
  (0 <= Life.liveNeighbours g x y <= 8)%Z.
Proof.
  unfold Life.liveNeighbours, Life.offsets. cbn [fold_right fst snd].
  repeat match goal with
         | |- context [if ?c then 1%Z else 0%Z] => destruct c
         end; lia.
Qed.

(** X11.  On a grid with at least 50 rows [updateGameOfLife] does not
    throw and returns a 50 x 50 grid in which every cell follows Conway's
    rule, its neighbours being the eight surrounding cells on the torus
    (indices taken modulo 50); [countNeighbors] returns their number, which
    lies between 0 and 8. *)
Theorem updateGameOfLife_rule :
  forall g : Host.Grid,
    (Z.to_nat Host.GRID_SIZE <= List.length g)%nat ->
    exists g',
      Host.updateGameOfLife g = Some g' /\
      Life.square g' /\
      forall x y,
        (0 <= x < Host.GRID_SIZE)%Z -> (0 <= y < Host.GRID_SIZE)%Z ->
        Host.countNeighbors g x y = Some (Life.liveNeighbours g x y) /\
        (0 <= Life.liveNeighbours g x y <= 8)%Z /\
        Life.cell g' x y
        = Life.conway (Life.cell g x y) (Life.liveNeighbours g x y).
Proof.
  intros g Hg.
  destruct (updateGameOfLife_cells g Hg) as (g' & E & Hsq & Hcells).
  exists g'. split; [exact E | split; [exact Hsq |]].
  intros x y Hx Hy.
  split; [apply countNeighbors_spec; assumption |].
  split; [apply liveNeighbours_bounds | apply Hcells; assumption].
Qed.

Lemma updateGameOfLife_rule_witness :
  exists g',
    Host.updateGameOfLife Sample.glider = Some g' /\
    Life.square g' /\
    (Life.cell g' 0 49 = true /\ Life.cell g' 1 1 = true /\
     Life.cell g' 49 0 = false) /\
    forall x y,
      (0 <= x < Host.GRID_SIZE)%Z -> (0 <= y < Host.GRID_SIZE)%Z ->
      Host.countNeighbors Sample.glider x y
      = Some (Life.liveNeighbours Sample.glider x y) /\
      (0 <= Life.liveNeighbours Sample.glider x y <= 8)%Z /\
      Life.cell g' x y
      = Life.conway (Life.cell Sample.glider x y)
          (Life.liveNeighbours Sample.glider x y).
Proof.
  destruct (updateGameOfLife_rule Sample.glider) as (g' & E & Hsq & Hc).
  { vm_compute. apply Nat.le_refl. }
  exists g'. split; [exact E | split; [exact Hsq | split; [| exact Hc]]].
  assert (Hr : forall x, (0 <=? x)%Z && (x <? 50)%Z = true ->
                         (0 <= x < Host.GRID_SIZE)%Z).
  { intros x Hx. unfold Host.GRID_SIZE. lia. }
  rewrite (proj2 (proj2 (Hc 0 49 (Hr 0 eq_refl) (Hr 49 eq_refl))%Z)).
  rewrite (proj2 (proj2 (Hc 1 1 (Hr 1 eq_refl) (Hr 1 eq_refl))%Z)).
  rewrite (proj2 (proj2 (Hc 49 0 (Hr 49 eq_refl) (Hr 0 eq_refl))%Z)).
  vm_compute. repeat split.
Defined.

(** X12.  [updateGameOfLife] throws a [TypeError] exactly on a grid with
    fewer than 50 rows, such as the empty array [gameGrid] is initialised
    with: rows that are too short only read as dead cells. *)
Theorem updateGameOfLife_throws_iff_short :
  forall g : Host.Grid,
    Host.updateGameOfLife g = None <->
    (List.length g < Z.to_nat Host.GRID_SIZE)%nat.
Proof.
  intros g. split.
  - intros E.
    destruct (Nat.lt_ge_cases (List.length g) (Z.to_nat Host.GRID_SIZE))
      as [H | H]; [exact H |].
    destruct (updateGameOfLife_cells g H) as (g' & E' & _).
    rewrite E in E'. discriminate.
  - apply updateGameOfLife_short.
Qed.

Lemma in_range_grid (x : Z) :
  (0 <= x < Host.GRID_SIZE)%Z ->
  In x (Host.range 0 (Z.to_nat Host.GRID_SIZE)).
Proof.
  intros Hx. unfold Host.range. apply in_map_iff.
  exists (Z.to_nat x). split; [lia |].
  apply in_seq. unfold Host.GRID_SIZE in *. lia.
Qed.

Lemma movedBy_spec (g h : Host.Grid) (a b : Z) :
  Life.movedBy g h a b = true ->
  forall x y,
    (0 <= x < Host.GRID_SIZE)%Z -> (0 <= y < Host.GRID_SIZE)%Z ->
    Life.cell h x y
    = Life.cell g ((x + a) mod Host.GRID_SIZE) ((y + b) mod Host.GRID_SIZE).
Proof.
  intros H x y Hx Hy. unfold Life.movedBy in H.
  rewrite forallb_forall in H.
  specialize (H x (in_range_grid x Hx)).
  rewrite forallb_forall in H.
  specialize (H y (in_range_grid y Hy)).
  apply Bool.eqb_prop in H. exact H.
Qed.

Lemma liveNeighbours_shift (g h : Host.Grid) (a b x y : Z) :
  (forall x y,
     (0 <= x < Host.GRID_SIZE)%Z -> (0 <= y < Host.GRID_SIZE)%Z ->
     Life.cell h x y
     = Life.cell g ((x + a) mod Host.GRID_SIZE)
         ((y + b) mod Host.GRID_SIZE)) ->
  Life.liveNeighbours h x y
  = Life.liveNeighbours g ((x + a) mod Host.GRID_SIZE)
      ((y + b) mod Host.GRID_SIZE).
Proof.
  intros Hshift.
  assert (Hm : forall u d c,
            (((u + d) mod Host.GRID_SIZE + c) mod Host.GRID_SIZE
             = ((u + c) mod Host.GRID_SIZE + d) mod Host.GRID_SIZE)%Z).
  { intros u d c. unfold Host.GRID_SIZE.
    rewrite !Zplus_mod_idemp_l. f_equal. lia. }
  assert (Hc : forall dx dy,
            Life.cell h ((x + dx) mod Host.GRID_SIZE)
              ((y + dy) mod Host.GRID_SIZE)
            = Life.cell g
                (((x + a) mod Host.GRID_SIZE + dx) mod Host.GRID_SIZE)
                (((y + b) mod Host.GRID_SIZE + dy) mod Host.GRID_SIZE)).
  { intros dx dy.
    rewrite Hshift by (apply Z.mod_pos_bound; reflexivity).
    rewrite (Hm x dx a), (Hm y dy b). reflexivity. }
  unfold Life.liveNeighbours, Life.offsets. cbn [fold_right fst snd].
  rewrite !Hc. reflexivity.
Qed.

(** X13.  The update commutes with translations of the torus: if one grid
    is another shifted by [(a, b)] with wrap-around, their successors are
    related by the same shift, so the edges of the array are no seam. *)
Theorem life_commutes_with_translation :
  forall (g h : Host.Grid) (a b : Z),
    (Z.to_nat Host.GRID_SIZE <= List.length g)%nat ->
    (Z.to_nat Host.GRID_SIZE <= List.length h)%nat ->
    (forall x y,
       (0 <= x < Host.GRID_SIZE)%Z -> (0 <= y < Host.GRID_SIZE)%Z ->
       Life.cell h x y
       = Life.cell g ((x + a) mod Host.GRID_SIZE)
           ((y + b) mod Host.GRID_SIZE)) ->
    exists g' h',
      Host.updateGameOfLife g = Some g' /\
      Host.updateGameOfLife h = Some h' /\
      forall x y,
        (0 <= x < Host.GRID_SIZE)%Z -> (0 <= y < Host.GRID_SIZE)%Z ->
        Life.cell h' x y
        = Life.cell g' ((x + a) mod Host.GRID_SIZE)
            ((y + b) mod Host.GRID_SIZE).
Proof.
  intros g h a b Hg Hh Hshift.
  destruct (updateGameOfLife_cells g Hg) as (g' & Eg & _ & Hcg).
  destruct (updateGameOfLife_cells h Hh) as (h' & Eh & _ & Hch).
  exists g', h'. split; [exact Eg | split; [exact Eh |]].
  intros x y Hx Hy.
  rewrite (Hch x y Hx Hy).
  rewrite Hcg by (apply Z.mod_pos_bound; reflexivity).
  rewrite (Hshift x y Hx Hy), (liveNeighbours_shift g h a b x y Hshift).
  reflexivity.
Qed.

Lemma life_commutes_with_translation_witness :
  (Life.cell Sample.glider 1 1 = true /\
   Life.cell Sample.movedGlider 0 2 = true) /\
  exists g' h',
    Host.updateGameOfLife Sample.glider = Some g' /\
    Host.updateGameOfLife Sample.movedGlider = Some h' /\
    forall x y,
      (0 <= x < Host.GRID_SIZE)%Z -> (0 <= y < Host.GRID_SIZE)%Z ->
      Life.cell h' x y
      = Life.cell g' ((x + 1) mod Host.GRID_SIZE)
          ((y + 49) mod Host.GRID_SIZE).
Proof.
  split; [vm_compute; split; reflexivity |].
  apply (life_commutes_with_translation Sample.glider Sample.movedGlider
           1 49).
  - vm_compute. apply Nat.le_refl.
  - vm_compute. apply Nat.le_refl.
  - apply movedBy_spec. vm_compute. reflexivity.
Defined.

(** X14.  While the screensaver shows a grid with at least 50 rows on a
    canvas of non-negative size, [renderGameOfLife] does not throw; the
    circles it draws are those of the living cells, and each lies inside
    the rectangle of its cell. *)
Theorem renderGameOfLife_circles :
  forall s : Host.State,
    Host.screensaverActive s = true ->
    (Z.to_nat Host.GRID_SIZE <= List.length (Host.gameGrid s))%nat ->
    0 <= x2 (Host.screenSaverSize (Host.document s)) ->
    0 <= y2 (Host.screenSaverSize (Host.document s)) ->
    let cw := x2 (Host.screenSaverSize (Host.document s)) / 50 in
    let ch := y2 (Host.screenSaverSize (Host.document s)) / 50 in
    exists s',
      Host.renderGameOfLife s = Host.Done s' /\
      forall a,
        In a (Host.arcs s') <->
        exists x y,
          (0 <= x < 50)%Z /\ (0 <= y < 50)%Z /\
          Life.cell (Host.gameGrid s) x y = true /\
          a = Host.mkArc ((IZR x + 0.5) * cw) ((IZR y + 0.5) * ch)
                (Rmin cw ch * 0.4) /\
          IZR x * cw <= Host.centerX a - Host.radius a /\
          Host.centerX a + Host.radius a <= (IZR x + 1) * cw /\
          IZR y * ch <= Host.centerY a - Host.radius a /\
          Host.centerY a + Host.radius a <= (IZR y + 1) * ch.
Proof.
  intros s Ha Hg Hw Hh cw ch.
  assert (Hcw : 0 <= cw) by (unfold cw; lra).
  assert (Hch : 0 <= ch) by (unfold ch; lra).
  unfold Host.renderGameOfLife. rewrite Ha. cbn [negb]. cbv zeta.
  cbn [Host.set_arcs Host.document Host.gameGrid].
  change (IZR Host.GRID_SIZE) with 50. fold cw ch.
  destruct (drawCells_spec (Host.gameGrid s) cw ch (Rmin cw ch * 0.4) Hg)
    as (Hok & Hin).
  destruct (Host.drawCells _ _ _ _) as [drawn ok].
  cbn [fst snd] in Hok, Hin. subst ok.
  eexists. split; [reflexivity |].
  cbn [Host.set_arcs Host.arcs].
  intros a. rewrite Hin. unfold Life.arcOf, Host.GRID_SIZE.
  assert (Hr : 0 <= Rmin cw ch * 0.4 <= 0.4 * cw /\
               Rmin cw ch * 0.4 <= 0.4 * ch).
  { pose proof (Rmin_l cw ch). pose proof (Rmin_r cw ch).
    assert (0 <= Rmin cw ch) by (apply Rmin_glb; assumption). lra. }
  split.
  - intros (x & y & Hx & Hy & Hc & ->). exists x, y.
    cbn [Host.centerX Host.centerY Host.radius].
    repeat split; try assumption; try lia; nra.
  - intros (x & y & Hx & Hy & Hc & -> & _). exists x, y.
    repeat split; try assumption; lia.
Qed.

Lemma renderGameOfLife_circles_witness :
  let cw := x2 (Host.screenSaverSize (Host.document Sample.saverGlider)) / 50 in
  let ch := y2 (Host.screenSaverSize (Host.document Sample.saverGlider)) / 50 in
  exists s',
    Host.renderGameOfLife Sample.saverGlider = Host.Done s' /\
    In (Host.mkArc ((1 + 0.5) * cw) ((1 + 0.5) * ch) (Rmin cw ch * 0.4))
       (Host.arcs s') /\
    forall a,
      In a (Host.arcs s') <->
      exists x y,
        (0 <= x < 50)%Z /\ (0 <= y < 50)%Z /\
        Life.cell (Host.gameGrid Sample.saverGlider) x y = true /\
        a = Host.mkArc ((IZR x + 0.5) * cw) ((IZR y + 0.5) * ch)
              (Rmin cw ch * 0.4) /\
        IZR x * cw <= Host.centerX a - Host.radius a /\
        Host.centerX a + Host.radius a <= (IZR x + 1) * cw /\
        IZR y * ch <= Host.centerY a - Host.radius a /\
        Host.centerY a + Host.radius a <= (IZR y + 1) * ch.
Proof.
  intros cw ch.
  assert (Hw : x2 (Host.screenSaverSize (Host.document Sample.saverGlider))
               = 300) by reflexivity.
  assert (Hh : y2 (Host.screenSaverSize (Host.document Sample.saverGlider))
               = 150) by reflexivity.
  destruct (renderGameOfLife_circles Sample.saverGlider)
    as (s' & E & Harcs).
  - reflexivity.
  - change (Host.gameGrid Sample.saverGlider) with Sample.glider.
    vm_compute. apply Nat.le_refl.
  - rewrite Hw. lra.
  - rewrite Hh. lra.
  - exists s'. split; [exact E |]. split; [| exact Harcs].
    apply Harcs. exists 1%Z, 1%Z.
    fold cw ch. cbn [Host.centerX Host.centerY Host.radius].
    assert (Hcw : cw = 6) by (unfold cw; rewrite Hw; lra).
    assert (Hch : ch = 3) by (unfold ch; rewrite Hh; lra).
    assert (Hm : Rmin cw ch = 3)
      by (rewrite Hcw, Hch; apply Rmin_right; lra).
    split; [lia |]. split; [lia |].
    split; [vm_compute; reflexivity |].
    split; [reflexivity |].
    rewrite Hm, Hcw, Hch. lra.
Defined.

(** ** The form *)

Lemma classList_add_In (token c : string) (l : list string) :
  In c (Host.classList_add token l) <-> c = token \/ In c l.
Proof.
  unfold Host.classList_add.
  destruct (existsb (String.eqb token) l) eqn:E.
  - split; [auto |]. intros [-> | H]; [| exact H].
    apply existsb_exists in E. destruct E as (x & Hx & Ex).
    apply String.eqb_eq in Ex. subst x. exact Hx.
  - rewrite in_app_iff. cbn [In]. split.
    + intros [H | [H | []]]; auto.
    + intros [H | H]; auto.
Qed.

Lemma classList_remove_In (token c : string) (l : list string) :
  In c (Host.classList_remove token l) <-> c <> token /\ In c l.
Proof.
  unfold Host.classList_remove. rewrite filter_In.
  destruct (String.eqb_spec c token) as [-> | Hne]; cbn [negb].
  - split; [intros (_ & H); discriminate | intros (H & _); congruence].
  - tauto.
Qed.

Lemma validateForm_eq s :
  Host.validateForm s
  = (negb (String.eqb (Host.value (Host.username (Host.document s))) "")
     && negb (String.eqb (Host.value (Host.password (Host.document s))) ""),
     Host.set_password (Page.marked (Host.password (Host.document s)))
       (Host.set_username (Page.marked (Host.username (Host.document s))) s)).
Proof.
  unfold Host.validateForm, Page.marked.
  destruct (String.eqb (Host.value (Host.username (Host.document s))) "");
    cbv iota beta;
    cbn [Host.set_username Host.with_username Host.set_document
         Host.document Host.password Host.username];
    destruct (String.eqb (Host.value (Host.password (Host.document s))) "");
    reflexivity.
Qed.

Lemma marked_spec (field : Host.Input) :
  Host.value (Page.marked field) = Host.value field /\
  (In "invalid"%string (Host.classList (Page.marked field))
   <-> Host.value field = ""%string) /\
  (forall c, c <> "invalid"%string ->
     (In c (Host.classList (Page.marked field))
      <-> In c (Host.classList field))).
Proof.
  unfold Page.marked. cbn [Host.value Host.classList].
  split; [reflexivity |].
  destruct (String.eqb_spec (Host.value field) "") as [E | E].
  - split.
    + rewrite classList_add_In. split; [intros _; exact E | auto].
    + intros c Hc. rewrite classList_add_In. tauto.
  - split.
    + rewrite classList_remove_In. split; [intros (H & _) | intros H];
        congruence.
    + intros c Hc. rewrite classList_remove_In. tauto.
Qed.

(** X15.  [validateForm] returns [true] exactly when both fields are
    filled in.  Whatever the outcome, it checks both fields: afterwards a
    field carries the class [invalid] if and only if it is empty, its text
    and its other classes are as before. *)
Theorem validateForm_marks_empty_fields :
  forall s : Host.State,
    let before := Host.document s in
    let after := Host.document (snd (Host.validateForm s)) in
    (fst (Host.validateForm s) = true <->
     Host.value (Host.username before) <> ""%string /\
     Host.value (Host.password before) <> ""%string) /\
    (Host.value (Host.username after) = Host.value (Host.username before) /\
     (In "invalid"%string (Host.classList (Host.username after))
      <-> Host.value (Host.username before) = ""%string) /\
     (forall c, c <> "invalid"%string ->
        (In c (Host.classList (Host.username after))
         <-> In c (Host.classList (Host.username before))))) /\
    (Host.value (Host.password after) = Host.value (Host.password before) /\
     (In "invalid"%string (Host.classList (Host.password after))
      <-> Host.value (Host.password before) = ""%string) /\
     (forall c, c <> "invalid"%string ->
        (In c (Host.classList (Host.password after))
         <-> In c (Host.classList (Host.password before))))).
Proof.
  intros s before after. subst before after.
  rewrite validateForm_eq. cbn [fst snd].
  cbn [Host.set_password Host.set_username Host.with_password
       Host.with_username Host.set_document Host.document Host.username
       Host.password].
  split; [| split; apply marked_spec].
  rewrite andb_true_iff, !negb_true_iff.
  destruct (String.eqb_spec (Host.value (Host.username (Host.document s))) "");
    destruct (String.eqb_spec (Host.value (Host.password (Host.document s))) "");
    split; intros (H1 & H2); try discriminate; try congruence; auto.
Qed.

Lemma document_onSubmit s :
  Host.document (Host.onSubmit s)
  = (let valid :=
       negb (String.eqb (Host.value (Host.username (Host.document s))) "")
       && negb (String.eqb (Host.value (Host.password (Host.document s))) "")
     in
     Host.mkDocument (Host.canvasSize (Host.document s))
       (Page.marked (Host.username (Host.document s)))
       (Page.marked (Host.password (Host.document s)))
       "none" "block" "none"
       (Host.mkHeading
          (if valid then "Access Granted" else "Access Denied")
          (Host.classList_toggle "invalid" (negb valid)
             (Host.headingClassList (Host.h1 (Host.document s)))))
       (Host.screenSaverSize (Host.document s))
       (Host.transform (Host.document s))).
Proof.
  cbv delta [Host.onSubmit]; cbv beta.
  let_step. let_step.
  assert (E0 : Host.document st0 = Host.document s).
  { subst st0 st.
    destruct (Host.submitTimeout _) as [h |];
      [destruct (Host.truthy _) |];
      rewrite ?document_clearTimeout, document_resetInactivityTimer;
      reflexivity. }
  clearbody st0. clear st.
  rewrite validateForm_eq. cbv iota beta. rewrite E0.
  set (valid := _ && _).
  repeat let_step. host_prims. cbv iota beta.
  subst st4 st3 st2.
  cbn [Host.set_submitTimeout Host.set_nextTimer Host.set_timers
       Host.set_h1 Host.with_h1 Host.set_document Host.document Host.h1
       Host.showLayer Host.set_formDisplay Host.set_messageDisplay
       Host.set_screenSaverDisplay Host.with_formDisplay
       Host.with_messageDisplay Host.with_screenSaverDisplay
       Host.canvasSize Host.username Host.password Host.formDisplay
       Host.messageDisplay Host.screenSaverDisplay Host.screenSaverSize
       Host.transform Host.headingClassList Host.textContent].
  subst st1. rewrite document_scheduleRender. subst st.
  cbn [Host.set_ledColor Host.set_password Host.set_username
       Host.with_password Host.with_username Host.set_document
       Host.document Host.h1 Host.canvasSize Host.username Host.password
       Host.screenSaverSize Host.transform Host.headingClassList].
  rewrite E0. reflexivity.
Qed.

Lemma ledColor_onSubmit s :
  Host.ledColor (Host.onSubmit s)
  = if negb (String.eqb (Host.value (Host.username (Host.document s))) "")
       && negb (String.eqb (Host.value (Host.password (Host.document s))) "")
    then Host.LED_GREEN else Host.LED_RED.
Proof.
  cbv delta [Host.onSubmit]; cbv beta.
  let_step. let_step.
  assert (E0 : Host.document st0 = Host.document s).
  { subst st0 st.
    destruct (Host.submitTimeout _) as [h |];
      [destruct (Host.truthy _) |];
      rewrite ?document_clearTimeout, document_resetInactivityTimer;
      reflexivity. }
  clearbody st0. clear st.
  rewrite validateForm_eq. cbv iota beta. rewrite E0.
  set (valid := _ && _).
  repeat let_step. host_prims. cbv iota beta.
  subst st4 st3 st2.
  cbn [Host.set_submitTimeout Host.set_nextTimer Host.set_timers
       Host.set_h1 Host.showLayer Host.set_formDisplay
       Host.set_messageDisplay Host.set_screenSaverDisplay
       Host.set_document Host.ledColor].
  subst st1. rewrite ledColor_scheduleRender. subst st. reflexivity.
Qed.

(** X16.  Submitting the form grants access exactly when both fields are
    filled in: the LED turns green and the heading reads "Access Granted",
    otherwise the LED turns red, the heading reads "Access Denied" and
    carries the class [invalid]; in both cases the message layer alone is
    shown and the empty fields are Page.marked. *)
Theorem submit_outcome :
  forall s : Host.State,
    let filled :=
      negb (String.eqb (Host.value (Host.username (Host.document s))) "")
      && negb (String.eqb (Host.value (Host.password (Host.document s))) "")
    in
    let after := Host.document (Host.onSubmit s) in
    Host.ledColor (Host.onSubmit s)
    = (if filled then Host.LED_GREEN else Host.LED_RED) /\
    Host.textContent (Host.h1 after)
    = (if filled then "Access Granted" else "Access Denied")%string /\
    (In "invalid"%string (Host.headingClassList (Host.h1 after))
     <-> filled = false) /\
    Host.formDisplay after = "none"%string /\
    Host.messageDisplay after = "block"%string /\
    Host.screenSaverDisplay after = "none"%string /\
    (In "invalid"%string (Host.classList (Host.username after))
     <-> Host.value (Host.username (Host.document s)) = ""%string) /\
    (In "invalid"%string (Host.classList (Host.password after))
     <-> Host.value (Host.password (Host.document s)) = ""%string).
Proof.
  intros s filled after. subst after.
  rewrite document_onSubmit, ledColor_onSubmit. cbv zeta. fold filled.
  cbn [Host.h1 Host.textContent Host.headingClassList Host.formDisplay
       Host.messageDisplay Host.screenSaverDisplay Host.username
       Host.password].
  repeat split; try apply marked_spec.
  - unfold Host.classList_toggle. destruct filled; cbn [negb].
    + rewrite classList_remove_In. intros (H & _). congruence.
    + reflexivity.
  - unfold Host.classList_toggle. intros ->. cbn [negb].
    rewrite classList_add_In. left; reflexivity.
Qed.

(** ** Properties of every run of the page *)


(** X18.  As long as the canvas has a positive size when a mouse event is
    handled, the mouse position stays in the unit square, the accumulated
    touch angles stay within a quarter turn of pi, a drag is in progress
    exactly when a last touch position is recorded, and the pitch and yaw
    of every frame drawn lie in [[-1/4, 1/4]]. *)
Theorem drawn_angles_small :
  forall (d : Host.Document) (events : list Host.Event),
    Forall Page.visibleCanvas events ->
    let s := Host.run events (Host.initial d) in
    Page.pointerOk s /\
    forall u, Host.frame s = Some u ->
      - (1 / 4) <= u_pitch_angle u <= 1 / 4 /\
      - (1 / 4) <= u_yaw_angle u <= 1 / 4.
Proof.
  intros d events H s. exact (drawnOk_run d events H).
Qed.

Lemma drawn_angles_small_witness :
  let s := Host.run Sample.mouseSession (Host.initial Sample.page) in
  Page.pointerOk s /\
  forall u, Host.frame s = Some u ->
    - (1 / 4) <= u_pitch_angle u <= 1 / 4 /\
    - (1 / 4) <= u_yaw_angle u <= 1 / 4.
Proof.
  apply (drawn_angles_small Sample.page Sample.mouseSession).
  unfold Sample.mouseSession.
  repeat constructor; cbn; lra.
Defined.

(** X19.  Under the same condition the clamps of [render] never engage and
    its test of [lastTouchPos] is redundant: the angles it uploads are the
    accumulated touch angles times 1/4 (pitch negated) while a drag is in
    progress or has left a rotation, and the centred mouse position times
    1/2 (yaw negated) otherwise. *)
Theorem render_clamps_never_engage :
  forall (d : Host.Document) (events : list Host.Event),
    Forall Page.visibleCanvas events ->
    let s := Host.run events (Host.initial d) in
    Host.renderAngles s = Page.plainAngles s.
Proof.
  intros d events H s.
  destruct (drawnOk_run d events H) as (Hp & _).
  exact (proj1 (renderAngles_plain s Hp)).
Qed.

Lemma render_clamps_never_engage_witness :
  let s := Host.run Sample.mouseSession (Host.initial Sample.page) in
  Host.renderAngles s = Page.plainAngles s.
Proof.
  apply (render_clamps_never_engage Sample.page Sample.mouseSession).
  unfold Sample.mouseSession.
  repeat constructor; cbn; lra.
Defined.

(** X20.  At any moment at most one animation-frame request is pending,
    and [pendingAnimationFrame] holds its handle: however many events call
    [scheduleRender] between two frames, [render] runs once. *)
Theorem at_most_one_frame_pending :
  forall (d : Host.Document) (events : list Host.Event),
    let s := Host.run events (Host.initial d) in
    (List.length (Host.frames s) <= 1)%nat /\
    forall h, In h (Host.frames s) -> Host.pendingAnimationFrame s = Some h.
Proof.
  intros d events s.
  destruct (framesOk_run d events) as ([E | (h & E & Ep)] & _).
  - fold s in E. rewrite E. split; [cbn; lia | intros h []].
  - fold s in E, Ep. rewrite E. split; [cbn; lia |].
    intros h' [<- | []]. exact Ep.
Qed.

Lemma pending_quiet k s : Page.quiet k s -> Page.pending k s = [].
Proof.
  unfold Page.quiet, Page.pending. intros H.
  induction (Host.timers s) as [| t l IH]; [reflexivity |].
  cbn [filter].
  destruct (Host.Callback_eqb (Host.callback t) k) eqn:E.
  - apply Callback_eqb_eq in E. destruct (H t (or_introl eq_refl) E).
  - apply IH. intros t' Ht'. apply H. right. exact Ht'.
Qed.

Lemma pending_at_most_one k s :
  Page.core s -> (List.length (Page.pending k s) <= 1)%nat.
Proof.
  intros (_ & _ & Hnd & H4 & _).
  assert (Hall : forall t, In t (Page.pending k s) ->
            Page.handleOf k s = Some (Host.handle t)).
  { intros t Ht. unfold Page.pending in Ht. apply filter_In in Ht.
    destruct Ht as (Hin & E). apply Callback_eqb_eq in E.
    rewrite <- E. apply H4, Hin. }
  pose proof (NoDup_handles_filter
                (fun t => Host.Callback_eqb (Host.callback t) k)
                (Host.timers s) Hnd) as Hnd'.
  fold (Page.pending k s) in Hnd'.
  destruct (Page.pending k s) as [| a [| b l]]; cbn [List.length]; try lia.
  pose proof (Hall a (or_introl eq_refl)) as Ea.
  pose proof (Hall b (or_intror (or_introl eq_refl))) as Eb.
  rewrite Ea in Eb. injection Eb as Eb.
  cbn [map] in Hnd'. inversion Hnd' as [| x l' Hn _]; subst.
  destruct Hn. left. symmetry. exact Eb.
Qed.

Lemma timers_by_kind (l : list Host.Timer) :
  List.length l
  = (List.length
       (filter (fun t => Host.Callback_eqb (Host.callback t) Host.InputLedOff) l)
     + List.length
         (filter (fun t => Host.Callback_eqb (Host.callback t) Host.SubmitDone) l)
     + List.length
         (filter (fun t => Host.Callback_eqb (Host.callback t) Host.Inactivity) l)
     + List.length
         (filter (fun t => Host.Callback_eqb (Host.callback t) Host.Animate) l)
     + List.length
         (filter (fun t => Host.Callback_eqb (Host.callback t) Host.ResetGrid) l))%nat.
Proof.
  induction l as [| t l IH]; [reflexivity |].
  cbn [filter List.length]. destruct (Host.callback t);
    cbn [Host.Callback_eqb List.length]; lia.
Qed.

Lemma timersOk_run d events :
  Page.timersOk (Host.run events (Host.initial d)).
Proof.
  apply run_invariant_all.
  - intros e s H. apply dispatch_outcome, H.
  - split; [| split; [intros H; discriminate | intros _; split; intros t []]].
    unfold Page.core; cbn.
    repeat split; try lia; try constructor; try (intros t []).
    + destruct k; discriminate.
    + destruct k; discriminate.
Qed.

(** X21.  Timers never pile up: at any moment at most one timer of each
    of the five kinds is pending (at most five in all), every pending
    timer is the one whose handle the script still holds in the variable
    of its kind, the inactivity countdown is never pending while the
    screensaver shows, and the animation step and the grid reset are never
    pending while it is hidden. *)
Theorem timers_never_pile_up :
  forall (d : Host.Document) (events : list Host.Event),
    let s := Host.run events (Host.initial d) in
    (forall k, (List.length (Page.pending k s) <= 1)%nat) /\
    (List.length (Host.timers s) <= 5)%nat /\
    (forall t, In t (Host.timers s) ->
       Page.handleOf (Host.callback t) s = Some (Host.handle t)) /\
    (Host.screensaverActive s = true ->
     Page.pending Host.Inactivity s = []) /\
    (Host.screensaverActive s = false ->
     Page.pending Host.Animate s = [] /\
     Page.pending Host.ResetGrid s = []).
Proof.
  intros d events s.
  destruct (timersOk_run d events) as (Hc & Hon & Hoff).
  fold s in Hc, Hon, Hoff.
  split; [intros k; apply pending_at_most_one, Hc |].
  split; [| split; [| split]].
  - rewrite timers_by_kind.
    pose proof (pending_at_most_one Host.InputLedOff s Hc).
    pose proof (pending_at_most_one Host.SubmitDone s Hc).
    pose proof (pending_at_most_one Host.Inactivity s Hc).
    pose proof (pending_at_most_one Host.Animate s Hc).
    pose proof (pending_at_most_one Host.ResetGrid s Hc).
    unfold Page.pending in *. lia.
  - destruct Hc as (_ & _ & _ & H4 & _). exact H4.
  - intros Ha. apply pending_quiet, Hon, Ha.
  - intros Ha. destruct (Hoff Ha) as (H1 & H2).
    split; apply pending_quiet; assumption.
Qed.

(** X22.  No listener ever fails on the grid: whatever events arrive, and
    whenever the timers fire, [countNeighbors], [updateGameOfLife] and
    [renderGameOfLife] find the rows they index, so the only exception a
    listener can end with is the [Error] that [startGameOfLife] throws
    when the canvas has no 2D context. *)
Theorem grid_access_never_fails :
  forall (d : Host.Document) (events : list Host.Event) (e : Host.Event),
    match Host.dispatch e (Host.run events (Host.initial d)) with
    | Host.Throw Host.TypeError _ => False
    | _ => True
    end.
Proof.
  intros d events e.
  exact (proj1 (dispatch_outcome e _ (timersOk_run d events))).
Qed.

(** * The first page script *)

Lemma v1_run_invariant (I : HostV1.State -> Prop)
  (ok : HostV1.Event -> Prop) :
  (forall e s, ok e -> I s -> I (HostV1.dispatch e s)) ->
  forall events s, Forall ok events -> I s -> I (HostV1.run events s).
Proof.
  intros Hstep events.
  induction events as [|e events IH]; intros s Hok Hs; cbn [HostV1.run].
  - exact Hs.
  - inversion Hok; subst. apply IH; [assumption |].
    apply Hstep; assumption.
Qed.

Lemma v1_run_invariant_all (I : HostV1.State -> Prop) :
  (forall e s, I s -> I (HostV1.dispatch e s)) ->
  forall events s, I s -> I (HostV1.run events s).
Proof.
  intros Hstep events s Hs.
  apply (v1_run_invariant I (fun _ => True)); [auto | | exact Hs].
  apply Forall_forall. intros; exact Logic.I.
Qed.

Lemma v1_run_app (a b : list HostV1.Event) (s : HostV1.State) :
  HostV1.run (a ++ b) s = HostV1.run b (HostV1.run a s).
Proof.
  revert s. induction a as [| e a IH]; intros s; cbn [app HostV1.run];
    [reflexivity | apply IH].
Qed.

(** The part of the state a frame shows, and the frame. *)
Lemma v1_render_shows s :
  HostV1.frame (HostV1.render s) = Some (HostV1.uniformsOf s) /\
  HostV1.uniformsOf (HostV1.render s) = HostV1.uniformsOf s /\
  HostV1.mousePos (HostV1.render s) = HostV1.mousePos s /\
  HostV1.LED_COLOR (HostV1.render s) = HostV1.LED_COLOR s /\
  HostV1.timers (HostV1.render s) = HostV1.timers s.
Proof. repeat split. Qed.

Lemma v1_fresh_render s : HostV1.fresh (HostV1.render s).
Proof. right. reflexivity. Qed.

Lemma v1_fresh_step e s :
  HostV1.fresh s -> HostV1.fresh (HostV1.dispatch e s).
Proof.
  intros H. destruct e; cbn [HostV1.dispatch].
  - apply v1_fresh_render.
  - unfold HostV1.onMouseMove.
    destruct (Host.outside rect event); [exact H | apply v1_fresh_render].
  - unfold HostV1.onTouchMove.
    destruct (Host.at_ touches 0); [apply v1_fresh_render | exact H].
  - apply v1_fresh_render.
  - right. reflexivity.
  - unfold HostV1.onSubmit.
    destruct (HostV1.submitTimeout s) as [h |];
      [destruct (Host.truthy (Some h)) |]; right; reflexivity.
  - unfold HostV1.fire.
    destruct (find _ _) as [t |]; [| exact H].
    destruct (HostV1.callback t); right; reflexivity.
Qed.

Lemma v1_resizeCanvas_keeps d s :
  HostV1.LED_COLOR (HostV1.resizeCanvas d s) = HostV1.LED_COLOR s /\
  HostV1.mousePos (HostV1.resizeCanvas d s) = HostV1.mousePos s /\
  HostV1.timers (HostV1.resizeCanvas d s) = HostV1.timers s.
Proof.
  unfold HostV1.resizeCanvas; cbv zeta.
  destruct (negb _ || negb _); repeat split.
Qed.



Lemma first_script_frame_fresh canvas events :
  HostV1.fresh (HostV1.run events (HostV1.initial canvas)).
Proof.
  apply (v1_run_invariant_all HostV1.fresh v1_fresh_step).
  left. reflexivity.
Qed.

(** X23.  The first script never shows a stale picture: every listener
    that changes the pointer position, the LED colour or the canvas size
    draws before it returns, so the uniforms of the last draw call are
    always those of the present state. *)
Theorem first_script_never_stale :
  forall (canvas : vec2) (events : list HostV1.Event),
    let s := HostV1.run events (HostV1.initial canvas) in
    HostV1.frame s = None \/
    HostV1.frame s
    = Some (mkUniforms (HostV1.canvasSize s)
              ((y2 (HostV1.mousePos s) - 0.5) * 2.0 * 0.25)
              (- ((x2 (HostV1.mousePos s) - 0.5) * 2.0) * 0.25)
              (HostV1.LED_COLOR s)).
Proof.
  intros canvas events s. exact (first_script_frame_fresh canvas events).
Qed.


Lemma v1_mouse_step e s :
  HostV1.mouseOnly e ->
  0 <= x2 (HostV1.mousePos s) <= 1 /\ 0 <= y2 (HostV1.mousePos s) <= 1 ->
  0 <= x2 (HostV1.mousePos (HostV1.dispatch e s)) <= 1 /\
  0 <= y2 (HostV1.mousePos (HostV1.dispatch e s)) <= 1.
Proof.
  intros He H. destruct e; cbn [HostV1.dispatch HostV1.mouseOnly] in *.
  - change (HostV1.mousePos (HostV1.render (HostV1.resizeCanvas d s)))
      with (HostV1.mousePos (HostV1.resizeCanvas d s)).
    rewrite (proj1 (proj2 (v1_resizeCanvas_keeps d s))). exact H.
  - destruct He as (Hw & Hh). unfold HostV1.onMouseMove.
    destruct (Host.outside rect event) eqn:Eo; [exact H |].
    unfold Host.outside in Eo.
    apply orb_false_iff in Eo. destruct Eo as (Eo & E4).
    apply orb_false_iff in Eo. destruct Eo as (Eo & E3).
    apply orb_false_iff in Eo. destruct Eo as (E1 & E2).
    apply ltb_false_inv in E1, E2, E3, E4.
    unfold Host.rect_right in E2. unfold Host.rect_bottom in E4.
    cbn [HostV1.render HostV1.set_frame HostV1.set_transform
         HostV1.set_mousePos HostV1.mousePos x2 y2].
    set (cx := Host.clientX event) in *. set (cy := Host.clientY event) in *.
    set (l := Host.rect_left rect) in *. set (t := Host.rect_top rect) in *.
    set (w := Host.rect_width rect) in *.
    set (h := Host.rect_height rect) in *.
    assert (0 <= (cx - l) / w <= 1).
    { split.
      - apply Rmult_le_pos; [lra | left; apply Rinv_0_lt_compat; exact Hw].
      - apply Rmult_le_reg_r with w; [exact Hw |]. unfold Rdiv.
        rewrite Rmult_assoc, Rinv_l by lra. lra. }
    assert (0 <= (cy - t) / h <= 1).
    { split.
      - apply Rmult_le_pos; [lra | left; apply Rinv_0_lt_compat; exact Hh].
      - apply Rmult_le_reg_r with h; [exact Hh |]. unfold Rdiv.
        rewrite Rmult_assoc, Rinv_l by lra. lra. }
    split; lra.
  - destruct He.
  - change (HostV1.mousePos (HostV1.render (HostV1.resizeCanvas d s)))
      with (HostV1.mousePos (HostV1.resizeCanvas d s)).
    rewrite (proj1 (proj2 (v1_resizeCanvas_keeps d s))). exact H.
  - exact H.
  - unfold HostV1.onSubmit.
    destruct (HostV1.submitTimeout s) as [h |];
      [destruct (Host.truthy (Some h)) |]; exact H.
  - unfold HostV1.fire.
    destruct (find _ _) as [t |]; [| exact H].
    destruct (HostV1.callback t); exact H.
Qed.

(** X25.  Nothing in the first script clamps the angles, yet as long as
    only the mouse is used, on a canvas of positive size, the mouse
    position stays in the unit square and the pitch and yaw of every frame
    lie in [[-1/4, 1/4]]: the listener ignores the mouse outside the
    canvas. *)
Theorem first_script_mouse_angles :
  forall (canvas : vec2) (events : list HostV1.Event),
    Forall HostV1.mouseOnly events ->
    let s := HostV1.run events (HostV1.initial canvas) in
    (0 <= x2 (HostV1.mousePos s) <= 1 /\
     0 <= y2 (HostV1.mousePos s) <= 1) /\
    forall u, HostV1.frame s = Some u ->
      - (1 / 4) <= u_pitch_angle u <= 1 / 4 /\
      - (1 / 4) <= u_yaw_angle u <= 1 / 4.
Proof.
  intros canvas events H s.
  assert (Hm : 0 <= x2 (HostV1.mousePos s) <= 1 /\
               0 <= y2 (HostV1.mousePos s) <= 1).
  { apply (v1_run_invariant
             (fun s => 0 <= x2 (HostV1.mousePos s) <= 1 /\
                       0 <= y2 (HostV1.mousePos s) <= 1)
             HostV1.mouseOnly v1_mouse_step events _ H).
    cbn. lra. }
  split; [exact Hm |].
  intros u Hu.
  destruct (first_script_frame_fresh canvas events) as [E | E];
    fold s in E; rewrite E in Hu; [discriminate |].
  injection Hu as <-.
  cbn [HostV1.uniformsOf u_pitch_angle u_yaw_angle]. lra.
Qed.

Lemma first_script_mouse_angles_witness :
  let s := HostV1.run SampleV1.mouseSession
             (HostV1.initial (mkvec2 300 150)) in
  (0 <= x2 (HostV1.mousePos s) <= 1 /\
   0 <= y2 (HostV1.mousePos s) <= 1) /\
  forall u, HostV1.frame s = Some u ->
    - (1 / 4) <= u_pitch_angle u <= 1 / 4 /\
    - (1 / 4) <= u_yaw_angle u <= 1 / 4.
Proof.
  apply (first_script_mouse_angles (mkvec2 300 150) SampleV1.mouseSession).
  unfold SampleV1.mouseSession.
  repeat constructor; cbn; lra.
Defined.

Lemma v1_typing n :
  forall s,
    List.length (HostV1.pendingInput (HostV1.run (HostV1.typing n) s))
    = (List.length (HostV1.pendingInput s) + n)%nat.
Proof.
  induction n as [| n IH]; intros s; cbn [HostV1.typing repeat HostV1.run].
  - lia.
  - fold (HostV1.typing n). rewrite IH.
    cbn [HostV1.dispatch]. unfold HostV1.pendingInput, HostV1.onInputChange.
    cbn. lia.
Qed.

(** X26.  The first script keeps no handle of the timers that switch the
    LED off after an input and never cancels one: [n] input events in a
    row leave [n] more of them pending, whatever happened before. *)
Theorem first_script_input_timers_pile_up :
  forall (canvas : vec2) (events : list HostV1.Event) (n : nat),
    List.length
      (HostV1.pendingInput
         (HostV1.run (events ++ HostV1.typing n) (HostV1.initial canvas)))
    = (List.length
         (HostV1.pendingInput (HostV1.run events (HostV1.initial canvas)))
       + n)%nat.
Proof.
  intros canvas events n. rewrite v1_run_app. apply v1_typing.
Qed.

(** * The vertex shader *)

(** X27.  The fragment shader undoes the vertex shader's change of
    coordinates: [(v_uv - 0.5) * 2.0] is the clip-space position again, so
    the camera ray of a fragment points through [(x * width / height, y, 1)];
    a position in [[-1,1]^2] gets a [v_uv] in [[0,1]^2]; and a fragment
    whose position satisfies [(x * width / height)^2 + y^2 >= 2.25] is
    transparent in both cores. *)
Theorem vertex_fragment_round_trip :
  forall (u : Uniforms) (a_position : vec4),
    let v_uv := snd (Vertex.main a_position) in
    let aspect := x2 (u_resolution u) / y2 (u_resolution u) in
    fst (Vertex.main a_position) = a_position /\
    scalef2 (subf2 v_uv 0.5) 2.0
    = mkvec2 (x4 a_position) (y4 a_position) /\
    Embedded.cameraRay u v_uv
    = normalize3 (mkvec3 (x4 a_position * aspect) (y4 a_position) 1.0) /\
    (-1 <= x4 a_position <= 1 -> -1 <= y4 a_position <= 1 ->
     0 <= x2 v_uv <= 1 /\ 0 <= y2 v_uv <= 1) /\
    (2.25 <= x4 a_position * aspect * (x4 a_position * aspect)
             + y4 a_position * y4 a_position ->
     Embedded.main u v_uv = mkvec4 0 0 0 0 /\
     Standalone.main u v_uv = mkvec4 0 0 0 0).
Proof.
  intros u a v_uv aspect. subst v_uv.
  unfold Vertex.main. cbn [fst snd].
  assert (E : scalef2
                (subf2 (mkvec2 (x4 a * 0.5 + 0.5) (y4 a * 0.5 + 0.5)) 0.5)
                2.0
              = mkvec2 (x4 a) (y4 a)).
  { cbv [scalef2 subf2 x2 y2]. f_equal; lra. }
  split; [reflexivity |]. split; [exact E |]. split; [| split].
  - unfold Embedded.cameraRay. cbv zeta. rewrite E. reflexivity.
  - intros Hx Hy. cbn [x2 y2]. lra.
  - intros Hfar.
    set (v := mkvec2 (x4 a * 0.5 + 0.5) (y4 a * 0.5 + 0.5)).
    assert (Huv : let uvx := (x2 v - 0.5) * 2.0
                             * (x2 (u_resolution u) / y2 (u_resolution u)) in
                  let uvy := (y2 v - 0.5) * 2.0 in
                  2.25 <= uvx * uvx + uvy * uvy).
    { cbv zeta. subst v. cbn [x2 y2]. fold aspect.
      replace ((x4 a * 0.5 + 0.5 - 0.5) * 2.0 * aspect)
        with (x4 a * aspect) by lra.
      replace ((y4 a * 0.5 + 0.5 - 0.5) * 2.0) with (y4 a) by lra.
      exact Hfar. }
    split.
    + unfold Embedded.main; cbv zeta. apply embedded_shadeRay_miss.
      rewrite rayMarch_agree, cameraRay_agree.
      pose proof (shade_far_pixel u v Huv Embedded.cameraPos 2.75) as H.
      unfold Embedded.cameraPos in *; cbv [x3 y3 z3] in H.
      assert (100 < x2 (Standalone.rayMarch u (mkvec3 0.0 0.0 (-2.75))
                          (Standalone.cameraRay u v)))
        by (apply H; lra).
      lra.
    + unfold Standalone.main; cbv zeta. apply shadeRay_miss.
      pose proof (shade_far_pixel u v Huv Standalone.cameraPos 2.35) as H.
      unfold Standalone.cameraPos in *; cbv [x3 y3 z3] in H.
      assert (100 < x2 (Standalone.rayMarch u (mkvec3 0.0 0.0 (-2.35))
                          (Standalone.cameraRay u v)))
        by (apply H; lra).
      lra.
Qed.
